(** * Mini-SQLite Web Engine: paged B-tree, row codec and transactional
      virtual disk, embedded from [src/lib/btree.ts], [src/lib/utils.ts],
      [src/lib/database.ts] and [src/types.ts]. *)

From Stdlib Require Import ZArith List Lia Bool Ascii String DecimalString Sorted.
From stdpp Require Import base option list gmap strings.

Local Open Scope Z_scope.

(** ** Errors and results

    Every [throw] of the source is a constructor; [RangeError] is the
    platform's exception for a [DataView] access or a [TypedArray.set]
    outside its buffer, [StackOverflow] the one for a recursion that
    does not come back (the embedding's recursion bound). *)

Inductive error : Type :=
  | RangeError
  | TypeError
  | StackOverflow
  | DuplicateKey (key : Z)
  | KeyNotFound (key : Z)
  | IndexPageFull
  | ColumnCountMismatch
  | ColumnNotFound (c : string)
  | InvalidPrimaryKey
  | NullColumn (c : string)
  | InvalidType (c : string)
  | NoPrimaryKeyValue
  | SerializeMissing (c : string)
  | RowNotFound
  | UnknownColumn (c : string)
  | CannotUpdatePrimaryKey
  | TransactionActive
  | NoTransaction
  | TableExists (t : string)
  | TableNotFound (t : string)
  | NoPrimaryKey
  | PrimaryKeyNotInteger.

Inductive result (A : Type) : Type :=
  | Ok (a : A)
  | Err (e : error).
Arguments Ok {A} a.
Arguments Err {A} e.

Definition rbind {A B} (r : result A) (k : A -> result B) : result B :=
  match r with Ok a => k a | Err e => Err e end.

Notation "x <~ r ; k" := (rbind r (fun x => k))
  (at level 20, r at level 100, k at level 200, only parsing).
Notation "' p <~ r ; k" := (rbind r (fun x => match x with p => k end))
  (at level 20, p pattern, r at level 100, k at level 200, only parsing).

(** ** Byte buffers and the [DataView] accessors (all big-endian) *)

Module Bytes.

Abbreviation bytes := (list Z).

Definition byteLength (b : bytes) : Z := Z.of_nat (length b).

Definition at_ (b : bytes) (i : Z) : Z := nth (Z.to_nat i) b 0.

Definition in_bounds (b : bytes) (off n : Z) : bool :=
  (0 <=? off) && (off + n <=? byteLength b).

(** [Uint8Array(n)]: a zero-filled buffer. *)
Definition zeros (n : Z) : bytes := repeat 0 (Z.to_nat n).

(** [b.slice(from, to)] and [b.subarray(from, to)] for [0 <= from]:
    both clamp to the buffer. *)
Definition slice (b : bytes) (from to : Z) : bytes :=
  firstn (Z.to_nat (to - from)) (skipn (Z.to_nat from) b).

(** The bytes of [b] with [src] laid over them from [off]. *)
Definition overlay (b : bytes) (off : Z) (src : bytes) : bytes :=
  firstn (Z.to_nat off) b ++ src ++ skipn (Z.to_nat off + length src) b.

(** [b.set(src, off)]: throws when [src] does not fit. *)
Definition set (b : bytes) (src : bytes) (off : Z) : result bytes :=
  if in_bounds b off (byteLength src) then Ok (overlay b off src)
  else Err RangeError.

Definition be16 (v : Z) : bytes := [(v / 256) mod 256; v mod 256].
Definition be32 (v : Z) : bytes :=
  [(v / 16777216) mod 256; (v / 65536) mod 256; (v / 256) mod 256; v mod 256].

Definition getUint8 (b : bytes) (off : Z) : result Z :=
  if in_bounds b off 1 then Ok (at_ b off) else Err RangeError.

Definition getUint16 (b : bytes) (off : Z) : result Z :=
  if in_bounds b off 2 then Ok (at_ b off * 256 + at_ b (off + 1))
  else Err RangeError.

Definition getUint32 (b : bytes) (off : Z) : result Z :=
  if in_bounds b off 4
  then Ok (at_ b off * 16777216 + at_ b (off + 1) * 65536
           + at_ b (off + 2) * 256 + at_ b (off + 3))
  else Err RangeError.

Definition getInt32 (b : bytes) (off : Z) : result Z :=
  u <~ getUint32 b off;
  Ok (if 2147483648 <=? u then u - 4294967296 else u).

Definition setUint8 (b : bytes) (off v : Z) : result bytes :=
  if in_bounds b off 1 then Ok (overlay b off [v mod 256]) else Err RangeError.

Definition setUint16 (b : bytes) (off v : Z) : result bytes :=
  if in_bounds b off 2 then Ok (overlay b off (be16 v)) else Err RangeError.

Definition setUint32 (b : bytes) (off v : Z) : result bytes :=
  if in_bounds b off 4 then Ok (overlay b off (be32 v)) else Err RangeError.

(** [setInt32] stores the value modulo 2^32, as [setUint32] does. *)
Definition setInt32 (b : bytes) (off v : Z) : result bytes := setUint32 b off v.

End Bytes.
Import Bytes.

(** ** [src/types.ts] *)

Definition PAGE_SIZE : Z := 4096.
Definition NODE_INTERNAL : Z := 0.
Definition NODE_LEAF : Z := 1.

Inductive DataType : Type := INTEGER | TEXT.

Record ColumnDefinition : Type := {
  col_name : string;
  col_type : DataType;
  isPrimaryKey : bool
}.

(** A column value: [string | number].  Numbers are the integers; a
    number that is not an integer is refused by [validateType] for
    both column types and never reaches a row. *)
Inductive value : Type :=
  | VNum (z : Z)
  | VStr (s : string).

(** [Row]: an object used as a map from column name to value. *)
Abbreviation Row := (gmap string value).

(** ** [src/lib/utils.ts]

    A string stands for the byte sequence of its UTF-8 encoding, one
    [ascii] per byte, so [TextEncoder.encode] lists its bytes and
    [TextDecoder.decode] reads them back, dropping a leading byte
    order mark as the platform's decoder does. *)

Definition byte_of_ascii (c : ascii) : Z := Z.of_N (N_of_ascii c).
Definition ascii_of_byte (z : Z) : ascii := ascii_of_N (Z.to_N z).

Definition TextEncoder_encode (s : string) : bytes :=
  map byte_of_ascii (list_ascii_of_string s).

Definition has_bom (b : bytes) : bool :=
  match b with
  | x :: y :: z :: _ => (x =? 239) && (y =? 187) && (z =? 191)
  | _ => false
  end.

Definition strip_bom (b : bytes) : bytes :=
  if has_bom b then skipn 3 b else b.

Definition TextDecoder_decode (b : bytes) : string :=
  string_of_list_ascii (map ascii_of_byte (strip_bom b)).

Definition is_nul (c : ascii) : bool := (N_of_ascii c =? 0)%N.

(** [s.replace(/\0/g, '')] *)
Fixpoint remove_nul (s : string) : string :=
  match s with
  | EmptyString => EmptyString
  | String c s' => if is_nul c then remove_nul s' else String c (remove_nul s')
  end.

Definition stringToBytes (s : string) : bytes := TextEncoder_encode s.

Definition bytesToString (b : bytes) : string :=
  remove_nul (TextDecoder_decode b).

(** ** Row codec: [Table.serializeRow] and [Table.deserializeRow]

    The two conversions of the platform that the codec applies to a
    value of the other kind than its column's are parameters:
    [Number_toInt32 s] is the 32-bit integer that [setInt32] stores for
    [Number(s)], [String_of_number z] is [String(z)]. *)

Section RowCodec.

Variable Number_toInt32 : string -> Z.
Variable String_of_number : Z -> string.

Definition column_bytes (col : ColumnDefinition) (val : value) : result bytes :=
  match col_type col with
  | INTEGER =>
      setInt32 (zeros 4) 0
        (match val with VNum z => z | VStr s => Number_toInt32 s end)
  | TEXT =>
      Ok (stringToBytes
            (match val with VStr s => s | VNum z => String_of_number z end))
  end.

(** The first [forEach] of [serializeRow]: two parts per column. *)
Fixpoint serialize_parts (cols : list ColumnDefinition) (row : Row)
    (parts : list bytes) (totalLen : Z) : result (list bytes * Z) :=
  match cols with
  | [] => Ok (parts, totalLen)
  | col :: rest =>
      match row !! col_name col with
      | None => Err (SerializeMissing (col_name col))
      | Some val =>
          b <~ column_bytes col val;
          lenPart <~ setUint16 (zeros 2) 0 (byteLength b);
          serialize_parts rest row (parts ++ [lenPart; b])
            (totalLen + (2 + byteLength b))
      end
  end.

(** The second [forEach]: every part copied into the result. *)
Fixpoint set_parts (res : bytes) (parts : list bytes) (offset : Z)
    : result bytes :=
  match parts with
  | [] => Ok res
  | p :: rest =>
      res' <~ Bytes.set res p offset;
      set_parts res' rest (offset + byteLength p)
  end.

Definition serializeRow (cols : list ColumnDefinition) (row : Row)
    : result bytes :=
  '(parts, totalLen) <~ serialize_parts cols row [] 0;
  set_parts (zeros totalLen) parts 0.

(** The [forEach] of [deserializeRow]: a [return] in its callback ends
    the callback for that column only, and the loop goes on with the
    offset as the callback left it. *)
Fixpoint deserialize_columns (cols : list ColumnDefinition) (data : bytes)
    (row : Row) (offset : Z) : result Row :=
  match cols with
  | [] => Ok row
  | col :: rest =>
      if byteLength data <? offset + 2
      then deserialize_columns rest data row offset
      else
        len <~ getUint16 data offset;
        let offset := offset + 2 in
        if byteLength data <? offset + len
        then deserialize_columns rest data row offset
        else
          match col_type col with
          | INTEGER =>
              val <~ getInt32 data offset;
              deserialize_columns rest data
                (<[col_name col := VNum val]> row) (offset + len)
          | TEXT =>
              let strBytes := slice data offset (offset + len) in
              deserialize_columns rest data
                (<[col_name col := VStr (bytesToString strBytes)]> row)
                (offset + len)
          end
  end.

Definition deserializeRow (cols : list ColumnDefinition) (data : bytes)
    : result Row :=
  if byteLength data =? 0 then Ok ∅
  else deserialize_columns cols data ∅ 0.

End RowCodec.

(** A platform for the worked examples, where [Number] and [String]
    know the decimal numerals only. *)
Definition decimal_Number (s : string) : option Z :=
  option_map Z.of_int (NilZero.int_of_string s).
Definition decimal_toInt32 (s : string) : Z :=
  match decimal_Number s with Some z => z | None => 0 end.
Definition decimal_String (z : Z) : string :=
  NilZero.string_of_int (Z.to_int z).
Definition decimal_isInteger (s : string) : bool :=
  match decimal_Number s with Some _ => true | None => false end.

(** ** State with exceptions

    A method runs on the state of its object; a [throw] leaves the
    state as the statements before it made it. *)

Definition M (S A : Type) : Type := S -> S * result A.

Definition ret {S A} (a : A) : M S A := fun s => (s, Ok a).
Definition throw {S A} (e : error) : M S A := fun s => (s, Err e).
Definition lift {S A} (r : result A) : M S A := fun s => (s, r).
Definition bind {S A B} (m : M S A) (k : A -> M S B) : M S B :=
  fun s =>
    match m s with
    | (s', Ok a) => k a s'
    | (s', Err e) => (s', Err e)
    end.
Definition get {S} : M S S := fun s => (s, Ok s).
Definition put {S} (s : S) : M S unit := fun _ => (s, Ok tt).

Notation "x <- m ; k" := (bind m (fun x => k))
  (at level 20, m at level 100, k at level 200, only parsing).
Notation "' p <- m ; k" := (bind m (fun x => match x with p => k end))
  (at level 20, p pattern, m at level 100, k at level 200, only parsing).

(** ** [VirtualDisk] ([src/lib/database.ts])

    [localStorage] keeps three kinds of items under the prefix: a page
    under its number, the allocation counter under [meta], a metadata
    value under [meta_] and its key.  A page is kept as the bytes that
    [btoa] received and [atob] gives back; a metadata value as the
    value that [JSON.stringify] received and [JSON.parse] gives back. *)

Record TableMeta : Type := {
  tm_name : string;
  tm_columns : option (list ColumnDefinition);
  tm_pkColumn : string;
  tm_rootPageId : Z;
  tm_seq : option Z
}.

Inductive MetaValue : Type :=
  | MetaTables (l : list TableMeta)
  | MetaNumber (z : Z).

Record LocalStorage : Type := {
  ls_pages : gmap Z bytes;
  ls_meta : option Z;
  ls_metadata : gmap string MetaValue
}.

Record VirtualDisk : Type := {
  pages : gmap Z bytes;
  maxPageId : Z;
  transactionBuffer : option (gmap Z bytes);
  metaBuffer : option (gmap string MetaValue);
  localStorage : LocalStorage
}.

Definition with_pages (d : VirtualDisk) (p : gmap Z bytes) : VirtualDisk :=
  {| pages := p; maxPageId := maxPageId d;
     transactionBuffer := transactionBuffer d; metaBuffer := metaBuffer d;
     localStorage := localStorage d |}.
Definition with_maxPageId (d : VirtualDisk) (m : Z) : VirtualDisk :=
  {| pages := pages d; maxPageId := m;
     transactionBuffer := transactionBuffer d; metaBuffer := metaBuffer d;
     localStorage := localStorage d |}.
Definition with_transactionBuffer (d : VirtualDisk) (b : option (gmap Z bytes))
    : VirtualDisk :=
  {| pages := pages d; maxPageId := maxPageId d;
     transactionBuffer := b; metaBuffer := metaBuffer d;
     localStorage := localStorage d |}.
Definition with_metaBuffer (d : VirtualDisk)
    (b : option (gmap string MetaValue)) : VirtualDisk :=
  {| pages := pages d; maxPageId := maxPageId d;
     transactionBuffer := transactionBuffer d; metaBuffer := b;
     localStorage := localStorage d |}.
Definition with_localStorage (d : VirtualDisk) (l : LocalStorage) : VirtualDisk :=
  {| pages := pages d; maxPageId := maxPageId d;
     transactionBuffer := transactionBuffer d; metaBuffer := metaBuffer d;
     localStorage := l |}.

Definition emptyStorage : LocalStorage :=
  {| ls_pages := ∅; ls_meta := None; ls_metadata := ∅ |}.

Module VirtualDisk.

(** [load]: the counter is taken from the [meta] item when there is one. *)
Definition load (d : VirtualDisk) : VirtualDisk :=
  match ls_meta (localStorage d) with
  | Some m => with_maxPageId d m
  | None => d
  end.

(** [new VirtualDisk()] over a given [localStorage]. *)
Definition create (l : LocalStorage) : VirtualDisk :=
  load {| pages := ∅; maxPageId := 0; transactionBuffer := None;
          metaBuffer := None; localStorage := l |}.

Definition refresh (d : VirtualDisk) : VirtualDisk :=
  load (with_metaBuffer (with_transactionBuffer (with_pages d ∅) None) None).

Definition saveMeta (d : VirtualDisk) : VirtualDisk :=
  with_localStorage d
    {| ls_pages := ls_pages (localStorage d);
       ls_meta := Some (maxPageId d);
       ls_metadata := ls_metadata (localStorage d) |}.

(** The item of a page is used when it is a non-empty string, that is
    when the page stored has at least one byte; a page read from the
    items is put in the cache. *)
Definition readPage (pageId : Z) : M VirtualDisk bytes := fun d =>
  match transactionBuffer d ≫= (.!! pageId) with
  | Some p => (d, Ok p)
  | None =>
      match pages d !! pageId with
      | Some p => (d, Ok p)
      | None =>
          match ls_pages (localStorage d) !! pageId with
          | Some (b :: bs) =>
              (with_pages d (<[pageId := b :: bs]> (pages d)), Ok (b :: bs))
          | _ => (d, Ok (zeros PAGE_SIZE))
          end
      end
  end.

Definition writeToDisk (pageId : Z) (data : bytes) (d : VirtualDisk)
    : VirtualDisk :=
  let d1 := with_pages d (<[pageId := data]> (pages d)) in
  let d2 := with_localStorage d1
              {| ls_pages := <[pageId := data]> (ls_pages (localStorage d1));
                 ls_meta := ls_meta (localStorage d1);
                 ls_metadata := ls_metadata (localStorage d1) |} in
  if maxPageId d2 <? pageId then saveMeta (with_maxPageId d2 pageId) else d2.

Definition writePage (pageId : Z) (data : bytes) : M VirtualDisk unit := fun d =>
  match transactionBuffer d with
  | Some buf => (with_transactionBuffer d (Some (<[pageId := data]> buf)), Ok tt)
  | None => (writeToDisk pageId data d, Ok tt)
  end.

Definition allocatePage : M VirtualDisk Z := fun d =>
  let d1 := with_maxPageId d (maxPageId d + 1) in
  let d2 := match transactionBuffer d1 with
            | Some _ => d1
            | None => saveMeta d1
            end in
  (d2, Ok (maxPageId d2)).

Definition getMetadata (key : string) : M VirtualDisk (option MetaValue) := fun d =>
  match metaBuffer d ≫= (.!! key) with
  | Some v => (d, Ok (Some v))
  | None => (d, Ok (ls_metadata (localStorage d) !! key))
  end.

Definition storeMetadata (key : string) (value : MetaValue) (d : VirtualDisk)
    : VirtualDisk :=
  with_localStorage d
    {| ls_pages := ls_pages (localStorage d);
       ls_meta := ls_meta (localStorage d);
       ls_metadata := <[key := value]> (ls_metadata (localStorage d)) |}.

Definition setMetadata (key : string) (value : MetaValue) : M VirtualDisk unit :=
  fun d =>
    match metaBuffer d with
    | Some buf => (with_metaBuffer d (Some (<[key := value]> buf)), Ok tt)
    | None => (storeMetadata key value d, Ok tt)
    end.

Definition beginTransaction : M VirtualDisk unit := fun d =>
  match transactionBuffer d with
  | Some _ => (d, Err TransactionActive)
  | None =>
      (with_metaBuffer (with_transactionBuffer d (Some ∅)) (Some ∅), Ok tt)
  end.

(** [commit]: every buffered page, then every buffered metadata value,
    goes to the items.  [metaBuffer!] of an absent buffer is a
    [TypeError]; the two buffers are set and cleared together. *)
Definition commit : M VirtualDisk unit := fun d =>
  match transactionBuffer d with
  | None => (d, Err NoTransaction)
  | Some buf =>
      let d1 := fold_left (fun d '(id, data) => writeToDisk id data d)
                  (map_to_list buf) d in
      match metaBuffer d1 with
      | None => (d1, Err TypeError)
      | Some mbuf =>
          let d2 := fold_left (fun d '(key, val) => storeMetadata key val d)
                      (map_to_list mbuf) d1 in
          (with_metaBuffer (with_transactionBuffer (saveMeta d2) None) None,
           Ok tt)
      end
  end.

Definition rollback : M VirtualDisk unit := fun d =>
  match transactionBuffer d with
  | None => (d, Err NoTransaction)
  | Some _ =>
      (load (with_pages
               (with_metaBuffer (with_transactionBuffer d None) None) ∅),
       Ok tt)
  end.

Definition reset (d : VirtualDisk) : VirtualDisk :=
  {| pages := ∅; maxPageId := 0; transactionBuffer := None;
     metaBuffer := None; localStorage := emptyStorage |}.

End VirtualDisk.

(** ** [BTree] ([src/lib/btree.ts]) *)

Definition HEADER_SIZE : Z := 7.
Definition OFF_TYPE : Z := 0.
Definition OFF_NUM_CELLS : Z := 1.
Definition OFF_PARENT : Z := 3.

(** [{key, data}], [{k, v}] of a leaf and [{k, p}] of an internal node. *)
Abbreviation cell := (Z * list Z)%type.
Abbreviation item := (Z * Z)%type.

(** [Array.prototype.sort] with the comparator [(a, b) => a.k - b.k]:
    ascending by key and stable. *)
Fixpoint insert_by_key {A} (x : Z * A) (l : list (Z * A)) : list (Z * A) :=
  match l with
  | [] => [x]
  | y :: l' => if fst y <=? fst x then y :: insert_by_key x l' else x :: y :: l'
  end.

Definition sort_by_key {A} (l : list (Z * A)) : list (Z * A) :=
  fold_left (fun acc x => insert_by_key x acc) l [].

Record BTree : Type := {
  disk : VirtualDisk;
  rootPageId : Z
}.

Module BTree.

Definition on_disk {A} (m : M VirtualDisk A) : M BTree A := fun bt =>
  let '(d, r) := m (disk bt) in
  ({| disk := d; rootPageId := rootPageId bt |}, r).

Definition root : M BTree Z := fun bt => (bt, Ok (rootPageId bt)).

Definition set_root (r : Z) : M BTree unit := fun bt =>
  ({| disk := disk bt; rootPageId := r |}, Ok tt).

(** *** The constructor *)

Definition starts_with_zeros (page : bytes) : bool :=
  match page with
  | 0 :: 0 :: 0 :: 0 :: _ => true
  | _ => false
  end.

(** The array that [readPage] returned is the one the buffer or the
    cache holds: what is written into it is seen there at once. *)
Definition write_through_alias (pageId : Z) (page : bytes) : M VirtualDisk unit :=
  fun d =>
    match transactionBuffer d with
    | Some buf =>
        match buf !! pageId with
        | Some _ =>
            (with_transactionBuffer d (Some (<[pageId := page]> buf)), Ok tt)
        | None =>
            match pages d !! pageId with
            | Some _ => (with_pages d (<[pageId := page]> (pages d)), Ok tt)
            | None => (d, Ok tt)
            end
        end
    | None =>
        match pages d !! pageId with
        | Some _ => (with_pages d (<[pageId := page]> (pages d)), Ok tt)
        | None => (d, Ok tt)
        end
    end.

Definition poke (pageId : Z) (r : result bytes) : M VirtualDisk bytes :=
  page <- lift r;
  _ <- write_through_alias pageId page;
  ret page.

(** [new BTree(disk, rootPageId)]: the object made is
    [{| disk := d; rootPageId := rootPageId |}] for the disk [d] left. *)
Definition create (rootPageId : Z) : M VirtualDisk unit :=
  rootPage <- VirtualDisk.readPage rootPageId;
  if starts_with_zeros rootPage then
    p1 <- poke rootPageId (setUint8 rootPage OFF_TYPE NODE_LEAF);
    p2 <- poke rootPageId (setUint16 p1 OFF_NUM_CELLS 0);
    p3 <- poke rootPageId (setUint32 p2 OFF_PARENT 0);
    VirtualDisk.writePage rootPageId p3
  else ret tt.

(** *** [getMaxKey] *)

Fixpoint last_key_loop (page : bytes) (n : nat) (offset maxK : Z) : result Z :=
  match n with
  | O => Ok maxK
  | S n' =>
      maxK <~ getUint32 page offset;
      s <~ getUint32 page (offset + 4);
      last_key_loop page n' (offset + 4 + (4 + s)) maxK
  end.

Fixpoint last_child_loop (page : bytes) (n : nat) (offset rightChildId : Z)
    : result Z :=
  match n with
  | O => Ok rightChildId
  | S n' =>
      rightChildId <~ getUint32 page (offset + 4);
      last_child_loop page n' (offset + 4 + 4) rightChildId
  end.

Fixpoint findMaxInPage (fuel : nat) (pageId : Z) : M BTree Z :=
  match fuel with
  | O => throw StackOverflow
  | S fuel' =>
      page <- on_disk (VirtualDisk.readPage pageId);
      type <- lift (getUint8 page OFF_TYPE);
      numCells <- lift (getUint16 page OFF_NUM_CELLS);
      if numCells =? 0 then ret 0
      else if type =? NODE_LEAF then
        lift (last_key_loop page (Z.to_nat numCells) HEADER_SIZE 0)
      else
        p0 <- lift (getUint32 page HEADER_SIZE);
        rightChildId <- lift (last_child_loop page (Z.to_nat numCells)
                                (HEADER_SIZE + 4) p0);
        findMaxInPage fuel' rightChildId
  end.

Definition getMaxKey (fuel : nat) : M BTree Z :=
  r <- root; findMaxInPage fuel r.

(** *** [getAll] *)

Fixpoint read_cells (page : bytes) (n : nat) (offset : Z) : result (list cell) :=
  match n with
  | O => Ok []
  | S n' =>
      k <~ getUint32 page offset;
      size <~ getUint32 page (offset + 4);
      let data := slice page (offset + 4 + 4) (offset + 4 + 4 + size) in
      rest <~ read_cells page n' (offset + 4 + 4 + size);
      Ok ((k, data) :: rest)
  end.

Fixpoint traverse (fuel : nat) (pageId : Z) : M BTree (list cell) :=
  match fuel with
  | O => throw StackOverflow
  | S fuel' =>
      page <- on_disk (VirtualDisk.readPage pageId);
      if byteLength page =? 0 then ret []
      else
        type <- lift (getUint8 page OFF_TYPE);
        numCells <- lift (getUint16 page OFF_NUM_CELLS);
        if type =? NODE_LEAF then
          lift (read_cells page (Z.to_nat numCells) HEADER_SIZE)
        else
          p0 <- lift (getUint32 page HEADER_SIZE);
          first <- traverse fuel' p0;
          (fix children (n : nat) (offset : Z) (results : list cell)
             : M BTree (list cell) :=
             match n with
             | O => ret results
             | S n' =>
                 p <- lift (getUint32 page (offset + 4));
                 sub <- traverse fuel' p;
                 children n' (offset + 4 + 4) (results ++ sub)
             end) (Z.to_nat numCells) (HEADER_SIZE + 4) first
  end.

Definition getAll (fuel : nat) : M BTree (list cell) :=
  r <- root; traverse fuel r.

(** *** [search] *)

(** The loop of [findLeafPage]: the child to go down into. *)
Fixpoint route_loop (page : bytes) (key : Z) (n : nat) (offset childPageId : Z)
    : result Z :=
  match n with
  | O => Ok childPageId
  | S n' =>
      cellKey <~ getUint32 page offset;
      rightChildId <~ getUint32 page (offset + 4);
      if key <? cellKey then Ok childPageId
      else route_loop page key n' (offset + 4 + 4) rightChildId
  end.

Fixpoint findLeafPage (fuel : nat) (pageId key : Z) : M BTree Z :=
  match fuel with
  | O => throw StackOverflow
  | S fuel' =>
      page <- on_disk (VirtualDisk.readPage pageId);
      type <- lift (getUint8 page OFF_TYPE);
      if type =? NODE_LEAF then ret pageId
      else
        numCells <- lift (getUint16 page OFF_NUM_CELLS);
        childPageId <- lift (getUint32 page HEADER_SIZE);
        child <- lift (route_loop page key (Z.to_nat numCells)
                         (HEADER_SIZE + 4) childPageId);
        findLeafPage fuel' child key
  end.

Fixpoint find_loop (page : bytes) (key : Z) (n : nat) (offset : Z)
    : result (option bytes) :=
  match n with
  | O => Ok None
  | S n' =>
      cellKey <~ getUint32 page offset;
      dataSize <~ getUint32 page (offset + 4);
      if cellKey =? key
      then Ok (Some (slice page (offset + 4 + 4) (offset + 4 + 4 + dataSize)))
      else find_loop page key n' (offset + 4 + 4 + dataSize)
  end.

Definition findInLeaf (pageId key : Z) : M BTree (option bytes) :=
  page <- on_disk (VirtualDisk.readPage pageId);
  numCells <- lift (getUint16 page OFF_NUM_CELLS);
  lift (find_loop page key (Z.to_nat numCells) HEADER_SIZE).

Definition search (fuel : nat) (key : Z) : M BTree (option bytes) :=
  r <- root;
  leafPageId <- findLeafPage fuel r key;
  findInLeaf leafPageId key.

(** *** Writing leaves and internal nodes *)

Fixpoint write_cells (page : bytes) (cells : list cell) (offset : Z)
    : result bytes :=
  match cells with
  | [] => Ok page
  | (k, v) :: rest =>
      page <~ setUint32 page offset k;
      page <~ setUint32 page (offset + 4) (byteLength v);
      page <~ Bytes.set page v (offset + 4 + 4);
      write_cells page rest (offset + 4 + 4 + byteLength v)
  end.

Definition writeCellsToLeaf (pageId : Z) (cells : list cell) : M BTree unit :=
  let page := zeros PAGE_SIZE in
  page <- lift (setUint8 page OFF_TYPE NODE_LEAF);
  page <- lift (setUint16 page OFF_NUM_CELLS (Z.of_nat (length cells)));
  page <- lift (write_cells page cells HEADER_SIZE);
  on_disk (VirtualDisk.writePage pageId page).

Definition createGenericRoot (key leftChildId rightChildId : Z) : M BTree unit :=
  newRootId <- on_disk VirtualDisk.allocatePage;
  let newRoot := zeros PAGE_SIZE in
  newRoot <- lift (setUint8 newRoot OFF_TYPE NODE_INTERNAL);
  newRoot <- lift (setUint16 newRoot OFF_NUM_CELLS 1);
  newRoot <- lift (setUint32 newRoot OFF_PARENT 0);
  newRoot <- lift (setUint32 newRoot HEADER_SIZE leftChildId);
  newRoot <- lift (setUint32 newRoot (HEADER_SIZE + 4) key);
  newRoot <- lift (setUint32 newRoot (HEADER_SIZE + 4 + 4) rightChildId);
  _ <- on_disk (VirtualDisk.writePage newRootId newRoot);
  _ <- set_root newRootId;
  on_disk (VirtualDisk.setMetadata "root" (MetaNumber newRootId)).

Fixpoint read_items (page : bytes) (n : nat) (offset : Z) : result (list item) :=
  match n with
  | O => Ok []
  | S n' =>
      k <~ getUint32 page offset;
      p <~ getUint32 page (offset + 4);
      rest <~ read_items page n' (offset + 4 + 4);
      Ok ((k, p) :: rest)
  end.

Fixpoint write_items (page : bytes) (items : list item) (offset : Z)
    : result bytes :=
  match items with
  | [] => Ok page
  | (k, p) :: rest =>
      page <~ setUint32 page offset k;
      page <~ setUint32 page (offset + 4) p;
      write_items page rest (offset + 4 + 4)
  end.

Definition insertIntoInternal (pageId key rightChildId : Z) : M BTree unit :=
  page <- on_disk (VirtualDisk.readPage pageId);
  numCells <- lift (getUint16 page OFF_NUM_CELLS);
  if 100 <=? numCells then throw IndexPageFull
  else
    p0 <- lift (getUint32 page HEADER_SIZE);
    items <- lift (read_items page (Z.to_nat numCells) (HEADER_SIZE + 4));
    let items := sort_by_key (items ++ [(key, rightChildId)]) in
    let newPage := zeros PAGE_SIZE in
    newPage <- lift (setUint8 newPage OFF_TYPE NODE_INTERNAL);
    newPage <- lift (setUint16 newPage OFF_NUM_CELLS (Z.of_nat (length items)));
    parent <- lift (getUint32 page OFF_PARENT);
    newPage <- lift (setUint32 newPage OFF_PARENT parent);
    newPage <- lift (setUint32 newPage HEADER_SIZE p0);
    newPage <- lift (write_items newPage items (HEADER_SIZE + 4));
    on_disk (VirtualDisk.writePage pageId newPage).

(** *** [insert] *)

Definition splitLeaf (pageId key : Z) (value : bytes) : M BTree unit :=
  page <- on_disk (VirtualDisk.readPage pageId);
  numCells <- lift (getUint16 page OFF_NUM_CELLS);
  cells <- lift (read_cells page (Z.to_nat numCells) HEADER_SIZE);
  let cells := sort_by_key (cells ++ [(key, value)]) in
  newPageId <- on_disk VirtualDisk.allocatePage;
  let midIndex := Z.of_nat (length cells) / 2 in
  match nth_error cells (Z.to_nat midIndex) with
  | None => throw TypeError
  | Some midCell =>
      let splitKey := fst midCell in
      let leftCells := firstn (Z.to_nat midIndex) cells in
      _ <- writeCellsToLeaf pageId leftCells;
      let rightCells := skipn (Z.to_nat midIndex) cells in
      _ <- writeCellsToLeaf newPageId rightCells;
      parentPtr <- lift (getUint32 page OFF_PARENT);
      r <- root;
      if pageId =? r then createGenericRoot splitKey pageId newPageId
      else insertIntoInternal parentPtr splitKey newPageId
  end.

(** The first loop of [insertIntoLeaf]: the index to insert at and the
    offset after the last cell. *)
Fixpoint scan_loop (page : bytes) (key : Z) (n : nat) (i offset insertIndex : Z)
    (found : bool) : result (Z * Z) :=
  match n with
  | O => Ok (insertIndex, offset)
  | S n' =>
      cKey <~ getUint32 page offset;
      if cKey =? key then Err (DuplicateKey key)
      else
        let '(insertIndex, found) :=
          if negb found && (key <? cKey) then (i, true)
          else (insertIndex, found) in
        size <~ getUint32 page (offset + 4);
        scan_loop page key n' (i + 1) (offset + 4 + (4 + size)) insertIndex found
  end.

(** The two copying loops of [insertIntoLeaf]. *)
Fixpoint copy_cells (page newPage : bytes) (n : nat) (srcOffset dstOffset : Z)
    : result (bytes * Z * Z) :=
  match n with
  | O => Ok (newPage, srcOffset, dstOffset)
  | S n' =>
      k <~ getUint32 page srcOffset;
      s <~ getUint32 page (srcOffset + 4);
      newPage <~ setUint32 newPage dstOffset k;
      newPage <~ setUint32 newPage (dstOffset + 4) s;
      newPage <~ Bytes.set newPage
                   (slice page (srcOffset + 4 + 4) (srcOffset + 4 + 4 + s))
                   (dstOffset + 4 + 4);
      copy_cells page newPage n' (srcOffset + 4 + 4 + s) (dstOffset + 4 + 4 + s)
  end.

Definition insertIntoLeaf (pageId key : Z) (value : bytes) : M BTree unit :=
  page <- on_disk (VirtualDisk.readPage pageId);
  numCells <- lift (getUint16 page OFF_NUM_CELLS);
  let spaceNeeded := 8 + byteLength value in
  '(insertIndex, currentSize) <-
     lift (scan_loop page key (Z.to_nat numCells) 0 HEADER_SIZE numCells false);
  if PAGE_SIZE <? currentSize + spaceNeeded then splitLeaf pageId key value
  else
    let newPage := zeros PAGE_SIZE in
    newPage <- lift (Bytes.set newPage (slice page 0 HEADER_SIZE) 0);
    newPage <- lift (setUint16 newPage OFF_NUM_CELLS (numCells + 1));
    '(newPage, srcOffset, dstOffset) <-
       lift (copy_cells page newPage (Z.to_nat insertIndex)
               HEADER_SIZE HEADER_SIZE);
    newPage <- lift (setUint32 newPage dstOffset key);
    newPage <- lift (setUint32 newPage (dstOffset + 4) (byteLength value));
    newPage <- lift (Bytes.set newPage value (dstOffset + 4 + 4));
    let dstOffset := dstOffset + 4 + 4 + byteLength value in
    '(newPage, _, _) <-
       lift (copy_cells page newPage (Z.to_nat (numCells - insertIndex))
               srcOffset dstOffset);
    on_disk (VirtualDisk.writePage pageId newPage).

Definition insert (fuel : nat) (key : Z) (value : bytes) : M BTree unit :=
  r <- root;
  leafPageId <- findLeafPage fuel r key;
  insertIntoLeaf leafPageId key value.

(** *** [delete] *)

Fixpoint delete_loop (page newPage : bytes) (key : Z) (n : nat)
    (srcOffset dstOffset : Z) (found : bool) (newCount : Z)
    : result (bytes * bool * Z) :=
  match n with
  | O => Ok (newPage, found, newCount)
  | S n' =>
      k <~ getUint32 page srcOffset;
      s <~ getUint32 page (srcOffset + 4);
      if k =? key then
        delete_loop page newPage key n' (srcOffset + 4 + 4 + s) dstOffset
          true newCount
      else
        newPage <~ setUint32 newPage dstOffset k;
        newPage <~ setUint32 newPage (dstOffset + 4) s;
        newPage <~ Bytes.set newPage
                     (slice page (srcOffset + 4 + 4) (srcOffset + 4 + 4 + s))
                     (dstOffset + 4 + 4);
        delete_loop page newPage key n' (srcOffset + 4 + 4 + s)
          (dstOffset + 4 + 4 + s) found (newCount + 1)
  end.

Definition delete (fuel : nat) (key : Z) : M BTree unit :=
  r <- root;
  leafId <- findLeafPage fuel r key;
  page <- on_disk (VirtualDisk.readPage leafId);
  numCells <- lift (getUint16 page OFF_NUM_CELLS);
  let newPage := zeros PAGE_SIZE in
  newPage <- lift (setUint8 newPage OFF_TYPE NODE_LEAF);
  '(newPage, found, newCount) <-
     lift (delete_loop page newPage key (Z.to_nat numCells)
             HEADER_SIZE HEADER_SIZE false 0);
  if found then
    newPage <- lift (setUint16 newPage OFF_NUM_CELLS newCount);
    parent <- lift (getUint32 page OFF_PARENT);
    newPage <- lift (setUint32 newPage OFF_PARENT parent);
    on_disk (VirtualDisk.writePage leafId newPage)
  else throw (KeyNotFound key).

End BTree.


(** ** Operations on a tree and the trees they reach *)

Inductive operation : Type :=
  | Insert (key : Z) (value : bytes)
  | Delete (key : Z).

(** [fuel] bounds the depth of the recursion over the pages. *)
Definition run (fuel : nat) (op : operation) : M BTree unit :=
  match op with
  | Insert key value => BTree.insert fuel key value
  | Delete key => BTree.delete fuel key
  end.

Definition run_all (fuel : nat) (ops : list operation) (bt : BTree) : BTree :=
  fold_left (fun bt op => fst (run fuel op bt)) ops bt.

(** A disk as [new VirtualDisk()] finds it after [reset], a root
    allocated on it as [CREATE TABLE] does, and the tree made on it. *)
Definition fresh_tree : BTree :=
  let d0 := VirtualDisk.create emptyStorage in
  let '(d1, r) := VirtualDisk.allocatePage d0 in
  let rootId := match r with Ok id => id | Err _ => 0 end in
  {| disk := fst (BTree.create rootId d1); rootPageId := rootId |}.

(** A payload of [n] bytes [b], for the worked examples. *)
Definition payload (n : nat) (b : Z) : bytes := repeat b n.

Definition example_ops : list operation :=
  [Insert 5 (payload 2000 1); Insert 3 (payload 2000 2);
   Insert 9 (payload 10 3); Insert 4 (payload 2000 4); Delete 3].

(** The tree of the first four operations: a root over two leaves. *)
Definition example_split : BTree := run_all 3 (firstn 4 example_ops) fresh_tree.



(** Modelled from the spec: the bytes that an internal node of
    [numCells] entries takes of its page, the header, the first child
    and eight bytes an entry. *)
Definition node_size (numCells : Z) : Z := HEADER_SIZE + 4 + 8 * numCells.

(** The tree of the first three operations: one leaf, which the fourth
    splits. *)
Definition example_leaf : BTree := run_all 3 (firstn 3 example_ops) fresh_tree.

(** ** [Table] ([src/lib/btree.ts], after [BTree])

    A number of a command or of a row is an integer here: one that is
    not is refused by [validateType] for either type of column. *)

Record TableSchema : Type := {
  name : string;
  columns : list ColumnDefinition;
  pkColumn : string;
  seq : option Z
}.

Definition with_seq (s : TableSchema) (v : option Z) : TableSchema :=
  {| name := name s; columns := columns s; pkColumn := pkColumn s; seq := v |}.

Record Table : Type := {
  table_name : string;
  schema : TableSchema;
  btree : BTree
}.

Module Table.

Definition on_btree {A} (m : M BTree A) : M Table A := fun t =>
  let '(bt, r) := m (btree t) in
  ({| table_name := table_name t; schema := schema t; btree := bt |}, r).

Definition set_seq (v : Z) : M Table unit := fun t =>
  ({| table_name := table_name t; schema := with_seq (schema t) (Some v);
      btree := btree t |}, Ok tt).

Section Methods.

(** [Number] of a string as [setInt32] stores it, [String] of a number,
    and whether [parseInt] and [Number] find an integer in a string. *)
Variable Number_toInt32 : string -> Z.
Variable String_of_number : Z -> string.
Variable String_isInteger : string -> bool.

(** [validateType] ([src/lib/utils.ts]). *)
Definition validateType (val : value) (type : DataType) : bool :=
  match type, val with
  | INTEGER, VNum _ => true
  | INTEGER, VStr s => String_isInteger s
  | TEXT, VStr _ => true
  | TEXT, VNum _ => false
  end.

Fixpoint findIndex (cols : list ColumnDefinition) (colName : string)
    : option nat :=
  match cols with
  | [] => None
  | c :: rest =>
      if String.eqb (col_name c) colName then Some O
      else option_map S (findIndex rest colName)
  end.

(** [columns.forEach] of the normalisation: [null] is [None]. *)
Fixpoint place_values (cols : list ColumnDefinition) (colNames : list string)
    (values : list value) (rowValues : list (option value))
    : result (list (option value)) :=
  match colNames, values with
  | colName :: colNames', v :: values' =>
      match findIndex cols colName with
      | None => Err (ColumnNotFound colName)
      | Some schemaIdx =>
          place_values cols colNames' values' (<[schemaIdx := Some v]> rowValues)
      end
  | _, _ => Ok rowValues
  end.

Definition normalize (cols : list ColumnDefinition) (values : list value)
    (colNames : option (list string)) : result (list (option value)) :=
  match colNames with
  | Some colNames =>
      if negb (length colNames =? length values)%nat
      then Err ColumnCountMismatch
      else place_values cols colNames values (replicate (length cols) None)
  | None =>
      if negb (length values =? length cols)%nat
      then Err ColumnCountMismatch
      else Ok (map Some values)
  end.

(** [this.schema.seq || this.btree.getMaxKey()]: the tree is asked only
    when there is no counter or the counter is 0. *)
Definition lastSeq (fuel : nat) : M Table Z :=
  t <- get;
  match seq (schema t) with
  | Some s => if s =? 0 then on_btree (BTree.getMaxKey fuel) else ret s
  | None => on_btree (BTree.getMaxKey fuel)
  end.

Definition is_NULL (val : option value) : bool :=
  match val with
  | None => true
  | Some (VStr s) => String.eqb s "NULL"
  | Some (VNum _) => false
  end.

(** The value and the key that a column leaves: for a primary key
    column the key is computed or taken from the value. *)
Definition primary_key (fuel : nat) (col : ColumnDefinition)
    (val : option value) (pkValue : option Z)
    : M Table (option value * option Z) :=
  if isPrimaryKey col then
    if is_NULL val then
      last <- lastSeq fuel;
      ret (Some (VNum (last + 1)), Some (last + 1))
    else
      match val with
      | Some (VNum z) => ret (val, Some z)
      | _ => throw InvalidPrimaryKey
      end
  else ret (val, pkValue).

(** [this.schema.columns.forEach] of [insert]. *)
Fixpoint check_columns (fuel : nat) (cols : list ColumnDefinition)
    (rowValues : list (option value)) (row : Row) (pkValue : option Z)
    : M Table (Row * option Z) :=
  match cols, rowValues with
  | col :: cols', val :: rowValues' =>
      ' (val, pkValue) <- primary_key fuel col val pkValue;
      match val with
      | None => throw (NullColumn (col_name col))
      | Some v =>
          if validateType v (col_type col)
          then check_columns fuel cols' rowValues'
                 (<[col_name col := v]> row) pkValue
          else throw (InvalidType (col_name col))
      end
  | _, _ => ret (row, pkValue)
  end.

(** [insert] in two parts: the row and its key are found, then the
    row is stored under the key and the counter follows. *)
Definition prepare (fuel : nat) (values : list value)
    (colNames : option (list string)) : M Table (Row * Z) :=
  t <- get;
  let cols := columns (schema t) in
  rowValues <- lift (normalize cols values colNames);
  ' (row, pkValue) <- check_columns fuel cols rowValues ∅ None;
  match pkValue with
  | None => throw NoPrimaryKeyValue
  | Some pk => ret (row, pk)
  end.

Definition store (fuel : nat) (row : Row) (pkValue : Z) : M Table unit :=
  t <- get;
  data <- lift (serializeRow Number_toInt32 String_of_number
                  (columns (schema t)) row);
  _ <- on_btree (BTree.insert fuel pkValue data);
  t <- get;
  if (match seq (schema t) with Some s => s | None => 0 end) <? pkValue
  then set_seq pkValue
  else ret tt.

Definition insert (fuel : nat) (values : list value)
    (colNames : option (list string)) : M Table unit :=
  ' (row, pkValue) <- prepare fuel values colNames;
  store fuel row pkValue.

Fixpoint deserialize_all (cols : list ColumnDefinition) (all : list cell)
    : result (list Row) :=
  match all with
  | [] => Ok []
  | item :: rest =>
      row <~ deserializeRow cols (snd item);
      rows <~ deserialize_all cols rest;
      Ok (row :: rows)
  end.

Definition select (fuel : nat) (whereFn : option (Row -> bool))
    : M Table (list Row) :=
  all <- on_btree (BTree.getAll fuel);
  t <- get;
  rows <- lift (deserialize_all (columns (schema t)) all);
  ret (match whereFn with
       | Some f => List.filter f rows
       | None => rows
       end).

Definition delete (fuel : nat) (pk : Z) : M Table unit :=
  on_btree (BTree.delete fuel pk).

Definition is_number (pk : Z) (v : value) : bool :=
  match v with
  | VNum z => z =? pk
  | VStr _ => false
  end.

(** [updates.forEach] of [update]. *)
Fixpoint apply_updates (cols : list ColumnDefinition) (pk : Z)
    (updates : list (string * value)) (row : Row) : result Row :=
  match updates with
  | [] => Ok row
  | (column, v) :: rest =>
      match List.find (fun c => String.eqb (col_name c) column) cols with
      | None => Err (UnknownColumn column)
      | Some colDef =>
          if negb (validateType v (col_type colDef))
          then Err (InvalidType column)
          else if isPrimaryKey colDef && negb (is_number pk v)
          then Err CannotUpdatePrimaryKey
          else apply_updates cols pk rest (<[column := v]> row)
      end
  end.

Definition update (fuel : nat) (pk : Z) (updates : list (string * value))
    : M Table unit :=
  existingBytes <- on_btree (BTree.search fuel pk);
  match existingBytes with
  | None => throw RowNotFound
  | Some existingBytes =>
      t <- get;
      let cols := columns (schema t) in
      row <- lift (deserializeRow cols existingBytes);
      row <- lift (apply_updates cols pk updates row);
      newData <- lift (serializeRow Number_toInt32 String_of_number cols row);
      _ <- on_btree (BTree.delete fuel pk);
      on_btree (BTree.insert fuel pk newData)
  end.

End Methods.

End Table.

(** ** [Database] ([src/lib/database.ts])

    The tables of a database share its disk: a table is kept as its
    schema and the root of its tree, and a method of the table runs on
    the disk of the database.  [tables] is a [Map]: it keeps the order
    in which names were first set.

    A command is what [parseSQL] makes of a statement, and the
    conjunction of the conditions of a [WHERE] is the predicate that
    [execute] filters rows with.  [JOIN] is left out. *)

Inductive command : Type :=
  | BEGIN
  | COMMIT
  | ROLLBACK
  | CREATE_TABLE (tableName : string) (schema : list ColumnDefinition)
  | INSERT (tableName : string) (values : list value)
      (colNames : option (list string))
  | SELECT (tableName : string) (whereFn : Row -> bool)
  | DELETE (tableName : string) (whereFn : Row -> bool)
  | UPDATE (tableName : string) (updates : list (string * value))
      (whereFn : Row -> bool).

(** What [execute] returns: a message or the rows found. *)
Inductive reply : Type :=
  | Started
  | Committed
  | RolledBack
  | Created
  | Inserted
  | Rows (rows : list Row)
  | Deleted (count : nat)
  | Updated (count : nat).

Record Database : Type := {
  db_disk : VirtualDisk;
  tables : list (string * (TableSchema * Z))
}.

Fixpoint map_get {A} (k : string) (l : list (string * A)) : option A :=
  match l with
  | [] => None
  | (k', v) :: rest => if String.eqb k' k then Some v else map_get k rest
  end.

Fixpoint map_set {A} (k : string) (v : A) (l : list (string * A))
    : list (string * A) :=
  match l with
  | [] => [(k, v)]
  | (k', v') :: rest =>
      if String.eqb k' k then (k, v) :: rest else (k', v') :: map_set k v rest
  end.

Module Database.

Definition on_disk {A} (m : M VirtualDisk A) : M Database A := fun db =>
  let '(d, r) := m (db_disk db) in
  ({| db_disk := d; tables := tables db |}, r).

Definition set_table (tableName : string) (s : TableSchema) (rootPageId : Z)
    : M Database unit := fun db =>
  ({| db_disk := db_disk db;
      tables := map_set tableName (s, rootPageId) (tables db) |}, Ok tt).

Definition clear_tables : M Database unit := fun db =>
  ({| db_disk := db_disk db; tables := [] |}, Ok tt).

(** The table of a name, on the disk of the database, and a method
    run on it. *)
Definition table_of (tableName : string) (db : Database) : option Table :=
  match map_get tableName (tables db) with
  | None => None
  | Some (s, root) =>
      Some {| table_name := tableName; schema := s;
              btree := {| disk := db_disk db; rootPageId := root |} |}
  end.

Definition on_table {A} (tableName : string) (m : M Table A) : M Database A :=
  fun db =>
    match table_of tableName db with
    | None => (db, Err (TableNotFound tableName))
    | Some t =>
        let '(t', r) := m t in
        ({| db_disk := disk (btree t');
            tables := map_set tableName (schema t', rootPageId (btree t'))
                        (tables db) |}, r)
    end.

(** [loadTables]: a schema without columns is skipped; for the others
    the tree is made on its root. *)
Fixpoint load_each (tablesMeta : list TableMeta) : M Database unit :=
  match tablesMeta with
  | [] => ret tt
  | s :: rest =>
      match tm_columns s with
      | None => load_each rest
      | Some cols =>
          _ <- on_disk (BTree.create (tm_rootPageId s));
          _ <- set_table (tm_name s)
                 {| name := tm_name s; columns := cols;
                    pkColumn := tm_pkColumn s; seq := tm_seq s |}
                 (tm_rootPageId s);
          load_each rest
      end
  end.

Definition loadTables : M Database unit :=
  tablesMeta <- on_disk (VirtualDisk.getMetadata "tables");
  match tablesMeta with
  | Some (MetaTables l) => load_each l
  | Some (MetaNumber z) => if z =? 0 then ret tt else throw TypeError
  | None => ret tt
  end.

(** [new Database()] over a given [localStorage]. *)
Definition create (l : LocalStorage) : Database * result unit :=
  loadTables {| db_disk := VirtualDisk.create l; tables := [] |}.

Definition refresh : M Database unit :=
  _ <- (fun db => ({| db_disk := VirtualDisk.refresh (db_disk db);
                      tables := [] |}, Ok tt));
  loadTables.

Definition hardReset : M Database unit := fun db =>
  ({| db_disk := VirtualDisk.reset (db_disk db); tables := [] |}, Ok tt).

Definition saveTableMeta : M Database unit :=
  db <- get;
  let meta := map (fun '(tableName, (s, root)) =>
                     {| tm_name := tableName; tm_columns := Some (columns s);
                        tm_pkColumn := pkColumn s; tm_rootPageId := root;
                        tm_seq := seq s |}) (tables db) in
  on_disk (VirtualDisk.setMetadata "tables" (MetaTables meta)).

(** [r[table.schema.pkColumn] as number]: the column of the primary key
    is an [INTEGER] and decodes to a number.  Where the row has none,
    the key is [undefined], which no comparison of the tree holds for:
    as for the key 4294967296, above every key of a page. *)
Definition pk_of (r : Row) (pkColumn : string) : Z :=
  match r !! pkColumn with
  | Some (VNum z) => z
  | _ => 4294967296
  end.

Section Execute.

Variable Number_toInt32 : string -> Z.
Variable String_of_number : Z -> string.
Variable String_isInteger : string -> bool.

(** [rows.forEach] of [DELETE] and of [UPDATE]. *)
Fixpoint for_each_row (tableName : string) (f : Z -> M Table unit)
    (rows : list Row) (count : nat) : M Database nat :=
  match rows with
  | [] => ret count
  | r :: rest =>
      _ <- on_table tableName
             (t <- get; f (pk_of r (pkColumn (schema t))));
      for_each_row tableName f rest (S count)
  end.

Definition execute (fuel : nat) (cmd : command) : M Database reply :=
  match cmd with
  | BEGIN =>
      _ <- on_disk VirtualDisk.beginTransaction;
      ret Started
  | COMMIT =>
      _ <- on_disk VirtualDisk.commit;
      ret Committed
  | ROLLBACK =>
      _ <- on_disk VirtualDisk.rollback;
      _ <- clear_tables;
      _ <- loadTables;
      ret RolledBack
  | CREATE_TABLE tableName cols =>
      db <- get;
      match map_get tableName (tables db) with
      | Some _ => throw (TableExists tableName)
      | None =>
          match List.find isPrimaryKey cols with
          | None => throw NoPrimaryKey
          | Some pkCol =>
              match col_type pkCol with
              | TEXT => throw PrimaryKeyNotInteger
              | INTEGER =>
                  rootPageId <- on_disk VirtualDisk.allocatePage;
                  _ <- on_disk (BTree.create rootPageId);
                  _ <- set_table tableName
                         {| name := tableName; columns := cols;
                            pkColumn := col_name pkCol; seq := None |}
                         rootPageId;
                  _ <- saveTableMeta;
                  ret Created
              end
          end
      end
  | INSERT tableName values colNames =>
      _ <- on_table tableName
             (Table.insert Number_toInt32 String_of_number String_isInteger
                fuel values colNames);
      _ <- saveTableMeta;
      ret Inserted
  | SELECT tableName whereFn =>
      results <- on_table tableName (Table.select fuel None);
      ret (Rows (List.filter whereFn results))
  | DELETE tableName whereFn =>
      rows <- on_table tableName (Table.select fuel (Some whereFn));
      count <- for_each_row tableName (Table.delete fuel) rows O;
      ret (Deleted count)
  | UPDATE tableName updates whereFn =>
      rows <- on_table tableName (Table.select fuel (Some whereFn));
      count <- for_each_row tableName
                 (fun pk => Table.update Number_toInt32 String_of_number
                              String_isInteger fuel pk updates) rows O;
      ret (Updated count)
  end.

(** A sequence of commands; one that throws leaves the state as its
    statements made it, and the next one is run. *)
Definition execute_all (fuel : nat) (cmds : list command) (db : Database)
    : Database :=
  fold_left (fun db cmd => fst (execute fuel cmd db)) cmds db.

(** What each command of a sequence returns or throws. *)
Fixpoint replies (fuel : nat) (cmds : list command) (db : Database)
    : list (result reply) :=
  match cmds with
  | [] => []
  | cmd :: rest =>
      let '(db', r) := execute fuel cmd db in
      r :: replies fuel rest db'
  end.

End Execute.

End Database.

(** ** A database for the worked examples

    One table, [t (id INTEGER PRIMARY KEY, v TEXT)], on an empty
    [localStorage], with the decimal platform. *)

Fixpoint text (n : nat) (c : ascii) : string :=
  match n with
  | O => EmptyString
  | S n' => String c (text n' c)
  end.

Definition example_columns : list ColumnDefinition :=
  [ {| col_name := "id"; col_type := INTEGER; isPrimaryKey := true |};
    {| col_name := "v"; col_type := TEXT; isPrimaryKey := false |} ].

Definition example_execute : command -> M Database reply :=
  Database.execute decimal_toInt32 decimal_String decimal_isInteger 3.

Definition example_run : list command -> Database -> Database :=
  Database.execute_all decimal_toInt32 decimal_String decimal_isInteger 3.

Definition example_replies : list command -> Database -> list (result reply) :=
  Database.replies decimal_toInt32 decimal_String decimal_isInteger 3.

Definition new_database : Database := fst (Database.create emptyStorage).


Definition all_rows : Row -> bool := fun _ => true.

Definition with_id (k : Z) : Row -> bool := fun r =>
  match r !! "id" with
  | Some (VNum z) => z =? k
  | _ => false
  end.


(** Two rows that fill the root, and an [UPDATE] that makes one of
    them longer: the root splits. *)
Definition split_setup : list command :=
  [ CREATE_TABLE "t" example_columns;
    INSERT "t" [VNum 1; VStr (text 2000 "a")] None;
    INSERT "t" [VNum 2; VStr (text 2000 "b")] None;
    UPDATE "t" [("v", VStr (text 2100 "c"))] (with_id 1) ].



(** A table on the tree of [example_ops]. *)
Definition example_ops_table : Table :=
  {| table_name := "t";
     schema := {| name := "t"; columns := example_columns; pkColumn := "id";
                  seq := Some 9 |};
     btree := run_all 3 example_ops fresh_tree |}.

(** [INSERT INTO t VALUES (-1, 'y')] on the new table. *)
Definition negative_setup : list command :=
  [ CREATE_TABLE "t" example_columns;
    INSERT "t" [VNum (-1); VStr "y"] None ].

Definition example_row (id : Z) (v : string) : Row :=
  {[ "id" := VNum id; "v" := VStr v ]}.

(** The scenario of [src/lib/tests.ts], but for the join. *)
Definition users_columns : list ColumnDefinition :=
  [ {| col_name := "id"; col_type := INTEGER; isPrimaryKey := true |};
    {| col_name := "name"; col_type := TEXT; isPrimaryKey := false |};
    {| col_name := "age"; col_type := INTEGER; isPrimaryKey := false |} ].

Definition user (id : Z) (n : string) (age : Z) : Row :=
  {[ "id" := VNum id; "name" := VStr n; "age" := VNum age ]}.

Definition named (n : string) : Row -> bool := fun r =>
  match r !! "name" with
  | Some (VStr s) => String.eqb s n
  | _ => false
  end.

Definition older_than (k : Z) : Row -> bool := fun r =>
  match r !! "age" with
  | Some (VNum z) => k <? z
  | _ => false
  end.

Definition tests_commands : list command :=
  [ CREATE_TABLE "users" users_columns;
    INSERT "users" [VNum 1; VStr "Alice"; VNum 30] None;
    INSERT "users" [VNum 2; VStr "Bob"; VNum 25] None;
    SELECT "users" all_rows;
    SELECT "users" (older_than 28);
    UPDATE "users" [("age", VNum 31)] (with_id 1);
    SELECT "users" (with_id 1);
    DELETE "users" (with_id 2);
    SELECT "users" all_rows;
    INSERT "users" [VStr "Charlie"; VNum 20] (Some ["name"; "age"]);
    SELECT "users" (named "Charlie");
    BEGIN;
    INSERT "users" [VNum 4; VStr "Dave"; VNum 40] None;
    ROLLBACK;
    SELECT "users" (named "Dave");
    BEGIN;
    INSERT "users" [VNum 5; VStr "Eve"; VNum 50] None;
    COMMIT;
    SELECT "users" (named "Eve") ].
(** * Properties *)

(** ** Byte buffers *)

Section BytesFacts.

Lemma byteLength_app (a b : bytes) : byteLength (a ++ b) = byteLength a + byteLength b.
Proof. unfold byteLength. rewrite length_app. lia. Qed.

Lemma byteLength_nonneg (a : bytes) : 0 <= byteLength a.
Proof. unfold byteLength. lia. Qed.

Lemma at_app_r (pre x : bytes) (i : Z) :
  0 <= i -> at_ (pre ++ x) (byteLength pre + i) = at_ x i.
Proof.
  intros Hi. unfold at_, byteLength.
  replace (Z.to_nat (Z.of_nat (length pre) + i)) with (length pre + Z.to_nat i)%nat by lia.
  apply app_nth2_plus.
Qed.

Lemma at_app_r0 (pre x : bytes) : at_ (pre ++ x) (byteLength pre) = at_ x 0.
Proof. rewrite <- (Z.add_0_r (byteLength pre)) at 1. apply at_app_r. lia. Qed.

Lemma be32_value (v : Z) :
  (v / 16777216) mod 256 * 16777216 + (v / 65536) mod 256 * 65536
  + (v / 256) mod 256 * 256 + v mod 256 = v mod 4294967296.
Proof. Z.div_mod_to_equations. lia. Qed.

Lemma be16_value (v : Z) :
  (v / 256) mod 256 * 256 + v mod 256 = v mod 65536.
Proof. Z.div_mod_to_equations. lia. Qed.

Lemma in_bounds_app (pre x post : bytes) (n : Z) :
  n <= byteLength x -> in_bounds (pre ++ x ++ post) (byteLength pre) n = true.
Proof.
  intros Hn. unfold in_bounds. rewrite !byteLength_app.
  pose proof (byteLength_nonneg pre). pose proof (byteLength_nonneg post).
  apply andb_true_intro. split; apply Z.leb_le; lia.
Qed.

Lemma getUint16_app (pre post : bytes) (v : Z) :
  getUint16 (pre ++ be16 v ++ post) (byteLength pre) = Ok (v mod 65536).
Proof.
  unfold getUint16. rewrite in_bounds_app by (unfold byteLength; simpl length; lia).
  rewrite at_app_r0, at_app_r by lia. cbn. f_equal. apply be16_value.
Qed.

Lemma getUint32_app (pre post : bytes) (v : Z) :
  getUint32 (pre ++ be32 v ++ post) (byteLength pre) = Ok (v mod 4294967296).
Proof.
  unfold getUint32. rewrite in_bounds_app by (unfold byteLength; simpl length; lia).
  rewrite at_app_r0, !at_app_r by lia. cbn. f_equal. apply be32_value.
Qed.


Lemma slice_app (pre x post : bytes) :
  slice (pre ++ x ++ post) (byteLength pre) (byteLength pre + byteLength x) = x.
Proof.
  unfold slice, byteLength. rewrite Nat2Z.id.
  replace (Z.to_nat _) with (length x) by lia.
  now rewrite drop_app_length, take_app_length.
Qed.

Lemma overlay_app (pre old post src : bytes) :
  length old = length src ->
  overlay (pre ++ old ++ post) (byteLength pre) src = pre ++ src ++ post.
Proof.
  intros Hlen. unfold overlay, byteLength. rewrite Nat2Z.id.
  rewrite take_app_length, <- drop_drop, drop_app_length, <- Hlen.
  now rewrite drop_app_length.
Qed.

Lemma setUint16_fresh (v : Z) : setUint16 (zeros 2) 0 v = Ok (be16 v).
Proof. reflexivity. Qed.

Lemma setInt32_fresh (v : Z) : setInt32 (zeros 4) 0 v = Ok (be32 v).
Proof. reflexivity. Qed.

Lemma getUint16_at (data pre post : bytes) (v off : Z) :
  data = pre ++ be16 v ++ post -> off = byteLength pre ->
  getUint16 data off = Ok (v mod 65536).
Proof. intros -> ->. apply getUint16_app. Qed.

Lemma getUint32_at (data pre post : bytes) (v off : Z) :
  data = pre ++ be32 v ++ post -> off = byteLength pre ->
  getUint32 data off = Ok (v mod 4294967296).
Proof. intros -> ->. apply getUint32_app. Qed.


Lemma slice_at (data pre x post : bytes) (from to : Z) :
  data = pre ++ x ++ post -> from = byteLength pre ->
  to = from + byteLength x ->
  slice data from to = x.
Proof. intros -> -> ->. apply slice_app. Qed.

Lemma zeros_split (n m : Z) :
  0 <= n -> 0 <= m -> zeros (n + m) = zeros n ++ zeros m.
Proof.
  intros Hn Hm. unfold zeros. rewrite Z2Nat.inj_add by lia. apply repeat_app.
Qed.

Lemma byteLength_zeros (n : Z) : 0 <= n -> byteLength (zeros n) = n.
Proof. intros Hn. unfold byteLength, zeros. rewrite repeat_length. lia. Qed.

(** Writing [src] at the end of what is written so far, into the
    zeros that follow it. *)
Lemma set_zeros (pre src : bytes) (n : Z) :
  byteLength src <= n ->
  Bytes.set (pre ++ zeros n) src (byteLength pre)
  = Ok ((pre ++ src) ++ zeros (n - byteLength src)).
Proof.
  intros Hn. pose proof (byteLength_nonneg src) as Hs.
  replace n with (byteLength src + (n - byteLength src)) at 1 by lia.
  rewrite zeros_split by lia. unfold Bytes.set.
  rewrite in_bounds_app by (rewrite byteLength_zeros; lia).
  rewrite overlay_app.
  - now rewrite <- app_assoc.
  - unfold zeros, byteLength. rewrite repeat_length. lia.
Qed.

End BytesFacts.

(** ** Row codec *)

Definition has_nul (s : string) : bool :=
  existsb is_nul (list_ascii_of_string s).







Section RowCodecFacts.

Variable Number_toInt32 : string -> Z.
Variable String_of_number : Z -> string.

Local Abbreviation serialize := (serializeRow Number_toInt32 String_of_number).
Local Abbreviation parts_of := (serialize_parts Number_toInt32 String_of_number).
Local Abbreviation bytes_of := (column_bytes Number_toInt32 String_of_number).




Lemma set_parts_zeros (parts : list bytes) : forall (pre : bytes) (n : Z),
  byteLength (concat parts) <= n ->
  set_parts (pre ++ zeros n) parts (byteLength pre)
  = Ok (pre ++ concat parts ++ zeros (n - byteLength (concat parts))).
Proof.
  induction parts as [|p parts IH]; intros pre n Hn; cbn [set_parts concat] in *.
  - change (byteLength []) with 0. now rewrite Z.sub_0_r.
  - rewrite byteLength_app in Hn.
    pose proof (byteLength_nonneg (concat parts)).
    rewrite set_zeros by lia. cbn.
    rewrite <- byteLength_app, IH by lia.
    rewrite byteLength_app, <- !app_assoc, Z.sub_add_distr. reflexivity.
Qed.



End RowCodecFacts.









Lemma has_nul_remove_nul (s : string) : has_nul (remove_nul s) = false.
Proof.
  unfold has_nul. induction s as [|c s IH]; cbn; [reflexivity|].
  destruct (is_nul c) eqn:Hc; cbn; [exact IH|]. now rewrite Hc.
Qed.

Definition texts_nul_free (row : Row) : Prop :=
  forall k s, row !! k = Some (VStr s) -> has_nul s = false.

Lemma deserialize_columns_nul_free (cols : list ColumnDefinition) (data : bytes) :
  forall (acc : Row) (offset : Z) (row : Row),
  texts_nul_free acc ->
  deserialize_columns cols data acc offset = Ok row ->
  texts_nul_free row.
Proof.
  induction cols as [|col cols IH]; intros acc offset row Hacc;
    cbn [deserialize_columns].
  - now intros [= <-].
  - destruct (byteLength data <? offset + 2); [now apply IH|].
    destruct (getUint16 data offset) as [len|]; cbn [rbind]; [|discriminate].
    destruct (byteLength data <? offset + 2 + len); [now apply IH|].
    destruct (col_type col).
    + destruct (getInt32 data (offset + 2)) as [val|]; cbn [rbind];
        [|discriminate].
      apply IH. intros k s. destruct (decide (col_name col = k)) as [<-|Hne].
      * rewrite lookup_insert_eq. discriminate.
      * rewrite lookup_insert_ne by exact Hne. apply Hacc.
    + apply IH. intros k s. destruct (decide (col_name col = k)) as [<-|Hne].
      * rewrite lookup_insert_eq. intros [= <-]. apply has_nul_remove_nul.
      * rewrite lookup_insert_ne by exact Hne. apply Hacc.
Qed.

(** ** The claims on the row codec *)

Definition text_column (n : string) : ColumnDefinition :=
  {| col_name := n; col_type := TEXT; isPrimaryKey := false |}.
Definition integer_column (n : string) : ColumnDefinition :=
  {| col_name := n; col_type := INTEGER; isPrimaryKey := false |}.




(** C8: the second guard of [deserializeRow] leaves its callback after
    the offset has moved past the length, and the loop goes on: with
    columns [a] and [b] and the buffer [00 05 00 01 41] the value of
    [a] is announced with 5 bytes where 3 remain, yet [b] is decoded,
    from the bytes of [a]. *)
Theorem C8_deserializeRow_goes_on_after_short_column :
  deserializeRow [text_column "a"; text_column "b"] [0; 5; 0; 1; 65]
  = Ok {[ "b" := VStr "A" ]}.
Proof. vm_compute. reflexivity. Qed.

(** An INTEGER column announced with fewer than 4 bytes at the end of
    the buffer makes the decoder throw instead of returning a row. *)
Lemma deserializeRow_short_integer_throws :
  deserializeRow [integer_column "i"] [0; 0] = Err RangeError.
Proof. reflexivity. Qed.

(** C10: every text that [deserializeRow] puts in a row is free of NUL
    characters, whatever the buffer and the schema. *)
Theorem C10_deserializeRow_text_has_no_nul
    (cols : list ColumnDefinition) (data : bytes) (row : Row)
    (k : string) (s : string) :
  deserializeRow cols data = Ok row ->
  row !! k = Some (VStr s) ->
  has_nul s = false.
Proof.
  unfold deserializeRow. destruct (byteLength data =? 0).
  - intros [= <-]. rewrite lookup_empty. discriminate.
  - intros Hrow. revert k s.
    apply (deserialize_columns_nul_free cols data ∅ 0 row); [|exact Hrow].
    intros k s. rewrite lookup_empty. discriminate.
Qed.

Lemma C10_no_nul_example :
  deserializeRow [text_column "a"] [0; 3; 65; 0; 66] = Ok {[ "a" := VStr "AB" ]}
  /\ ({[ "a" := VStr "AB" ]} : Row) !! "a" = Some (VStr "AB")
  /\ has_nul "AB" = false.
Proof.
  assert (H1 : deserializeRow [text_column "a"] [0; 3; 65; 0; 66]
               = Ok {[ "a" := VStr "AB" ]}) by (vm_compute; reflexivity).
  assert (H2 : ({[ "a" := VStr "AB" ]} : Row) !! "a" = Some (VStr "AB"))
    by reflexivity.
  split; [exact H1|split; [exact H2|]].
  exact (C10_deserializeRow_text_has_no_nul _ _ _ _ _ H1 H2).
Defined.

(** ** The virtual disk as the B-tree sees it *)

(** The page that [readPage] returns. *)
Definition page_of (d : VirtualDisk) (pageId : Z) : bytes :=
  match transactionBuffer d ≫= (.!! pageId) with
  | Some p => p
  | None =>
      match pages d !! pageId with
      | Some p => p
      | None =>
          match ls_pages (localStorage d) !! pageId with
          | Some (b :: bs) => b :: bs
          | _ => zeros PAGE_SIZE
          end
      end
  end.

(** [d'] is [d] after reads only: nothing differs but pages that the
    cache has taken from the items. *)
Definition only_read (d d' : VirtualDisk) : Prop :=
  maxPageId d' = maxPageId d
  /\ transactionBuffer d' = transactionBuffer d
  /\ metaBuffer d' = metaBuffer d
  /\ localStorage d' = localStorage d
  /\ forall id,
       pages d' !! id = pages d !! id
       \/ (pages d !! id = None
           /\ exists b bs, ls_pages (localStorage d) !! id = Some (b :: bs)
                           /\ pages d' !! id = Some (b :: bs)).

Lemma only_read_refl (d : VirtualDisk) : only_read d d.
Proof. repeat split. intros id. now left. Qed.

Lemma only_read_trans (d1 d2 d3 : VirtualDisk) :
  only_read d1 d2 -> only_read d2 d3 -> only_read d1 d3.
Proof.
  intros (Hm1 & Ht1 & Hb1 & Hl1 & Hp1) (Hm2 & Ht2 & Hb2 & Hl2 & Hp2).
  repeat split; try congruence.
  intros id. destruct (Hp2 id) as [E2|(N2 & b & bs & L2 & E2)].
  - destruct (Hp1 id) as [E1|(N1 & b1 & bs1 & L1 & E1)].
    + left. now rewrite E2.
    + right. split; [exact N1|]. exists b1, bs1. split; [exact L1|].
      now rewrite E2.
  - destruct (Hp1 id) as [E1|(N1 & b1 & bs1 & L1 & E1)].
    + right. rewrite <- E1, <- Hl1. split; [exact N2|]. now exists b, bs.
    + rewrite E1 in N2. discriminate.
Qed.

Lemma only_read_page_of (d d' : VirtualDisk) (id : Z) :
  only_read d d' -> page_of d' id = page_of d id.
Proof.
  intros (Hm & Ht & Hb & Hl & Hp). unfold page_of. rewrite Ht, Hl.
  destruct (transactionBuffer d ≫= (.!! id)); [reflexivity|].
  destruct (Hp id) as [E|(N & b & bs & L & E)].
  - now rewrite E.
  - now rewrite E, N, L.
Qed.

Lemma readPage_spec (id : Z) (d : VirtualDisk) :
  exists d', VirtualDisk.readPage id d = (d', Ok (page_of d id))
             /\ only_read d d'.
Proof.
  unfold page_of, VirtualDisk.readPage.
  destruct (transactionBuffer d ≫= (.!! id)) as [p|];
    [exists d; split; [reflexivity|apply only_read_refl]|].
  destruct (pages d !! id) as [p|] eqn:Hc;
    [exists d; split; [reflexivity|apply only_read_refl]|].
  destruct (ls_pages (localStorage d) !! id) as [[|b bs]|] eqn:Hs;
    try (exists d; split; [reflexivity|apply only_read_refl]).
  eexists. split; [reflexivity|]. repeat split. intros id'. cbn.
  destruct (decide (id = id')) as [<-|Hne].
  - right. split; [exact Hc|]. exists b, bs. now rewrite lookup_insert_eq.
  - left. now rewrite lookup_insert_ne.
Qed.

(** A write: the page is what was written, the others are as before,
    the counter does not go down. *)
Definition wrote (pageId : Z) (data : bytes) (d d' : VirtualDisk) : Prop :=
  page_of d' pageId = data
  /\ (forall id, id <> pageId -> page_of d' id = page_of d id)
  /\ maxPageId d <= maxPageId d'
  /\ (maxPageId d' = maxPageId d \/ maxPageId d' = pageId)
  /\ (transactionBuffer d = None <-> transactionBuffer d' = None)
  /\ metaBuffer d' = metaBuffer d
  /\ ls_metadata (localStorage d') = ls_metadata (localStorage d).

Lemma writePage_spec (id : Z) (data : bytes) (d : VirtualDisk) :
  exists d', VirtualDisk.writePage id data d = (d', Ok tt) /\ wrote id data d d'.
Proof.
  unfold VirtualDisk.writePage.
  destruct (transactionBuffer d) as [buf|] eqn:Ht.
  - eexists. split; [reflexivity|]. unfold wrote, page_of. cbn. rewrite Ht. cbn.
    rewrite lookup_insert_eq. repeat split; try lia; try tauto; try discriminate.
    intros id' Hne. now rewrite lookup_insert_ne by congruence.
  - eexists. split; [reflexivity|]. unfold VirtualDisk.writeToDisk, wrote, page_of.
    cbn. destruct (Z.ltb_spec (maxPageId d) id); cbn; rewrite Ht; cbn;
      rewrite lookup_insert_eq; repeat split; try lia; try tauto;
      intros id' Hne; now rewrite !lookup_insert_ne by congruence.
Qed.

Lemma allocatePage_spec (d : VirtualDisk) :
  exists d', VirtualDisk.allocatePage d = (d', Ok (maxPageId d + 1))
             /\ maxPageId d' = maxPageId d + 1
             /\ (forall id, page_of d' id = page_of d id)
             /\ (transactionBuffer d = None <-> transactionBuffer d' = None)
             /\ metaBuffer d' = metaBuffer d
             /\ ls_metadata (localStorage d') = ls_metadata (localStorage d).
Proof.
  unfold VirtualDisk.allocatePage. cbn.
  destruct (transactionBuffer d) eqn:Ht; eexists; (split; [reflexivity|]);
    unfold page_of; cbn; rewrite ?Ht; repeat split; try tauto; try congruence.
Qed.

(** The value that [getMetadata] returns. *)
Definition metadata_of (d : VirtualDisk) (key : string) : option MetaValue :=
  match metaBuffer d ≫= (.!! key) with
  | Some v => Some v
  | None => ls_metadata (localStorage d) !! key
  end.

Lemma getMetadata_spec (key : string) (d : VirtualDisk) :
  VirtualDisk.getMetadata key d = (d, Ok (metadata_of d key)).
Proof.
  unfold VirtualDisk.getMetadata, metadata_of.
  now destruct (metaBuffer d ≫= (.!! key)).
Qed.

Lemma setMetadata_spec (key : string) (v : MetaValue) (d : VirtualDisk) :
  exists d', VirtualDisk.setMetadata key v d = (d', Ok tt)
             /\ metadata_of d' key = Some v
             /\ (forall k, k <> key -> metadata_of d' k = metadata_of d k)
             /\ maxPageId d' = maxPageId d
             /\ transactionBuffer d' = transactionBuffer d
             /\ (forall id, page_of d' id = page_of d id).
Proof.
  unfold VirtualDisk.setMetadata, metadata_of.
  destruct (metaBuffer d) as [buf|] eqn:Hb; eexists; (split; [reflexivity|]);
    cbn; repeat split.
  - now rewrite lookup_insert_eq.
  - intros k Hne. now rewrite lookup_insert_ne by congruence.
  - rewrite Hb. cbn. now rewrite lookup_insert_eq.
  - intros k Hne. rewrite Hb. cbn. now rewrite lookup_insert_ne by congruence.
Qed.

(** ** Pages as the B-tree lays them out *)

Definition key_ok (k : Z) : Prop := 0 <= k < 4294967296.

Definition cell_ok (c : cell) : Prop :=
  key_ok (fst c) /\ byteLength (snd c) < 4294967296.

Definition cell_bytes (c : cell) : bytes :=
  be32 (fst c) ++ be32 (byteLength (snd c)) ++ snd c.

Definition cells_bytes (cs : list cell) : bytes := concat (map cell_bytes cs).

Definition item_bytes (it : item) : bytes := be32 (fst it) ++ be32 (snd it).

Definition items_bytes (its : list item) : bytes := concat (map item_bytes its).

Ltac consts :=
  unfold PAGE_SIZE, HEADER_SIZE, OFF_TYPE, OFF_NUM_CELLS, OFF_PARENT,
    NODE_LEAF, NODE_INTERNAL in *.

Ltac blia :=
  unfold byteLength in *; rewrite ?length_app in *;
  cbn [length be32 be16] in *; lia.

Lemma byteLength_be32 (v : Z) : byteLength (be32 v) = 4.
Proof. reflexivity. Qed.

Lemma byteLength_be16 (v : Z) : byteLength (be16 v) = 2.
Proof. reflexivity. Qed.

Lemma byteLength_cell_bytes (c : cell) :
  byteLength (cell_bytes c) = 8 + byteLength (snd c).
Proof. unfold cell_bytes. blia. Qed.

Lemma byteLength_cells_bytes_cons (c : cell) (cs : list cell) :
  byteLength (cells_bytes (c :: cs))
  = 8 + byteLength (snd c) + byteLength (cells_bytes cs).
Proof.
  unfold cells_bytes. cbn [map concat].
  rewrite byteLength_app, byteLength_cell_bytes. lia.
Qed.

Lemma cells_bytes_cons (c : cell) (cs : list cell) :
  cells_bytes (c :: cs) = cell_bytes c ++ cells_bytes cs.
Proof. reflexivity. Qed.

Lemma cells_bytes_app (a b : list cell) :
  cells_bytes (a ++ b) = cells_bytes a ++ cells_bytes b.
Proof. unfold cells_bytes. now rewrite map_app, concat_app. Qed.

Lemma byteLength_cells_bytes_ge (cs : list cell) :
  8 * Z.of_nat (length cs) <= byteLength (cells_bytes cs).
Proof.
  induction cs as [|c cs IH]; [vm_compute; discriminate|].
  rewrite byteLength_cells_bytes_cons. pose proof (byteLength_nonneg (snd c)).
  cbn [length]. lia.
Qed.

Lemma byteLength_items_bytes (its : list item) :
  byteLength (items_bytes its) = 8 * Z.of_nat (length its).
Proof.
  induction its as [|it its IH]; [reflexivity|].
  unfold items_bytes in *. cbn [map concat]. rewrite byteLength_app, IH.
  unfold item_bytes. cbn [length]. blia.
Qed.

(** *** Writing into the zeros that follow what is written *)

Lemma in_bounds_zeros (pre : bytes) (n m : Z) :
  0 <= n -> in_bounds (pre ++ zeros n) (byteLength pre) m = (m <=? n).
Proof.
  intros Hn. unfold in_bounds.
  rewrite byteLength_app, byteLength_zeros by lia.
  pose proof (byteLength_nonneg pre).
  destruct (Z.leb_spec m n), (Z.leb_spec 0 (byteLength pre)),
    (Z.leb_spec (byteLength pre + m) (byteLength pre + n));
    try reflexivity; lia.
Qed.

Lemma overlay_zeros (pre src : bytes) (n : Z) :
  byteLength src <= n ->
  overlay (pre ++ zeros n) (byteLength pre) src
  = (pre ++ src) ++ zeros (n - byteLength src).
Proof.
  intros Hn. pose proof (byteLength_nonneg src).
  replace n with (byteLength src + (n - byteLength src)) at 1 by lia.
  rewrite zeros_split by lia. rewrite overlay_app.
  - now rewrite <- app_assoc.
  - unfold zeros, byteLength. rewrite repeat_length. lia.
Qed.

Lemma set_zeros_total (pre src : bytes) (n : Z) :
  0 <= n ->
  Bytes.set (pre ++ zeros n) src (byteLength pre)
  = if byteLength src <=? n
    then Ok ((pre ++ src) ++ zeros (n - byteLength src))
    else Err RangeError.
Proof.
  intros Hn. unfold Bytes.set. rewrite in_bounds_zeros by lia.
  destruct (Z.leb_spec (byteLength src) n); [|reflexivity].
  now rewrite overlay_zeros.
Qed.

Lemma setUint32_zeros (pre : bytes) (n v : Z) :
  0 <= n ->
  setUint32 (pre ++ zeros n) (byteLength pre) v
  = if 4 <=? n then Ok ((pre ++ be32 v) ++ zeros (n - 4)) else Err RangeError.
Proof.
  intros Hn. unfold setUint32. rewrite in_bounds_zeros by lia.
  destruct (Z.leb_spec 4 n); [|reflexivity].
  now rewrite overlay_zeros by (rewrite byteLength_be32; lia).
Qed.

Lemma setUint32_zeros_at (page pre : bytes) (n v off : Z) :
  page = pre ++ zeros n -> off = byteLength pre -> 0 <= n ->
  setUint32 page off v
  = if 4 <=? n then Ok ((pre ++ be32 v) ++ zeros (n - 4)) else Err RangeError.
Proof. intros -> ->. apply setUint32_zeros. Qed.

Lemma set_zeros_at (page pre src : bytes) (n off : Z) :
  page = pre ++ zeros n -> off = byteLength pre -> 0 <= n ->
  Bytes.set page src off
  = if byteLength src <=? n
    then Ok ((pre ++ src) ++ zeros (n - byteLength src))
    else Err RangeError.
Proof. intros -> ->. apply set_zeros_total. Qed.

(** One cell written after [pre], and what goes on with the page. *)
Lemma write_cell_zeros {B} (K : bytes -> result B) (pre : bytes) (n k : Z)
    (v : bytes) :
  0 <= n ->
  (' p1 <~ setUint32 (pre ++ zeros n) (byteLength pre) k;
   ' p2 <~ setUint32 p1 (byteLength pre + 4) (byteLength v);
   ' p3 <~ Bytes.set p2 v (byteLength pre + 4 + 4);
   K p3)
  = if 8 + byteLength v <=? n
    then K ((pre ++ cell_bytes (k, v)) ++ zeros (n - (8 + byteLength v)))
    else Err RangeError.
Proof.
  intros Hn. pose proof (byteLength_nonneg v) as Hv.
  rewrite setUint32_zeros by lia.
  destruct (Z.leb_spec 4 n); cbn [rbind];
    [|destruct (Z.leb_spec (8 + byteLength v) n); [lia|reflexivity]].
  rewrite (setUint32_zeros_at _ (pre ++ be32 k) (n - 4)) by (reflexivity || blia).
  destruct (Z.leb_spec 4 (n - 4)); cbn [rbind];
    [|destruct (Z.leb_spec (8 + byteLength v) n); [lia|reflexivity]].
  rewrite (set_zeros_at _ ((pre ++ be32 k) ++ be32 (byteLength v)) v (n - 4 - 4))
    by (reflexivity || blia).
  destruct (Z.leb_spec (byteLength v) (n - 4 - 4)),
    (Z.leb_spec (8 + byteLength v) n); try lia; [|reflexivity].
  cbn [rbind]. unfold cell_bytes. cbn [fst snd]. rewrite <- !app_assoc.
  now replace (n - 4 - 4 - byteLength v) with (n - (8 + byteLength v)) by lia.
Qed.

Lemma write_cells_zeros (cs : list cell) : forall (pre : bytes) (n : Z),
  0 <= n ->
  BTree.write_cells (pre ++ zeros n) cs (byteLength pre)
  = if byteLength (cells_bytes cs) <=? n
    then Ok (pre ++ cells_bytes cs ++ zeros (n - byteLength (cells_bytes cs)))
    else Err RangeError.
Proof.
  induction cs as [|[k v] cs IH]; intros pre n Hn; cbn [BTree.write_cells].
  - change (byteLength (cells_bytes [])) with 0.
    destruct (Z.leb_spec 0 n); [|lia]. now rewrite Z.sub_0_r.
  - pose proof (byteLength_nonneg v) as Hv.
    pose proof (byteLength_nonneg (cells_bytes cs)) as Hcs.
    rewrite (write_cell_zeros
               (fun p => BTree.write_cells p cs
                           (byteLength pre + 4 + 4 + byteLength v))) by lia.
    rewrite byteLength_cells_bytes_cons. cbn [snd].
    destruct (Z.leb_spec (8 + byteLength v) n).
    2:{ destruct (Z.leb_spec (8 + byteLength v + byteLength (cells_bytes cs)) n);
          [lia|reflexivity]. }
    replace (byteLength pre + 4 + 4 + byteLength v)
      with (byteLength (pre ++ cell_bytes (k, v)))
      by (rewrite byteLength_app, byteLength_cell_bytes; cbn [snd]; lia).
    rewrite IH by lia.
    destruct (Z.leb_spec (byteLength (cells_bytes cs)) (n - (8 + byteLength v))),
      (Z.leb_spec (8 + byteLength v + byteLength (cells_bytes cs)) n);
      try lia; [|reflexivity].
    unfold cells_bytes at 3. cbn [map concat]. fold (cells_bytes cs).
    rewrite <- !app_assoc.
    now replace (n - (8 + byteLength v) - byteLength (cells_bytes cs))
      with (n - (8 + byteLength v + byteLength (cells_bytes cs))) by lia.
Qed.

Lemma write_cells_zeros_at (cs : list cell) (page pre : bytes) (n off : Z) :
  page = pre ++ zeros n -> off = byteLength pre -> 0 <= n ->
  BTree.write_cells page cs off
  = if byteLength (cells_bytes cs) <=? n
    then Ok (pre ++ cells_bytes cs ++ zeros (n - byteLength (cells_bytes cs)))
    else Err RangeError.
Proof. intros -> ->. apply write_cells_zeros. Qed.

(** *** Reading the cells of a leaf *)

Lemma cell_read (c : cell) (page pre rest : bytes) (off : Z) :
  cell_ok c -> page = pre ++ cell_bytes c ++ rest -> off = byteLength pre ->
  getUint32 page off = Ok (fst c)
  /\ getUint32 page (off + 4) = Ok (byteLength (snd c))
  /\ slice page (off + 4 + 4) (off + 4 + 4 + byteLength (snd c)) = snd c.
Proof.
  intros [[Hk1 Hk2] Hs] -> ->. pose proof (byteLength_nonneg (snd c)).
  unfold cell_bytes. repeat split.
  - rewrite (getUint32_at _ pre (be32 (byteLength (snd c)) ++ snd c ++ rest)
               (fst c) _) by (now rewrite <- ?app_assoc).
    now rewrite Z.mod_small by lia.
  - rewrite (getUint32_at _ (pre ++ be32 (fst c)) (snd c ++ rest)
               (byteLength (snd c)) _)
      by (rewrite <- ?app_assoc; reflexivity || blia).
    now rewrite Z.mod_small by lia.
  - apply (slice_at _ ((pre ++ be32 (fst c)) ++ be32 (byteLength (snd c)))
             (snd c) rest); [now rewrite <- !app_assoc| blia | lia].
Qed.

Lemma next_cell_offset (c : cell) (pre : bytes) :
  byteLength pre + 4 + 4 + byteLength (snd c)
  = byteLength (pre ++ cell_bytes c).
Proof. rewrite byteLength_app, byteLength_cell_bytes. lia. Qed.

Lemma cells_bytes_cons_app (c : cell) (cs : list cell) (pre post : bytes) :
  pre ++ cells_bytes (c :: cs) ++ post
  = (pre ++ cell_bytes c) ++ cells_bytes cs ++ post.
Proof. unfold cells_bytes. cbn [map concat]. now rewrite <- !app_assoc. Qed.

Lemma cells_bytes_cons_app' (c : cell) (cs : list cell) (pre post : bytes) :
  pre ++ cells_bytes (c :: cs) ++ post
  = pre ++ cell_bytes c ++ (cells_bytes cs ++ post).
Proof. unfold cells_bytes. cbn [map concat]. now rewrite <- !app_assoc. Qed.

Lemma read_cells_spec (cs : list cell) : forall (page pre post : bytes),
  Forall cell_ok cs -> page = pre ++ cells_bytes cs ++ post ->
  BTree.read_cells page (length cs) (byteLength pre) = Ok cs.
Proof.
  induction cs as [|c cs IH]; intros page pre post Hok Hpage;
    cbn [BTree.read_cells length]; [reflexivity|].
  inversion Hok as [|? ? Hc Hcs]; subst.
  destruct (cell_read c _ pre (cells_bytes cs ++ post) _ Hc
              (cells_bytes_cons_app' c cs pre post) eq_refl) as (E1 & E2 & E3).
  rewrite E1. cbn [rbind]. rewrite E2. cbn [rbind]. cbv zeta. rewrite E3.
  rewrite next_cell_offset.
  rewrite (IH _ (pre ++ cell_bytes c) post Hcs (cells_bytes_cons_app _ _ _ _)).
  cbn [rbind]. now destruct c.
Qed.

(** The first cell with the key, as [findInLeaf] looks for it. *)
Fixpoint lookup_cell (key : Z) (cs : list cell) : option bytes :=
  match cs with
  | [] => None
  | c :: cs' => if fst c =? key then Some (snd c) else lookup_cell key cs'
  end.

Lemma find_loop_spec (key : Z) (cs : list cell) : forall (page pre post : bytes),
  Forall cell_ok cs -> page = pre ++ cells_bytes cs ++ post ->
  BTree.find_loop page key (length cs) (byteLength pre)
  = Ok (lookup_cell key cs).
Proof.
  induction cs as [|c cs IH]; intros page pre post Hok Hpage;
    cbn [BTree.find_loop length lookup_cell]; [reflexivity|].
  inversion Hok as [|? ? Hc Hcs]; subst.
  destruct (cell_read c _ pre (cells_bytes cs ++ post) _ Hc
              (cells_bytes_cons_app' c cs pre post) eq_refl) as (E1 & E2 & E3).
  rewrite E1. cbn [rbind]. rewrite E2. cbn [rbind]. rewrite E3.
  destruct (fst c =? key); [reflexivity|].
  rewrite next_cell_offset.
  apply (IH _ (pre ++ cell_bytes c) post Hcs (cells_bytes_cons_app _ _ _ _)).
Qed.

(** The last key of a leaf, as [findMaxInPage] reads it. *)
Definition last_key (cs : list cell) (d : Z) : Z := List.last (map fst cs) d.

Lemma last_cons_default (l : list Z) : forall (x d d' : Z),
  List.last (x :: l) d = List.last (x :: l) d'.
Proof. induction l as [|y l IH]; intros x d d'; [reflexivity|]. apply (IH y). Qed.

Lemma last_key_loop_spec (cs : list cell) :
  forall (page pre post : bytes) (maxK : Z),
  Forall cell_ok cs -> page = pre ++ cells_bytes cs ++ post ->
  BTree.last_key_loop page (length cs) (byteLength pre) maxK
  = Ok (last_key cs maxK).
Proof.
  induction cs as [|c cs IH]; intros page pre post maxK Hok Hpage;
    cbn [BTree.last_key_loop length]; [reflexivity|].
  inversion Hok as [|? ? Hc Hcs]; subst.
  destruct (cell_read c _ pre (cells_bytes cs ++ post) _ Hc
              (cells_bytes_cons_app' c cs pre post) eq_refl) as (E1 & E2 & _).
  rewrite E1. cbn [rbind]. rewrite E2. cbn [rbind].
  replace (byteLength pre + 4 + (4 + byteLength (snd c)))
    with (byteLength (pre ++ cell_bytes c))
    by (rewrite <- next_cell_offset; lia).
  rewrite (IH _ (pre ++ cell_bytes c) post (fst c) Hcs
             (cells_bytes_cons_app _ _ _ _)).
  f_equal. unfold last_key. cbn [map]. destruct cs as [|p cs]; [reflexivity|].
  cbn [map].
  transitivity (List.last (fst p :: map fst cs) maxK);
    [apply last_cons_default|reflexivity].
Qed.

(** The first loop of [insertIntoLeaf]. *)
Fixpoint scan_index (key : Z) (cs : list cell) (i insertIndex : Z) (found : bool)
    : Z :=
  match cs with
  | [] => insertIndex
  | c :: cs' =>
      if negb found && (key <? fst c)
      then scan_index key cs' (i + 1) i true
      else scan_index key cs' (i + 1) insertIndex found
  end.

Definition has_key (key : Z) (cs : list cell) : bool :=
  existsb (fun c => fst c =? key) cs.

Lemma scan_loop_spec (key : Z) (cs : list cell) :
  forall (page pre post : bytes) (i insertIndex : Z) (found : bool),
  Forall cell_ok cs -> page = pre ++ cells_bytes cs ++ post ->
  BTree.scan_loop page key (length cs) i (byteLength pre) insertIndex found
  = if has_key key cs then Err (DuplicateKey key)
    else Ok (scan_index key cs i insertIndex found,
             byteLength pre + byteLength (cells_bytes cs)).
Proof.
  induction cs as [|c cs IH]; intros page pre post i insertIndex found Hok Hpage;
    cbn [BTree.scan_loop length has_key existsb scan_index].
  - change (byteLength (cells_bytes [])) with 0. now rewrite Z.add_0_r.
  - inversion Hok as [|? ? Hc Hcs]; subst.
    destruct (cell_read c _ pre (cells_bytes cs ++ post) _ Hc
                (cells_bytes_cons_app' c cs pre post) eq_refl) as (E1 & E2 & _).
    rewrite E1. cbn [rbind]. destruct (fst c =? key); [reflexivity|]. cbn [orb].
    fold (has_key key cs). rewrite E2.
    destruct (negb found && (key <? fst c)); cbn [rbind];
      replace (byteLength pre + 4 + (4 + byteLength (snd c)))
        with (byteLength (pre ++ cell_bytes c))
        by (rewrite <- next_cell_offset; lia);
      rewrite (IH _ (pre ++ cell_bytes c) post _ _ _ Hcs
                 (cells_bytes_cons_app _ _ _ _));
      rewrite byteLength_cells_bytes_cons, <- next_cell_offset;
      destruct (has_key key cs); try reflexivity; do 2 f_equal; lia.
Qed.

(** The copying loops of [insertIntoLeaf]. *)
Lemma copy_cells_spec (cs : list cell) :
  forall (page spre spost newPage dpre : bytes) (m : Z),
  Forall cell_ok cs -> page = spre ++ cells_bytes cs ++ spost ->
  newPage = dpre ++ zeros m -> 0 <= m ->
  BTree.copy_cells page newPage (length cs) (byteLength spre) (byteLength dpre)
  = if byteLength (cells_bytes cs) <=? m
    then Ok (dpre ++ cells_bytes cs ++ zeros (m - byteLength (cells_bytes cs)),
             byteLength spre + byteLength (cells_bytes cs),
             byteLength dpre + byteLength (cells_bytes cs))
    else Err RangeError.
Proof.
  induction cs as [|c cs IH]; intros page spre spost newPage dpre m Hok Hpage Hnew Hm;
    cbn [BTree.copy_cells length].
  - change (byteLength (cells_bytes [])) with 0.
    destruct (Z.leb_spec 0 m); [|lia]. subst newPage.
    now rewrite Z.sub_0_r, !Z.add_0_r.
  - inversion Hok as [|? ? Hc Hcs]; subst.
    pose proof (byteLength_nonneg (snd c)) as Hv.
    pose proof (byteLength_nonneg (cells_bytes cs)) as Hbs.
    destruct (cell_read c _ spre (cells_bytes cs ++ spost) _ Hc
                (cells_bytes_cons_app' c cs spre spost) eq_refl)
      as (E1 & E2 & E3).
    rewrite E1. cbn [rbind]. rewrite E2. cbn [rbind]. rewrite E3.
    rewrite (write_cell_zeros
               (fun p => BTree.copy_cells _ p (length cs)
                           (byteLength spre + 4 + 4 + byteLength (snd c))
                           (byteLength dpre + 4 + 4 + byteLength (snd c))))
      by lia.
    rewrite byteLength_cells_bytes_cons.
    destruct (Z.leb_spec (8 + byteLength (snd c)) m).
    2:{ destruct (Z.leb_spec
                    (8 + byteLength (snd c) + byteLength (cells_bytes cs)) m);
          [lia|reflexivity]. }
    rewrite !next_cell_offset.
    replace (fst c, snd c) with c by now destruct c.
    rewrite (IH _ (spre ++ cell_bytes c) spost _ (dpre ++ cell_bytes c)
               (m - (8 + byteLength (snd c))) Hcs
               (cells_bytes_cons_app _ _ _ _) eq_refl) by lia.
    destruct (Z.leb_spec (byteLength (cells_bytes cs))
                (m - (8 + byteLength (snd c)))),
      (Z.leb_spec (8 + byteLength (snd c) + byteLength (cells_bytes cs)) m);
      try lia; [|reflexivity].
    rewrite <- !next_cell_offset.
    rewrite cells_bytes_cons, <- !app_assoc.
    replace (m - (8 + byteLength (snd c)) - byteLength (cells_bytes cs))
      with (m - (8 + byteLength (snd c) + byteLength (cells_bytes cs))) by lia.
    replace (byteLength spre + 4 + 4 + byteLength (snd c)
             + byteLength (cells_bytes cs))
      with (byteLength spre
            + (8 + byteLength (snd c) + byteLength (cells_bytes cs))) by lia.
    now replace (byteLength dpre + 4 + 4 + byteLength (snd c)
                 + byteLength (cells_bytes cs))
      with (byteLength dpre
            + (8 + byteLength (snd c) + byteLength (cells_bytes cs))) by lia.
Qed.

Lemma copy_cells_at (cs : list cell)
    (page spre spost newPage dpre : bytes) (m soff doff : Z) (n : nat) :
  Forall cell_ok cs -> page = spre ++ cells_bytes cs ++ spost ->
  newPage = dpre ++ zeros m -> 0 <= m ->
  n = length cs -> soff = byteLength spre -> doff = byteLength dpre ->
  BTree.copy_cells page newPage n soff doff
  = if byteLength (cells_bytes cs) <=? m
    then Ok (dpre ++ cells_bytes cs ++ zeros (m - byteLength (cells_bytes cs)),
             soff + byteLength (cells_bytes cs),
             doff + byteLength (cells_bytes cs))
    else Err RangeError.
Proof. intros Hok Hp Hn Hm -> -> ->. now apply (copy_cells_spec cs _ _ spost). Qed.

(** The loop of [delete]: the cells kept, whether one was left out,
    how many are kept. *)
Definition without_key (key : Z) (cs : list cell) : list cell :=
  List.filter (fun c => negb (fst c =? key)) cs.

Lemma delete_loop_spec (key : Z) (cs : list cell) :
  forall (page spre spost newPage dpre : bytes) (m : Z) (found : bool)
         (newCount : Z),
  Forall cell_ok cs -> page = spre ++ cells_bytes cs ++ spost ->
  newPage = dpre ++ zeros m -> 0 <= m ->
  byteLength (cells_bytes (without_key key cs)) <= m ->
  BTree.delete_loop page newPage key (length cs) (byteLength spre)
    (byteLength dpre) found newCount
  = Ok (dpre ++ cells_bytes (without_key key cs)
          ++ zeros (m - byteLength (cells_bytes (without_key key cs))),
        found || has_key key cs,
        newCount + Z.of_nat (length (without_key key cs))).
Proof.
  induction cs as [|c cs IH];
    intros page spre spost newPage dpre m found newCount Hok Hpage Hnew Hm Hfit;
    cbn [BTree.delete_loop length without_key List.filter has_key existsb] in *.
  - subst newPage. change (byteLength (cells_bytes [])) with 0.
    now rewrite Z.sub_0_r, orb_false_r, Z.add_0_r.
  - inversion Hok as [|? ? Hc Hcs]; subst.
    pose proof (byteLength_nonneg (snd c)) as Hv.
    destruct (cell_read c _ spre (cells_bytes cs ++ spost) _ Hc
                (cells_bytes_cons_app' c cs spre spost) eq_refl)
      as (E1 & E2 & E3).
    rewrite E1. cbn [rbind]. rewrite E2. cbn [rbind].
    fold (has_key key cs) (without_key key cs) in *.
    destruct (fst c =? key); cbn [negb orb] in *.
    + rewrite next_cell_offset.
      rewrite (IH _ (spre ++ cell_bytes c) spost _ dpre m true newCount Hcs
                 (cells_bytes_cons_app _ _ _ _) eq_refl Hm Hfit).
      now rewrite orb_true_r.
    + rewrite byteLength_cells_bytes_cons in Hfit.
      pose proof (byteLength_nonneg (cells_bytes (without_key key cs))) as Hbs.
      rewrite E3.
      rewrite (write_cell_zeros
                 (fun p => BTree.delete_loop _ p key (length cs)
                             (byteLength spre + 4 + 4 + byteLength (snd c))
                             (byteLength dpre + 4 + 4 + byteLength (snd c))
                             found (newCount + 1))) by lia.
      destruct (Z.leb_spec (8 + byteLength (snd c)) m); [|lia].
      rewrite !next_cell_offset.
      replace (fst c, snd c) with c by now destruct c.
      rewrite (IH _ (spre ++ cell_bytes c) spost _ (dpre ++ cell_bytes c)
                 (m - (8 + byteLength (snd c))) found (newCount + 1) Hcs
                 (cells_bytes_cons_app _ _ _ _) eq_refl) by lia.
      rewrite byteLength_cells_bytes_cons.
      rewrite cells_bytes_cons, <- !app_assoc. cbn [length].
      replace (m - (8 + byteLength (snd c))
               - byteLength (cells_bytes (without_key key cs)))
        with (m - (8 + byteLength (snd c)
                   + byteLength (cells_bytes (without_key key cs)))) by lia.
      now replace (newCount + 1 + Z.of_nat (length (without_key key cs)))
        with (newCount + Z.of_nat (S (length (without_key key cs)))) by lia.
Qed.

(** *** Headers *)

Lemma getUint8_head (t : Z) (rest : bytes) : getUint8 (t :: rest) 0 = Ok t.
Proof.
  unfold getUint8, in_bounds, byteLength. cbn [length].
  destruct (Z.leb_spec (0 + 1) (Z.of_nat (S (length rest)))); [reflexivity|lia].
Qed.

Lemma setUint8_mid (pre post : bytes) (x v : Z) :
  setUint8 (pre ++ x :: post) (byteLength pre) v
  = Ok (pre ++ (v mod 256) :: post).
Proof.
  unfold setUint8.
  rewrite (in_bounds_app pre [x] post) by (unfold byteLength; cbn; lia).
  now rewrite (overlay_app pre [x] post).
Qed.

Lemma setUint16_mid (pre old post : bytes) (v : Z) :
  length old = 2%nat ->
  setUint16 (pre ++ old ++ post) (byteLength pre) v
  = Ok (pre ++ be16 v ++ post).
Proof.
  intros Hold. unfold setUint16.
  rewrite in_bounds_app by (unfold byteLength; lia).
  now rewrite overlay_app.
Qed.

Lemma setUint32_mid (pre old post : bytes) (v : Z) :
  length old = 4%nat ->
  setUint32 (pre ++ old ++ post) (byteLength pre) v
  = Ok (pre ++ be32 v ++ post).
Proof.
  intros Hold. unfold setUint32.
  rewrite in_bounds_app by (unfold byteLength; lia).
  now rewrite overlay_app.
Qed.

Lemma setUint8_mid_at (page pre post : bytes) (x v off : Z) :
  page = pre ++ x :: post -> off = byteLength pre ->
  setUint8 page off v = Ok (pre ++ (v mod 256) :: post).
Proof. intros -> ->. apply setUint8_mid. Qed.

Lemma setUint16_mid_at (page pre old post : bytes) (v off : Z) :
  page = pre ++ old ++ post -> off = byteLength pre -> length old = 2%nat ->
  setUint16 page off v = Ok (pre ++ be16 v ++ post).
Proof. intros -> ->. apply setUint16_mid. Qed.

Lemma setUint32_mid_at (page pre old post : bytes) (v off : Z) :
  page = pre ++ old ++ post -> off = byteLength pre -> length old = 4%nat ->
  setUint32 page off v = Ok (pre ++ be32 v ++ post).
Proof. intros -> ->. apply setUint32_mid. Qed.

Lemma zeros_cons (n : Z) : 0 < n -> zeros n = 0 :: zeros (n - 1).
Proof.
  intros Hn. unfold zeros.
  replace (Z.to_nat n) with (S (Z.to_nat (n - 1))) by lia. reflexivity.
Qed.

Lemma length_zeros (n : Z) : length (zeros n) = Z.to_nat n.
Proof. apply repeat_length. Qed.

(** A page with a header: the type, the number of cells, the parent. *)
Definition header (type numCells parent : Z) : bytes :=
  [type] ++ be16 numCells ++ be32 parent.

Lemma byteLength_header (t n p : Z) : byteLength (header t n p) = 7.
Proof. reflexivity. Qed.

Lemma header_type (t n p : Z) (rest : bytes) :
  getUint8 (header t n p ++ rest) OFF_TYPE = Ok t.
Proof. apply getUint8_head. Qed.

Lemma header_numCells (t n p : Z) (rest : bytes) :
  0 <= n < 65536 ->
  getUint16 (header t n p ++ rest) OFF_NUM_CELLS = Ok n.
Proof.
  intros Hn.
  rewrite (getUint16_at _ [t] (be32 p ++ rest) n) by reflexivity.
  now rewrite Z.mod_small.
Qed.

Lemma header_parent (t n p : Z) (rest : bytes) :
  0 <= p < 4294967296 ->
  getUint32 (header t n p ++ rest) OFF_PARENT = Ok p.
Proof.
  intros Hp.
  rewrite (getUint32_at _ ([t] ++ be16 n) rest p) by reflexivity.
  now rewrite Z.mod_small.
Qed.

Lemma header_slice (t n p : Z) (rest : bytes) :
  slice (header t n p ++ rest) 0 HEADER_SIZE = header t n p.
Proof.
  apply (slice_at _ [] (header t n p) rest); reflexivity.
Qed.

(** *** Leaves *)

Definition leaf_page (parent : Z) (cs : list cell) (tail : bytes) : bytes :=
  header NODE_LEAF (Z.of_nat (length cs)) parent ++ cells_bytes cs ++ tail.

Definition is_leaf (page : bytes) (parent : Z) (cs : list cell) : Prop :=
  Forall cell_ok cs
  /\ 0 <= parent < 4294967296
  /\ exists tail, page = leaf_page parent cs tail /\ byteLength page = PAGE_SIZE.

Lemma is_leaf_size (page : bytes) (parent : Z) (cs : list cell) :
  is_leaf page parent cs ->
  HEADER_SIZE + byteLength (cells_bytes cs) <= PAGE_SIZE
  /\ 0 <= Z.of_nat (length cs) < 512.
Proof.
  intros (_ & _ & tail & -> & Hlen). unfold leaf_page in Hlen.
  rewrite !byteLength_app, byteLength_header in Hlen.
  pose proof (byteLength_nonneg tail).
  pose proof (byteLength_cells_bytes_ge cs).
  unfold HEADER_SIZE, PAGE_SIZE in *. lia.
Qed.

Lemma is_leaf_type (page : bytes) (parent : Z) (cs : list cell) :
  is_leaf page parent cs -> getUint8 page OFF_TYPE = Ok NODE_LEAF.
Proof. intros (_ & _ & tail & -> & _). apply header_type. Qed.

Lemma is_leaf_numCells (page : bytes) (parent : Z) (cs : list cell) :
  is_leaf page parent cs ->
  getUint16 page OFF_NUM_CELLS = Ok (Z.of_nat (length cs)).
Proof.
  intros H. destruct (is_leaf_size _ _ _ H) as [_ Hn].
  destruct H as (_ & _ & tail & -> & _). apply header_numCells. lia.
Qed.

Lemma is_leaf_parent (page : bytes) (parent : Z) (cs : list cell) :
  is_leaf page parent cs -> getUint32 page OFF_PARENT = Ok parent.
Proof. intros (_ & Hp & tail & -> & _). now apply header_parent. Qed.

Lemma is_leaf_nonempty (page : bytes) (parent : Z) (cs : list cell) :
  is_leaf page parent cs -> (byteLength page =? 0) = false.
Proof. intros (_ & _ & _ & _ & ->). reflexivity. Qed.

Lemma is_leaf_read_cells (page : bytes) (parent : Z) (cs : list cell) :
  is_leaf page parent cs ->
  BTree.read_cells page (length cs) HEADER_SIZE = Ok cs.
Proof.
  intros (Hok & _ & tail & -> & _).
  change HEADER_SIZE with (byteLength (header NODE_LEAF (Z.of_nat (length cs)) parent)).
  now apply (read_cells_spec cs _ _ tail).
Qed.

Lemma is_leaf_find (page : bytes) (parent : Z) (cs : list cell) (key : Z) :
  is_leaf page parent cs ->
  BTree.find_loop page key (length cs) HEADER_SIZE = Ok (lookup_cell key cs).
Proof.
  intros (Hok & _ & tail & -> & _).
  change HEADER_SIZE with (byteLength (header NODE_LEAF (Z.of_nat (length cs)) parent)).
  now apply (find_loop_spec key cs _ _ tail).
Qed.

Lemma is_leaf_last_key (page : bytes) (parent : Z) (cs : list cell) :
  is_leaf page parent cs ->
  BTree.last_key_loop page (length cs) HEADER_SIZE 0 = Ok (last_key cs 0).
Proof.
  intros (Hok & _ & tail & -> & _).
  change HEADER_SIZE with (byteLength (header NODE_LEAF (Z.of_nat (length cs)) parent)).
  now apply (last_key_loop_spec cs _ _ tail).
Qed.

Lemma is_leaf_scan (page : bytes) (parent : Z) (cs : list cell) (key : Z) :
  is_leaf page parent cs ->
  BTree.scan_loop page key (length cs) 0 HEADER_SIZE (Z.of_nat (length cs)) false
  = if has_key key cs then Err (DuplicateKey key)
    else Ok (scan_index key cs 0 (Z.of_nat (length cs)) false,
             HEADER_SIZE + byteLength (cells_bytes cs)).
Proof.
  intros (Hok & _ & tail & -> & _).
  change HEADER_SIZE with (byteLength (header NODE_LEAF (Z.of_nat (length cs)) parent)).
  now apply (scan_loop_spec key cs _ _ tail).
Qed.

(** The page that [writeCellsToLeaf] builds. *)
Lemma leaf_page_built (cells : list cell) :
  (' p1 <~ setUint8 (zeros PAGE_SIZE) OFF_TYPE NODE_LEAF;
   ' p2 <~ setUint16 p1 OFF_NUM_CELLS (Z.of_nat (length cells));
   BTree.write_cells p2 cells HEADER_SIZE)
  = if HEADER_SIZE + byteLength (cells_bytes cells) <=? PAGE_SIZE
    then Ok (leaf_page 0 cells
               (zeros (PAGE_SIZE - HEADER_SIZE - byteLength (cells_bytes cells))))
    else Err RangeError.
Proof.
  unfold PAGE_SIZE, HEADER_SIZE, OFF_TYPE, OFF_NUM_CELLS, NODE_LEAF.
  rewrite (zeros_cons 4096) by lia.
  rewrite (setUint8_mid_at _ [] (zeros (4096 - 1)) 0 1 0) by reflexivity.
  cbn [rbind app].
  change (4096 - 1) with (2 + 4093). rewrite zeros_split by lia.
  rewrite (setUint16_mid_at _ [1 mod 256] (zeros 2) (zeros 4093) _ 1)
    by reflexivity.
  cbn [rbind]. change 4093 with (4 + 4089). rewrite zeros_split by lia.
  change (zeros 4) with (be32 0).
  rewrite (write_cells_zeros_at cells _
             (header 1 (Z.of_nat (length cells)) 0) 4089)
    by (reflexivity || lia).
  destruct (Z.leb_spec (byteLength (cells_bytes cells)) 4089),
    (Z.leb_spec (7 + byteLength (cells_bytes cells)) 4096); try lia;
    [|reflexivity].
  unfold leaf_page.
  now replace (4096 - 7 - byteLength (cells_bytes cells))
    with (4089 - byteLength (cells_bytes cells)) by lia.
Qed.

Lemma leaf_page_is_leaf (cells : list cell) :
  Forall (fun c => key_ok (fst c)) cells ->
  HEADER_SIZE + byteLength (cells_bytes cells) <= PAGE_SIZE ->
  is_leaf (leaf_page 0 cells
             (zeros (PAGE_SIZE - HEADER_SIZE - byteLength (cells_bytes cells))))
    0 cells.
Proof.
  intros Hkeys Hfit. unfold PAGE_SIZE, HEADER_SIZE in *. split; [|split].
  - induction cells as [|c cells IH]; constructor.
    + inversion Hkeys; subst. split; [assumption|].
      rewrite byteLength_cells_bytes_cons in Hfit.
      pose proof (byteLength_nonneg (cells_bytes cells)). lia.
    + inversion Hkeys; subst. apply IH; [assumption|].
      rewrite byteLength_cells_bytes_cons in Hfit.
      pose proof (byteLength_nonneg (snd c)). lia.
  - lia.
  - eexists. split; [reflexivity|]. unfold leaf_page. consts.
    rewrite !byteLength_app, byteLength_header, byteLength_zeros; lia.
Qed.

(** *** Where a cell goes: [insertIntoLeaf] and [sort] agree *)

Fixpoint cells_upto (key : Z) (cs : list cell) : list cell :=
  match cs with
  | [] => []
  | c :: cs' => if fst c <=? key then c :: cells_upto key cs' else []
  end.

Fixpoint cells_after (key : Z) (cs : list cell) : list cell :=
  match cs with
  | [] => []
  | c :: cs' => if fst c <=? key then cells_after key cs' else c :: cs'
  end.

Lemma cells_upto_after (key : Z) (cs : list cell) :
  cells_upto key cs ++ cells_after key cs = cs.
Proof.
  induction cs as [|c cs IH]; cbn; [reflexivity|].
  destruct (fst c <=? key); cbn; [now rewrite IH|reflexivity].
Qed.

Lemma insert_by_key_split (key : Z) (v : bytes) (cs : list cell) :
  insert_by_key (key, v) cs
  = cells_upto key cs ++ (key, v) :: cells_after key cs.
Proof.
  induction cs as [|c cs IH]; cbn; [reflexivity|].
  destruct (fst c <=? key); cbn; [now rewrite IH|reflexivity].
Qed.

Lemma scan_index_found (key : Z) (cs : list cell) : forall i insertIndex,
  scan_index key cs i insertIndex true = insertIndex.
Proof. induction cs as [|c cs IH]; intros i insertIndex; cbn; auto. Qed.

Lemma scan_index_upto (key : Z) (cs : list cell) : forall i,
  scan_index key cs i (i + Z.of_nat (length cs)) false
  = i + Z.of_nat (length (cells_upto key cs)).
Proof.
  induction cs as [|c cs IH]; intros i; cbn [scan_index cells_upto length negb andb].
  - reflexivity.
  - destruct (Z.ltb_spec key (fst c)), (Z.leb_spec (fst c) key); try lia.
    + rewrite scan_index_found. cbn [length]. lia.
    + replace (i + Z.of_nat (S (length cs)))
        with (i + 1 + Z.of_nat (length cs)) by lia.
      rewrite IH. cbn [length]. lia.
Qed.

(** *** Internal nodes *)

Definition item_ok (it : item) : Prop :=
  0 <= fst it < 4294967296 /\ 0 <= snd it < 4294967296.

Definition internal_page (parent p0 : Z) (its : list item) (tail : bytes)
    : bytes :=
  header NODE_INTERNAL (Z.of_nat (length its)) parent
  ++ be32 p0 ++ items_bytes its ++ tail.

Definition is_internal (page : bytes) (parent p0 : Z) (its : list item) : Prop :=
  Forall item_ok its
  /\ 0 <= parent < 4294967296 /\ 0 <= p0 < 4294967296
  /\ exists tail, page = internal_page parent p0 its tail
                  /\ byteLength page = PAGE_SIZE.

Lemma item_read (it : item) (page pre rest : bytes) (off : Z) :
  item_ok it -> page = pre ++ item_bytes it ++ rest -> off = byteLength pre ->
  getUint32 page off = Ok (fst it) /\ getUint32 page (off + 4) = Ok (snd it).
Proof.
  intros [Hk Hp] -> ->. unfold item_bytes. split.
  - rewrite (getUint32_at _ pre (be32 (snd it) ++ rest) (fst it) _)
      by (now rewrite <- ?app_assoc).
    now rewrite Z.mod_small.
  - rewrite (getUint32_at _ (pre ++ be32 (fst it)) rest (snd it) _)
      by (rewrite <- ?app_assoc; reflexivity || blia).
    now rewrite Z.mod_small.
Qed.

Lemma items_bytes_cons_app (it : item) (its : list item) (pre post : bytes) :
  pre ++ items_bytes (it :: its) ++ post
  = (pre ++ item_bytes it) ++ items_bytes its ++ post.
Proof. unfold items_bytes. cbn [map concat]. now rewrite <- !app_assoc. Qed.

Lemma items_bytes_cons_app' (it : item) (its : list item) (pre post : bytes) :
  pre ++ items_bytes (it :: its) ++ post
  = pre ++ item_bytes it ++ (items_bytes its ++ post).
Proof. unfold items_bytes. cbn [map concat]. now rewrite <- !app_assoc. Qed.

Lemma next_item_offset (it : item) (pre : bytes) :
  byteLength pre + 4 + 4 = byteLength (pre ++ item_bytes it).
Proof. unfold item_bytes. blia. Qed.


(** The child that the loop of [findLeafPage] picks. *)
Fixpoint route (key : Z) (its : list item) (child : Z) : Z :=
  match its with
  | [] => child
  | it :: its' => if key <? fst it then child else route key its' (snd it)
  end.

Lemma route_loop_spec (key : Z) (its : list item) :
  forall (page pre post : bytes) (child : Z),
  Forall item_ok its -> page = pre ++ items_bytes its ++ post ->
  BTree.route_loop page key (length its) (byteLength pre) child
  = Ok (route key its child).
Proof.
  induction its as [|it its IH]; intros page pre post child Hok Hpage;
    cbn [BTree.route_loop length route]; [reflexivity|].
  inversion Hok as [|? ? Hi His]; subst.
  destruct (item_read it _ pre (items_bytes its ++ post) _ Hi
              (items_bytes_cons_app' it its pre post) eq_refl) as (E1 & E2).
  rewrite E1. cbn [rbind]. rewrite E2. cbn [rbind].
  destruct (key <? fst it); [reflexivity|].
  rewrite (next_item_offset it).
  apply (IH _ (pre ++ item_bytes it) post _ His (items_bytes_cons_app _ _ _ _)).
Qed.

Lemma last_child_loop_spec (its : list item) :
  forall (page pre post : bytes) (child : Z),
  Forall item_ok its -> page = pre ++ items_bytes its ++ post ->
  BTree.last_child_loop page (length its) (byteLength pre) child
  = Ok (List.last (map snd its) child).
Proof.
  induction its as [|it its IH]; intros page pre post child Hok Hpage;
    cbn [BTree.last_child_loop length]; [reflexivity|].
  inversion Hok as [|? ? Hi His]; subst.
  destruct (item_read it _ pre (items_bytes its ++ post) _ Hi
              (items_bytes_cons_app' it its pre post) eq_refl) as (_ & E2).
  rewrite E2. cbn [rbind]. rewrite (next_item_offset it).
  rewrite (IH _ (pre ++ item_bytes it) post _ His (items_bytes_cons_app _ _ _ _)).
  f_equal. cbn [map]. destruct its as [|it' its]; [reflexivity|].
  cbn [map].
  transitivity (List.last (snd it' :: map snd its) child);
    [apply last_cons_default|reflexivity].
Qed.


Lemma delete_loop_at (key : Z) (cs : list cell)
    (page spre spost newPage dpre : bytes) (m soff doff : Z) (n : nat)
    (found : bool) (newCount : Z) :
  Forall cell_ok cs -> page = spre ++ cells_bytes cs ++ spost ->
  newPage = dpre ++ zeros m -> 0 <= m ->
  byteLength (cells_bytes (without_key key cs)) <= m ->
  n = length cs -> soff = byteLength spre -> doff = byteLength dpre ->
  BTree.delete_loop page newPage key n soff doff found newCount
  = Ok (dpre ++ cells_bytes (without_key key cs)
          ++ zeros (m - byteLength (cells_bytes (without_key key cs))),
        found || has_key key cs,
        newCount + Z.of_nat (length (without_key key cs))).
Proof.
  intros Hok Hp Hn Hm Hfit -> -> ->.
  now apply (delete_loop_spec key cs _ _ spost).
Qed.

Lemma byteLength_without_key (key : Z) (cs : list cell) :
  byteLength (cells_bytes (without_key key cs)) <= byteLength (cells_bytes cs).
Proof.
  induction cs as [|c cs IH]; cbn [without_key List.filter]; [lia|].
  fold (without_key key cs). pose proof (byteLength_nonneg (snd c)).
  destruct (negb (fst c =? key)); rewrite !byteLength_cells_bytes_cons; lia.
Qed.

Lemma Forall_cell_ok_without (key : Z) (cs : list cell) :
  Forall cell_ok cs -> Forall cell_ok (without_key key cs).
Proof.
  intros H. unfold without_key. rewrite List.Forall_forall in *.
  intros c Hc. apply List.filter_In in Hc. now apply H.
Qed.


(** *** Sorting *)

Lemma length_insert_by_key {A} (x : Z * A) (l : list (Z * A)) :
  length (insert_by_key x l) = S (length l).
Proof.
  induction l as [|y l IH]; cbn; [reflexivity|].
  destruct (fst y <=? fst x); cbn; [now rewrite IH|reflexivity].
Qed.




Lemma length_sort_by_key {A} (l : list (Z * A)) :
  length (sort_by_key l) = length l.
Proof.
  unfold sort_by_key.
  enough (H : forall acc : list (Z * A),
             length (fold_left (fun acc x => insert_by_key x acc) l acc)
             = (length acc + length l)%nat) by apply (H []).
  induction l as [|x l IH]; intros acc; cbn; [lia|].
  rewrite IH, length_insert_by_key. lia.
Qed.

Lemma sort_by_key_snoc {A} (l : list (Z * A)) (x : Z * A) :
  sort_by_key (l ++ [x]) = insert_by_key x (sort_by_key l).
Proof. unfold sort_by_key. now rewrite fold_left_app. Qed.

(** Keys in ascending order, equal keys allowed. *)
Definition ascending {A} (l : list (Z * A)) : Prop :=
  StronglySorted Z.le (map fst l).

Lemma insert_by_key_last {A} (x : Z * A) (l : list (Z * A)) :
  Forall (fun y => fst y <= fst x) l -> insert_by_key x l = l ++ [x].
Proof.
  induction 1 as [|y l Hy Hl IH]; cbn; [reflexivity|].
  destruct (Z.leb_spec (fst y) (fst x)); [now rewrite IH|lia].
Qed.

Lemma sort_by_key_ascending {A} (l : list (Z * A)) :
  ascending l -> sort_by_key l = l.
Proof.
  unfold sort_by_key, ascending.
  enough (H : forall acc : list (Z * A),
             StronglySorted Z.le (map fst (acc ++ l)) ->
             fold_left (fun acc x => insert_by_key x acc) l acc = acc ++ l)
    by apply (H []).
  induction l as [|x l IH]; intros acc Hs; cbn; [now rewrite app_nil_r|].
  rewrite insert_by_key_last.
  - rewrite IH; rewrite <- app_assoc; [reflexivity|exact Hs].
  - clear IH. induction acc as [|y acc IHacc]; [constructor|].
    cbn in Hs. inversion Hs as [|? ? Hs' Hall]; subst. constructor.
    + rewrite map_app, Forall_app in Hall. destruct Hall as [_ Hall].
      now inversion Hall.
    + now apply IHacc.
Qed.


(** ** The methods of the B-tree on pages of known content *)

(** The tree object after reads only. *)
Definition unchanged (bt bt' : BTree) : Prop :=
  rootPageId bt' = rootPageId bt /\ only_read (disk bt) (disk bt').

Lemma unchanged_refl (bt : BTree) : unchanged bt bt.
Proof. split; [reflexivity|apply only_read_refl]. Qed.

Lemma unchanged_trans (a b c : BTree) :
  unchanged a b -> unchanged b c -> unchanged a c.
Proof.
  intros [R1 O1] [R2 O2]. split; [congruence|].
  eapply only_read_trans; eassumption.
Qed.

Lemma unchanged_page_of (bt bt' : BTree) (id : Z) :
  unchanged bt bt' -> page_of (disk bt') id = page_of (disk bt) id.
Proof. intros [_ O]. now apply only_read_page_of. Qed.

Lemma unchanged_maxPageId (bt bt' : BTree) :
  unchanged bt bt' -> maxPageId (disk bt') = maxPageId (disk bt).
Proof. intros [_ O]. apply O. Qed.

Lemma on_disk_readPage (id : Z) (bt : BTree) :
  exists bt', BTree.on_disk (VirtualDisk.readPage id) bt
              = (bt', Ok (page_of (disk bt) id))
              /\ unchanged bt bt'.
Proof.
  unfold BTree.on_disk.
  destruct (readPage_spec id (disk bt)) as (d' & E & O). rewrite E.
  eexists. split; [reflexivity|]. split; [reflexivity|exact O].
Qed.

Lemma bind_readPage {A} (id : Z) (k : bytes -> M BTree A) (bt : BTree) :
  exists bt', bind (BTree.on_disk (VirtualDisk.readPage id)) k bt
              = k (page_of (disk bt) id) bt'
              /\ unchanged bt bt'.
Proof.
  destruct (on_disk_readPage id bt) as (bt' & E & U).
  exists bt'. split; [|exact U]. unfold bind. now rewrite E.
Qed.

Lemma bind_lift {S A B} (r : result A) (k : A -> M S B) (s : S) :
  bind (lift r) k s = match r with Ok a => k a s | Err e => (s, Err e) end.
Proof. unfold bind, lift. now destruct r. Qed.

Lemma bind_root {A} (k : Z -> M BTree A) (bt : BTree) :
  bind BTree.root k bt = k (rootPageId bt) bt.
Proof. reflexivity. Qed.

(** *** Going down to a leaf *)

Lemma findLeafPage_leaf (fuel : nat) (id key : Z) (bt : BTree)
    (parent : Z) (cs : list cell) :
  is_leaf (page_of (disk bt) id) parent cs ->
  exists bt', BTree.findLeafPage (S fuel) id key bt = (bt', Ok id)
              /\ unchanged bt bt'.
Proof.
  intros H. cbn [BTree.findLeafPage].
  destruct (bind_readPage id
              (fun page =>
                 type <- lift (getUint8 page OFF_TYPE);
                 if type =? NODE_LEAF then ret id
                 else
                   numCells <- lift (getUint16 page OFF_NUM_CELLS);
                   childPageId <- lift (getUint32 page HEADER_SIZE);
                   child <- lift (BTree.route_loop page key (Z.to_nat numCells)
                                    (HEADER_SIZE + 4) childPageId);
                   BTree.findLeafPage fuel child key) bt) as (bt' & E & U).
  rewrite E, bind_lift, (is_leaf_type _ _ _ H). cbn.
  exists bt'. split; [reflexivity|exact U].
Qed.

Lemma is_internal_type (page : bytes) (parent p0 : Z) (its : list item) :
  is_internal page parent p0 its -> getUint8 page OFF_TYPE = Ok NODE_INTERNAL.
Proof. intros (_ & _ & _ & tail & -> & _). apply header_type. Qed.

Lemma is_internal_size (page : bytes) (parent p0 : Z) (its : list item) :
  is_internal page parent p0 its -> 0 <= Z.of_nat (length its) < 512.
Proof.
  intros (_ & _ & _ & tail & -> & Hlen). unfold internal_page in Hlen.
  rewrite !byteLength_app, byteLength_header, byteLength_items_bytes in Hlen.
  pose proof (byteLength_nonneg tail). consts. rewrite byteLength_be32 in Hlen.
  lia.
Qed.

Lemma is_internal_numCells (page : bytes) (parent p0 : Z) (its : list item) :
  is_internal page parent p0 its ->
  getUint16 page OFF_NUM_CELLS = Ok (Z.of_nat (length its)).
Proof.
  intros H. pose proof (is_internal_size _ _ _ _ H) as Hn.
  destruct H as (_ & _ & _ & tail & -> & _). apply header_numCells. lia.
Qed.


Lemma is_internal_p0 (page : bytes) (parent p0 : Z) (its : list item) :
  is_internal page parent p0 its -> getUint32 page HEADER_SIZE = Ok p0.
Proof.
  intros (_ & _ & Hp & tail & -> & _). unfold internal_page.
  rewrite (getUint32_at _ (header NODE_INTERNAL (Z.of_nat (length its)) parent)
             (items_bytes its ++ tail) p0) by reflexivity.
  now rewrite Z.mod_small.
Qed.

Lemma is_internal_nonempty (page : bytes) (parent p0 : Z) (its : list item) :
  is_internal page parent p0 its -> (byteLength page =? 0) = false.
Proof. intros (_ & _ & _ & _ & _ & ->). reflexivity. Qed.


Lemma is_internal_route (page : bytes) (parent p0 : Z) (its : list item)
    (key child : Z) :
  is_internal page parent p0 its ->
  BTree.route_loop page key (length its) (HEADER_SIZE + 4) child
  = Ok (route key its child).
Proof.
  intros (Hok & _ & _ & tail & -> & _). unfold internal_page.
  rewrite app_assoc.
  change (HEADER_SIZE + 4)
    with (byteLength (header NODE_INTERNAL (Z.of_nat (length its)) parent
                      ++ be32 p0)).
  now apply (route_loop_spec key its _ _ tail).
Qed.

Lemma findLeafPage_internal (fuel : nat) (id key : Z) (bt : BTree)
    (parent p0 : Z) (its : list item) :
  is_internal (page_of (disk bt) id) parent p0 its ->
  exists bt', BTree.findLeafPage (S fuel) id key bt
              = BTree.findLeafPage fuel (route key its p0) key bt'
              /\ unchanged bt bt'.
Proof.
  intros H. cbn [BTree.findLeafPage].
  destruct (bind_readPage id
              (fun page =>
                 type <- lift (getUint8 page OFF_TYPE);
                 if type =? NODE_LEAF then ret id
                 else
                   numCells <- lift (getUint16 page OFF_NUM_CELLS);
                   childPageId <- lift (getUint32 page HEADER_SIZE);
                   child <- lift (BTree.route_loop page key (Z.to_nat numCells)
                                    (HEADER_SIZE + 4) childPageId);
                   BTree.findLeafPage fuel child key) bt) as (bt' & E & U).
  rewrite E, bind_lift, (is_internal_type _ _ _ _ H). cbn [Z.eqb NODE_INTERNAL NODE_LEAF].
  rewrite bind_lift, (is_internal_numCells _ _ _ _ H).
  rewrite bind_lift, (is_internal_p0 _ _ _ _ H).
  rewrite bind_lift, Nat2Z.id, (is_internal_route _ _ _ _ _ _ H).
  exists bt'. split; [reflexivity|exact U].
Qed.

Lemma findInLeaf_spec (id key : Z) (bt : BTree) (parent : Z) (cs : list cell) :
  is_leaf (page_of (disk bt) id) parent cs ->
  exists bt', BTree.findInLeaf id key bt = (bt', Ok (lookup_cell key cs))
              /\ unchanged bt bt'.
Proof.
  intros H. unfold BTree.findInLeaf.
  destruct (bind_readPage id
              (fun page =>
                 numCells <- lift (getUint16 page OFF_NUM_CELLS);
                 lift (BTree.find_loop page key (Z.to_nat numCells) HEADER_SIZE))
              bt) as (bt' & E & U).
  rewrite E, bind_lift, (is_leaf_numCells _ _ _ H), Nat2Z.id.
  unfold lift. rewrite (is_leaf_find _ _ _ key H).
  exists bt'. split; [reflexivity|exact U].
Qed.

(** *** Walking the tree *)

Lemma traverse_leaf (fuel : nat) (id : Z) (bt : BTree) (parent : Z)
    (cs : list cell) :
  is_leaf (page_of (disk bt) id) parent cs ->
  exists bt', BTree.traverse (S fuel) id bt = (bt', Ok cs) /\ unchanged bt bt'.
Proof.
  intros H. cbn [BTree.traverse].
  match goal with
  | |- context [bind (BTree.on_disk (VirtualDisk.readPage id)) ?k bt] =>
      destruct (bind_readPage id k bt) as (bt' & E & U)
  end.
  rewrite E, (is_leaf_nonempty _ _ _ H).
  rewrite bind_lift, (is_leaf_type _ _ _ H).
  rewrite bind_lift, (is_leaf_numCells _ _ _ H), Z.eqb_refl, Nat2Z.id.
  unfold lift. rewrite (is_leaf_read_cells _ _ _ H).
  exists bt'. split; [reflexivity|exact U].
Qed.

Lemma is_internal_first_item (page : bytes) (parent p0 : Z) (it : item)
    (its : list item) :
  is_internal page parent p0 (it :: its) ->
  getUint32 page (HEADER_SIZE + 4) = Ok (fst it)
  /\ getUint32 page (HEADER_SIZE + 4 + 4) = Ok (snd it).
Proof.
  intros (Hok & _ & _ & tail & -> & _). inversion Hok as [|? ? Hi _]; subst.
  unfold internal_page. rewrite app_assoc.
  apply (item_read it _
           (header NODE_INTERNAL (Z.of_nat (length (it :: its))) parent ++ be32 p0)
           (items_bytes its ++ tail) _ Hi);
    [apply items_bytes_cons_app'|reflexivity].
Qed.

(** A root with one separator over two leaves. *)
Lemma traverse_two_leaves (fuel : nat) (r : Z) (bt : BTree)
    (parent a s b pa pb : Z) (ca cb : list cell) :
  is_internal (page_of (disk bt) r) parent a [(s, b)] ->
  is_leaf (page_of (disk bt) a) pa ca ->
  is_leaf (page_of (disk bt) b) pb cb ->
  exists bt', BTree.traverse (S (S fuel)) r bt = (bt', Ok (ca ++ cb))
              /\ unchanged bt bt'.
Proof.
  intros Hr Ha Hb. remember (S fuel) as fuel1 eqn:Hfuel.
  cbn [BTree.traverse].
  match goal with
  | |- context [bind (BTree.on_disk (VirtualDisk.readPage r)) ?k bt] =>
      destruct (bind_readPage r k bt) as (bt1 & E & U1)
  end.
  rewrite E, (is_internal_nonempty _ _ _ _ Hr).
  rewrite bind_lift, (is_internal_type _ _ _ _ Hr).
  rewrite bind_lift, (is_internal_numCells _ _ _ _ Hr).
  cbn [Z.eqb NODE_INTERNAL NODE_LEAF length Z.of_nat Z.to_nat Pos.to_nat
       Pos.iter_op Nat.add Pos.of_succ_nat].
  rewrite bind_lift, (is_internal_p0 _ _ _ _ Hr).
  rewrite <- (unchanged_page_of _ _ a U1) in Ha.
  rewrite <- (unchanged_page_of _ _ b U1) in Hb.
  subst fuel1.
  destruct (traverse_leaf fuel a bt1 pa ca Ha) as (bt2 & E2 & U2).
  unfold bind at 1. rewrite E2.
  destruct (is_internal_first_item _ _ _ _ _ Hr) as [_ Eb].
  change (Z.to_nat (Z.of_nat 1)) with 1%nat. cbv beta iota fix.
  rewrite bind_lift, Eb. cbn [snd].
  rewrite <- (unchanged_page_of _ _ b U2) in Hb.
  destruct (traverse_leaf fuel b bt2 pb cb Hb) as (bt3 & E3 & U3).
  unfold bind at 1. rewrite E3.
  exists bt3. split; [reflexivity|].
  eauto using unchanged_trans.
Qed.

(** *** Writes *)

(** One page stored, the others and the root as they were. *)
Definition stored (id : Z) (page : bytes) (bt bt' : BTree) : Prop :=
  rootPageId bt' = rootPageId bt
  /\ page_of (disk bt') id = page
  /\ (forall id', id' <> id -> page_of (disk bt') id' = page_of (disk bt) id')
  /\ maxPageId (disk bt) <= maxPageId (disk bt')
  /\ (maxPageId (disk bt') = maxPageId (disk bt) \/ maxPageId (disk bt') = id)
  /\ (forall k, metadata_of (disk bt') k = metadata_of (disk bt) k).

Lemma on_disk_writePage (id : Z) (page : bytes) (bt : BTree) :
  exists bt', BTree.on_disk (VirtualDisk.writePage id page) bt = (bt', Ok tt)
              /\ stored id page bt bt'.
Proof.
  unfold BTree.on_disk.
  destruct (writePage_spec id page (disk bt))
    as (d' & E & H1 & H2 & H3 & H4 & _ & H6 & H7).
  rewrite E. eexists. split; [reflexivity|].
  repeat split; cbn; try assumption.
  intros k. unfold metadata_of. now rewrite H6, H7.
Qed.

Lemma unchanged_metadata_of (bt bt' : BTree) (k : string) :
  unchanged bt bt' -> metadata_of (disk bt') k = metadata_of (disk bt) k.
Proof.
  intros (_ & _ & _ & Hb & Hl & _). unfold metadata_of. now rewrite Hb, Hl.
Qed.

Lemma unchanged_stored (id : Z) (page : bytes) (a b c : BTree) :
  unchanged a b -> stored id page b c -> stored id page a c.
Proof.
  intros U (R & P & O & M1 & M2 & Md).
  pose proof (unchanged_maxPageId _ _ U) as Hm. destruct U as [R' O'].
  repeat split.
  - congruence.
  - exact P.
  - intros id' Hne. rewrite (O id' Hne). now apply only_read_page_of.
  - lia.
  - lia.
  - intros k. rewrite Md. apply unchanged_metadata_of. now split.
Qed.

Lemma on_disk_allocatePage (bt : BTree) :
  exists bt', BTree.on_disk VirtualDisk.allocatePage bt
              = (bt', Ok (maxPageId (disk bt) + 1))
              /\ rootPageId bt' = rootPageId bt
              /\ maxPageId (disk bt') = maxPageId (disk bt) + 1
              /\ (forall id, page_of (disk bt') id = page_of (disk bt) id)
              /\ (forall k, metadata_of (disk bt') k = metadata_of (disk bt) k).
Proof.
  unfold BTree.on_disk.
  destruct (allocatePage_spec (disk bt)) as (d' & E & H1 & H2 & _ & H4 & H5).
  rewrite E. eexists. split; [reflexivity|]. repeat split; cbn; try assumption.
  intros k. unfold metadata_of. now rewrite H4, H5.
Qed.

(** *** [insertIntoLeaf] *)

Lemma insertIntoLeaf_duplicate (id key : Z) (value : bytes) (bt : BTree)
    (parent : Z) (cs : list cell) :
  is_leaf (page_of (disk bt) id) parent cs ->
  has_key key cs = true ->
  exists bt', BTree.insertIntoLeaf id key value bt = (bt', Err (DuplicateKey key))
              /\ unchanged bt bt'.
Proof.
  intros H Hdup. unfold BTree.insertIntoLeaf.
  match goal with
  | |- context [bind (BTree.on_disk (VirtualDisk.readPage id)) ?k bt] =>
      destruct (bind_readPage id k bt) as (bt1 & E & U1)
  end.
  rewrite E, bind_lift, (is_leaf_numCells _ _ _ H), Nat2Z.id.
  rewrite bind_lift, (is_leaf_scan _ _ _ key H), Hdup.
  exists bt1. split; [reflexivity|exact U1].
Qed.

Lemma insertIntoLeaf_full (id key : Z) (value : bytes) (bt : BTree)
    (parent : Z) (cs : list cell) :
  is_leaf (page_of (disk bt) id) parent cs ->
  has_key key cs = false ->
  PAGE_SIZE < HEADER_SIZE + byteLength (cells_bytes cs) + (8 + byteLength value) ->
  exists bt', BTree.insertIntoLeaf id key value bt
              = BTree.splitLeaf id key value bt'
              /\ unchanged bt bt'.
Proof.
  intros H Hdup Hfull. unfold BTree.insertIntoLeaf.
  match goal with
  | |- context [bind (BTree.on_disk (VirtualDisk.readPage id)) ?k bt] =>
      destruct (bind_readPage id k bt) as (bt1 & E & U1)
  end.
  rewrite E, bind_lift, (is_leaf_numCells _ _ _ H), Nat2Z.id.
  rewrite bind_lift, (is_leaf_scan _ _ _ key H), Hdup.
  destruct (Z.ltb_spec PAGE_SIZE
              (HEADER_SIZE + byteLength (cells_bytes cs) + (8 + byteLength value)));
    [|lia].
  exists bt1. split; [reflexivity|exact U1].
Qed.

Lemma cell_ok_new (key : Z) (value : bytes) :
  key_ok key -> byteLength value <= PAGE_SIZE -> cell_ok (key, value).
Proof. intros Hk Hv. split; [exact Hk|]. cbn. consts. lia. Qed.

Lemma Forall_cell_ok_insert (key : Z) (value : bytes) (cs : list cell) :
  cell_ok (key, value) -> Forall cell_ok cs ->
  Forall cell_ok (insert_by_key (key, value) cs).
Proof.
  intros Hc Hcs. rewrite insert_by_key_split.
  rewrite <- (cells_upto_after key cs) in Hcs.
  apply Forall_app in Hcs as [H1 H2].
  apply Forall_app. split; [exact H1|]. now constructor.
Qed.

Lemma byteLength_cells_bytes_insert (key : Z) (value : bytes) (cs : list cell) :
  byteLength (cells_bytes (insert_by_key (key, value) cs))
  = byteLength (cells_bytes cs) + (8 + byteLength value).
Proof.
  rewrite insert_by_key_split, cells_bytes_app, cells_bytes_cons.
  rewrite <- (cells_upto_after key cs) at 3.
  rewrite cells_bytes_app, !byteLength_app, byteLength_cell_bytes. cbn [snd]. lia.
Qed.

Lemma insertIntoLeaf_fits (id key : Z) (value : bytes) (bt : BTree)
    (parent : Z) (cs : list cell) :
  is_leaf (page_of (disk bt) id) parent cs ->
  has_key key cs = false ->
  key_ok key ->
  HEADER_SIZE + byteLength (cells_bytes cs) + (8 + byteLength value) <= PAGE_SIZE ->
  exists bt' page',
    BTree.insertIntoLeaf id key value bt = (bt', Ok tt)
    /\ stored id page' bt bt'
    /\ is_leaf page' parent (insert_by_key (key, value) cs).
Proof.
  intros H Hdup Hkey Hfit. unfold BTree.insertIntoLeaf.
  match goal with
  | |- context [bind (BTree.on_disk (VirtualDisk.readPage id)) ?k bt] =>
      destruct (bind_readPage id k bt) as (bt1 & E & U1)
  end.
  rewrite E, bind_lift, (is_leaf_numCells _ _ _ H), Nat2Z.id.
  rewrite bind_lift, (is_leaf_scan _ _ _ key H), Hdup.
  destruct (Z.ltb_spec PAGE_SIZE
              (HEADER_SIZE + byteLength (cells_bytes cs) + (8 + byteLength value)));
    [lia|].
  pose proof (scan_index_upto key cs 0) as Hidx. rewrite !Z.add_0_l in Hidx.
  rewrite Hidx. clear Hidx E.
  destruct H as (Hok & Hpar & tail & Hpage & Hlen).
  set (page := page_of (disk bt) id) in *.
  set (upto := cells_upto key cs). set (after := cells_after key cs).
  set (n := Z.of_nat (length cs)) in *.
  assert (Hcs : cs = upto ++ after) by (symmetry; apply cells_upto_after).
  assert (Hbytes : cells_bytes cs = cells_bytes upto ++ cells_bytes after)
    by (rewrite Hcs at 1; apply cells_bytes_app).
  assert (Hoks : Forall cell_ok upto /\ Forall cell_ok after)
    by (apply Forall_app; now rewrite <- Hcs).
  destruct Hoks as [Hok1 Hok2].
  pose proof (byteLength_nonneg (cells_bytes upto)) as Hb1.
  pose proof (byteLength_nonneg (cells_bytes after)) as Hb2.
  pose proof (byteLength_nonneg value) as Hbv.
  assert (Hsum : byteLength (cells_bytes cs)
                 = byteLength (cells_bytes upto) + byteLength (cells_bytes after))
    by (rewrite Hbytes; apply byteLength_app).
  consts.
  (* the header *)
  rewrite bind_lift.
  replace (slice page 0 7) with (header 1 n parent)
    by (rewrite Hpage; symmetry; apply header_slice).
  rewrite (set_zeros_at (zeros 4096) [] (header 1 n parent) 4096 0)
    by (reflexivity || lia).
  rewrite byteLength_header. cbn [Z.leb Z.compare Pos.compare Pos.compare_cont app].
  change (4096 - 7) with 4089.
  rewrite bind_lift.
  rewrite (setUint16_mid_at _ [1] (be16 n) (be32 parent ++ zeros 4089) (n + 1) 1)
    by reflexivity.
  (* the cells before *)
  assert (Hp1 : page = header 1 n parent ++ cells_bytes upto
                       ++ (cells_bytes after ++ tail)).
  { rewrite Hpage. unfold leaf_page. fold n. rewrite Hbytes.
    now rewrite <- !app_assoc. }
  rewrite bind_lift.
  rewrite (copy_cells_at upto page (header 1 n parent)
             (cells_bytes after ++ tail)
             ([1] ++ be16 (n + 1) ++ be32 parent ++ zeros 4089)
             (header 1 (n + 1) parent) 4089 7 7
             (Z.to_nat (Z.of_nat (length upto)))
             Hok1 Hp1 eq_refl ltac:(lia) ltac:(now rewrite Nat2Z.id)
             eq_refl eq_refl).
  destruct (Z.leb_spec (byteLength (cells_bytes upto)) 4089); [|lia].
  (* the new cell *)
  rewrite bind_lift.
  rewrite (setUint32_zeros_at _ (header 1 (n + 1) parent ++ cells_bytes upto)
             (4089 - byteLength (cells_bytes upto)) key
             (7 + byteLength (cells_bytes upto))
             ltac:(now rewrite <- app_assoc)
             ltac:(rewrite byteLength_app; reflexivity) ltac:(lia)).
  destruct (Z.leb_spec 4 (4089 - byteLength (cells_bytes upto))); [|lia].
  rewrite bind_lift.
  rewrite (setUint32_zeros_at _
             ((header 1 (n + 1) parent ++ cells_bytes upto) ++ be32 key)
             (4089 - byteLength (cells_bytes upto) - 4) (byteLength value)
             (7 + byteLength (cells_bytes upto) + 4)
             eq_refl
             ltac:(rewrite !byteLength_app, byteLength_header, byteLength_be32; lia)
             ltac:(lia)).
  destruct (Z.leb_spec 4 (4089 - byteLength (cells_bytes upto) - 4)); [|lia].
  rewrite bind_lift.
  rewrite (set_zeros_at _
             (((header 1 (n + 1) parent ++ cells_bytes upto) ++ be32 key)
              ++ be32 (byteLength value)) value
             (4089 - byteLength (cells_bytes upto) - 4 - 4)
             (7 + byteLength (cells_bytes upto) + 4 + 4)
             eq_refl
             ltac:(rewrite !byteLength_app, byteLength_header, !byteLength_be32; lia)
             ltac:(lia)).
  destruct (Z.leb_spec (byteLength value)
              (4089 - byteLength (cells_bytes upto) - 4 - 4)); [|lia].
  (* the cells after *)
  assert (Hp2 : page = (header 1 n parent ++ cells_bytes upto)
                       ++ cells_bytes after ++ tail).
  { rewrite Hp1. now rewrite <- !app_assoc. }
  rewrite bind_lift.
  rewrite (copy_cells_at after page (header 1 n parent ++ cells_bytes upto)
             tail _
             ((((header 1 (n + 1) parent ++ cells_bytes upto) ++ be32 key)
               ++ be32 (byteLength value)) ++ value)
             (4089 - byteLength (cells_bytes upto) - 4 - 4 - byteLength value)
             (7 + byteLength (cells_bytes upto))
             (7 + byteLength (cells_bytes upto) + 4 + 4 + byteLength value)
             (Z.to_nat (n - Z.of_nat (length upto)))
             Hok2 Hp2 eq_refl ltac:(lia)
             ltac:(unfold n; rewrite Hcs at 1; rewrite length_app; lia)
             ltac:(rewrite byteLength_app, byteLength_header; lia)
             ltac:(rewrite !byteLength_app, byteLength_header, !byteLength_be32;
                   lia)).
  destruct (Z.leb_spec (byteLength (cells_bytes after))
              (4089 - byteLength (cells_bytes upto) - 4 - 4 - byteLength value));
    [|lia].
  match goal with
  | |- context [BTree.on_disk (VirtualDisk.writePage id ?p) bt1] =>
      destruct (on_disk_writePage id p bt1) as (bt2 & E2 & S2);
      exists bt2, p
  end.
  split; [exact E2|]. split; [eapply unchanged_stored; eassumption|].
  assert (Hnew : cell_ok (key, value))
    by (apply cell_ok_new; [assumption|consts; lia]).
  split; [now apply Forall_cell_ok_insert|]. split; [exact Hpar|].
  exists (zeros (4089 - byteLength (cells_bytes upto) - 4 - 4 - byteLength value
                 - byteLength (cells_bytes after))).
  split.
  - unfold leaf_page. rewrite length_insert_by_key.
    replace (Z.of_nat (S (length cs))) with (n + 1) by (unfold n; lia).
    rewrite insert_by_key_split. fold upto after.
    rewrite cells_bytes_app, cells_bytes_cons. unfold cell_bytes. cbn [fst snd].
    now rewrite <- !app_assoc.
  - rewrite !byteLength_app, byteLength_header, byteLength_zeros by lia.
    consts. blia.
Qed.

(** *** [delete], once the leaf is found *)

Lemma delete_in_leaf (fuel : nat) (key : Z) (bt bt1 : BTree)
    (leafId parent : Z) (cs : list cell) :
  BTree.findLeafPage fuel (rootPageId bt) key bt = (bt1, Ok leafId) ->
  unchanged bt bt1 ->
  is_leaf (page_of (disk bt) leafId) parent cs ->
  if has_key key cs
  then exists bt' page',
         BTree.delete fuel key bt = (bt', Ok tt)
         /\ stored leafId page' bt bt'
         /\ is_leaf page' parent (without_key key cs)
  else exists bt',
         BTree.delete fuel key bt = (bt', Err (KeyNotFound key))
         /\ unchanged bt bt'.
Proof.
  intros Hfind U1 H.
  rewrite <- (unchanged_page_of _ _ leafId U1) in H.
  pose proof (is_leaf_parent _ _ _ H) as Hparent.
  pose proof (is_leaf_numCells _ _ _ H) as HnumCells.
  pose proof (is_leaf_size _ _ _ H) as [Hsize Hcount].
  destruct H as (Hok & Hpar & tail & Hpage & Hlen).
  pose proof (byteLength_without_key key cs) as Hle.
  pose proof (byteLength_nonneg (cells_bytes (without_key key cs))) as Hge.
  destruct (has_key key cs) eqn:Hhas;
    unfold BTree.delete; rewrite bind_root;
    unfold bind at 1; rewrite Hfind;
    match goal with
    | |- context [bind (BTree.on_disk (VirtualDisk.readPage leafId)) ?k bt1] =>
        destruct (bind_readPage leafId k bt1) as (bt2 & E & U2)
    end;
    rewrite E, bind_lift, HnumCells, Nat2Z.id; clear E;
    consts; rewrite bind_lift;
    rewrite (setUint8_mid_at (zeros 4096) [] (zeros 4095) 0 1 0) by reflexivity;
    cbn [app]; rewrite bind_lift;
    rewrite (delete_loop_at key cs (page_of (disk bt1) leafId)
               (header 1 (Z.of_nat (length cs)) parent) tail
               (1 mod 256 :: zeros 4095) ([1] ++ zeros 6) 4089 7 7 (length cs)
               false 0 Hok Hpage eq_refl ltac:(lia) ltac:(lia)
               eq_refl eq_refl eq_refl);
    rewrite Hhas; cbn [orb].
  - rewrite bind_lift.
    rewrite (setUint16_mid_at _ [1] (zeros 2)
               (zeros 4 ++ cells_bytes (without_key key cs)
                ++ zeros (4089 - byteLength (cells_bytes (without_key key cs))))
               (0 + Z.of_nat (length (without_key key cs))) 1)
      by reflexivity.
    rewrite bind_lift, Hparent, bind_lift.
    rewrite (setUint32_mid_at _
               ([1] ++ be16 (0 + Z.of_nat (length (without_key key cs))))
               (zeros 4)
               (cells_bytes (without_key key cs)
                ++ zeros (4089 - byteLength (cells_bytes (without_key key cs))))
               parent 3)
      by reflexivity.
    match goal with
    | |- context [BTree.on_disk (VirtualDisk.writePage leafId ?p) bt2] =>
        destruct (on_disk_writePage leafId p bt2) as (bt3 & E3 & S3);
        exists bt3, p
    end.
    split; [exact E3|].
    split; [eapply unchanged_stored; [|exact S3]; eauto using unchanged_trans|].
    split; [now apply Forall_cell_ok_without|]. split; [exact Hpar|].
    eexists. split.
    + unfold leaf_page, header. rewrite Z.add_0_l, <- !app_assoc. reflexivity.
    + rewrite !byteLength_app, byteLength_zeros by lia.
      rewrite byteLength_be16, byteLength_be32.
      change (byteLength [1]) with 1. consts. lia.
  - exists bt2. split; [reflexivity|]. eauto using unchanged_trans.
Qed.

(** *** [writeCellsToLeaf] and [createGenericRoot] *)

Lemma bind_lift_lift {S A B C} (r : result A) (f : A -> result B)
    (k : B -> M S C) (s : S) :
  bind (lift r) (fun a => bind (lift (f a)) k) s
  = bind (lift (rbind r f)) k s.
Proof. unfold bind, lift, rbind. now destruct r. Qed.

Definition fits_leaf (cells : list cell) : bool :=
  HEADER_SIZE + byteLength (cells_bytes cells) <=? PAGE_SIZE.

Definition built_leaf (cells : list cell) : bytes :=
  leaf_page 0 cells
    (zeros (PAGE_SIZE - HEADER_SIZE - byteLength (cells_bytes cells))).

Lemma writeCellsToLeaf_spec (id : Z) (cells : list cell) (bt : BTree) :
  if fits_leaf cells
  then exists bt', BTree.writeCellsToLeaf id cells bt = (bt', Ok tt)
                   /\ stored id (built_leaf cells) bt bt'
  else BTree.writeCellsToLeaf id cells bt = (bt, Err RangeError).
Proof.
  unfold BTree.writeCellsToLeaf, fits_leaf, built_leaf.
  rewrite bind_lift_lift.
  rewrite (bind_lift_lift
             (' p1 <~ setUint8 (zeros PAGE_SIZE) OFF_TYPE NODE_LEAF;
              setUint16 p1 OFF_NUM_CELLS (Z.of_nat (length cells)))
             (fun p2 => BTree.write_cells p2 cells HEADER_SIZE)).
  replace (rbind _ _) with
    (' p1 <~ setUint8 (zeros PAGE_SIZE) OFF_TYPE NODE_LEAF;
     ' p2 <~ setUint16 p1 OFF_NUM_CELLS (Z.of_nat (length cells));
     BTree.write_cells p2 cells HEADER_SIZE)
    by (now destruct (setUint8 (zeros PAGE_SIZE) OFF_TYPE NODE_LEAF)).
  rewrite leaf_page_built, bind_lift.
  destruct (HEADER_SIZE + byteLength (cells_bytes cells) <=? PAGE_SIZE);
    [|reflexivity].
  apply on_disk_writePage.
Qed.

Definition built_root (key leftChildId rightChildId : Z) : bytes :=
  internal_page 0 leftChildId [(key, rightChildId)]
    (zeros (PAGE_SIZE - HEADER_SIZE - 4 - 8)).

Lemma root_page_built (key leftChildId rightChildId : Z) :
  (' p1 <~ setUint8 (zeros PAGE_SIZE) OFF_TYPE NODE_INTERNAL;
   ' p2 <~ setUint16 p1 OFF_NUM_CELLS 1;
   ' p3 <~ setUint32 p2 OFF_PARENT 0;
   ' p4 <~ setUint32 p3 HEADER_SIZE leftChildId;
   ' p5 <~ setUint32 p4 (HEADER_SIZE + 4) key;
   setUint32 p5 (HEADER_SIZE + 4 + 4) rightChildId)
  = Ok (built_root key leftChildId rightChildId).
Proof.
  consts. rewrite (zeros_cons 4096) by lia.
  rewrite (setUint8_mid_at _ [] (zeros (4096 - 1)) 0 0 0) by reflexivity.
  cbn [rbind app]. change (4096 - 1) with (2 + (4 + (4 + (4 + (4 + 4077))))).
  rewrite !zeros_split by lia.
  rewrite (setUint16_mid_at _ [0 mod 256] (zeros 2)
             (zeros 4 ++ zeros 4 ++ zeros 4 ++ zeros 4 ++ zeros 4077) 1 1)
    by reflexivity.
  cbn [rbind].
  rewrite (setUint32_mid_at _ ([0 mod 256] ++ be16 1) (zeros 4)
             (zeros 4 ++ zeros 4 ++ zeros 4 ++ zeros 4077) 0 3)
    by (reflexivity || now rewrite <- app_assoc).
  cbn [rbind].
  rewrite (setUint32_mid_at _ (([0 mod 256] ++ be16 1) ++ be32 0) (zeros 4)
             (zeros 4 ++ zeros 4 ++ zeros 4077) leftChildId 7)
    by (reflexivity || now rewrite <- app_assoc).
  cbn [rbind].
  rewrite (setUint32_mid_at _
             ((([0 mod 256] ++ be16 1) ++ be32 0) ++ be32 leftChildId) (zeros 4)
             (zeros 4 ++ zeros 4077) key 11)
    by (reflexivity || now rewrite <- app_assoc).
  cbn [rbind].
  rewrite (setUint32_mid_at _
             (((([0 mod 256] ++ be16 1) ++ be32 0) ++ be32 leftChildId)
              ++ be32 key) (zeros 4) (zeros 4077) rightChildId 15)
    by (reflexivity || now rewrite <- app_assoc).
  unfold built_root, internal_page, header, items_bytes, item_bytes. consts.
  cbn [map concat fst snd length]. rewrite <- !app_assoc. reflexivity.
Qed.

Lemma built_root_is_internal (key leftChildId rightChildId : Z) :
  key_ok key -> 0 <= leftChildId < 4294967296 ->
  0 <= rightChildId < 4294967296 ->
  is_internal (built_root key leftChildId rightChildId) 0 leftChildId
    [(key, rightChildId)].
Proof.
  intros Hk Hl Hr. split; [|split; [|split]].
  - constructor; [|constructor]. split; assumption.
  - lia.
  - assumption.
  - eexists. split; [reflexivity|].
    unfold built_root, internal_page.
    rewrite !byteLength_app, byteLength_header, byteLength_be32,
      byteLength_items_bytes, byteLength_zeros by (consts; lia).
    cbn [length]. consts. lia.
Qed.

Lemma on_disk_setMetadata (key : string) (v : MetaValue) (bt : BTree) :
  exists bt', BTree.on_disk (VirtualDisk.setMetadata key v) bt = (bt', Ok tt)
              /\ rootPageId bt' = rootPageId bt
              /\ metadata_of (disk bt') key = Some v
              /\ maxPageId (disk bt') = maxPageId (disk bt)
              /\ (forall id, page_of (disk bt') id = page_of (disk bt) id).
Proof.
  unfold BTree.on_disk.
  destruct (setMetadata_spec key v (disk bt)) as (d' & E & H1 & _ & H3 & _ & H5).
  rewrite E. eexists. split; [reflexivity|]. repeat split; assumption.
Qed.

Lemma createGenericRoot_spec (key leftChildId rightChildId : Z) (bt : BTree) :
  exists bt',
    BTree.createGenericRoot key leftChildId rightChildId bt = (bt', Ok tt)
    /\ rootPageId bt' = maxPageId (disk bt) + 1
    /\ maxPageId (disk bt') = maxPageId (disk bt) + 1
    /\ page_of (disk bt') (maxPageId (disk bt) + 1)
       = built_root key leftChildId rightChildId
    /\ (forall id, id <> maxPageId (disk bt) + 1 ->
          page_of (disk bt') id = page_of (disk bt) id)
    /\ metadata_of (disk bt') "root"
       = Some (MetaNumber (maxPageId (disk bt) + 1)).
Proof.
  unfold BTree.createGenericRoot.
  destruct (on_disk_allocatePage bt) as (bt1 & E1 & R1 & M1 & P1 & _).
  unfold bind at 1. rewrite E1.
  do 4 rewrite bind_lift_lift.
  match goal with
  | |- context [bind (lift (rbind ?r ?f)) ?k bt1] =>
      replace (rbind r f) with
        (' p1 <~ setUint8 (zeros PAGE_SIZE) OFF_TYPE NODE_INTERNAL;
         ' p2 <~ setUint16 p1 OFF_NUM_CELLS 1;
         ' p3 <~ setUint32 p2 OFF_PARENT 0;
         ' p4 <~ setUint32 p3 HEADER_SIZE leftChildId;
         setUint32 p4 (HEADER_SIZE + 4) key)
        by reflexivity
  end.
  rewrite bind_lift_lift.
  match goal with
  | |- context [bind (lift (rbind ?r ?f)) ?k bt1] =>
      replace (rbind r f) with (Ok (built_root key leftChildId rightChildId))
        by (rewrite <- (root_page_built key leftChildId rightChildId);
            reflexivity)
  end.
  rewrite bind_lift.
  destruct (on_disk_writePage (maxPageId (disk bt) + 1)
              (built_root key leftChildId rightChildId) bt1)
    as (bt2 & E2 & R2 & P2 & O2 & M2 & M2' & _).
  unfold bind at 1. rewrite E2.
  unfold bind at 1, BTree.set_root at 1.
  set (bt3 := {| disk := disk bt2; rootPageId := maxPageId (disk bt) + 1 |}).
  destruct (on_disk_setMetadata "root" (MetaNumber (maxPageId (disk bt) + 1)) bt3)
    as (bt4 & E4 & R4 & Md4 & M4 & P4).
  exists bt4. split; [exact E4|]. subst bt3. cbn [disk rootPageId] in *.
  repeat split.
  - exact R4.
  - lia.
  - rewrite P4. exact P2.
  - intros id Hne. rewrite P4, (O2 id Hne). apply P1.
  - exact Md4.
Qed.

(** *** [insertIntoInternal] *)

(** Nothing but page [id] and the counter may differ. *)
Definition touched (id : Z) (bt bt' : BTree) : Prop :=
  rootPageId bt' = rootPageId bt
  /\ (forall id', id' <> id -> page_of (disk bt') id' = page_of (disk bt) id')
  /\ maxPageId (disk bt) <= maxPageId (disk bt')
  /\ (maxPageId (disk bt') = maxPageId (disk bt) \/ maxPageId (disk bt') = id)
  /\ (forall k, metadata_of (disk bt') k = metadata_of (disk bt) k).

Lemma stored_touched (id : Z) (page : bytes) (bt bt' : BTree) :
  stored id page bt bt' -> touched id bt bt'.
Proof. intros (R & _ & O & M1 & M2 & Md). repeat split; assumption. Qed.

Lemma unchanged_touched (id : Z) (bt bt' : BTree) :
  unchanged bt bt' -> touched id bt bt'.
Proof.
  intros U. pose proof (unchanged_maxPageId _ _ U) as Hm. repeat split.
  - apply U.
  - intros id' _. now apply unchanged_page_of.
  - lia.
  - now left.
  - intros k. now apply unchanged_metadata_of.
Qed.



Lemma insertIntoInternal_touches (pageId key rightChildId : Z) (bt bt' : BTree)
    (r : result unit) :
  BTree.insertIntoInternal pageId key rightChildId bt = (bt', r) ->
  touched pageId bt bt'.
Proof.
  unfold BTree.insertIntoInternal.
  match goal with
  | |- context [bind (BTree.on_disk (VirtualDisk.readPage pageId)) ?k bt] =>
      destruct (bind_readPage pageId k bt) as (bt1 & E & U1)
  end.
  rewrite E. clear E.
  pose proof (unchanged_touched pageId _ _ U1) as T1.
  repeat (rewrite bind_lift;
          match goal with
          | |- context [match ?x with Ok _ => _ | Err _ => _ end] =>
              destruct x; [|now intros [= <- _]]
          end;
          try match goal with
              | |- context [if ?c then throw _ else _] =>
                  destruct c; [now intros [= <- _]|]
              end).
  match goal with
  | |- context [BTree.on_disk (VirtualDisk.writePage pageId ?p) bt1] =>
      destruct (on_disk_writePage pageId p bt1) as (bt2 & E2 & S2)
  end.
  rewrite E2. intros [= <- _].
  apply (stored_touched _ _ _ _ (unchanged_stored _ _ _ _ _ U1 S2)).
Qed.

(** *** [splitLeaf] *)

Lemma splitLeaf_spec (id key : Z) (value : bytes) (bt : BTree)
    (parent : Z) (cs : list cell) :
  is_leaf (page_of (disk bt) id) parent cs ->
  id <= maxPageId (disk bt) ->
  let cells := sort_by_key (cs ++ [(key, value)]) in
  let mid := Z.to_nat (Z.of_nat (length cells) / 2) in
  let newId := maxPageId (disk bt) + 1 in
  if fits_leaf (firstn mid cells) && fits_leaf (skipn mid cells)
  then
    exists bt2,
      BTree.splitLeaf id key value bt
      = (if id =? rootPageId bt
         then BTree.createGenericRoot (fst (nth mid cells (0, []))) id newId
         else BTree.insertIntoInternal parent (fst (nth mid cells (0, []))) newId)
          bt2
      /\ rootPageId bt2 = rootPageId bt
      /\ maxPageId (disk bt2) = newId
      /\ page_of (disk bt2) id = built_leaf (firstn mid cells)
      /\ page_of (disk bt2) newId = built_leaf (skipn mid cells)
      /\ (forall id', id' <> id -> id' <> newId ->
            page_of (disk bt2) id' = page_of (disk bt) id')
      /\ (forall k, metadata_of (disk bt2) k = metadata_of (disk bt) k)
  else
    exists bt', BTree.splitLeaf id key value bt = (bt', Err RangeError).
Proof.
  intros H Hid cells mid newId.
  assert (Erun : BTree.splitLeaf id key value bt
                 = BTree.splitLeaf id key value bt) by reflexivity.
  unfold BTree.splitLeaf at 2 in Erun.
  match type of Erun with
  | context [bind (BTree.on_disk (VirtualDisk.readPage id)) ?k bt] =>
      destruct (bind_readPage id k bt) as (bt1 & E & U1)
  end.
  rewrite E in Erun. clear E.
  rewrite bind_lift, (is_leaf_numCells _ _ _ H), Nat2Z.id in Erun.
  rewrite bind_lift, (is_leaf_read_cells _ _ _ H) in Erun.
  fold cells in Erun.
  destruct (on_disk_allocatePage bt1) as (bt2 & E2 & R2 & M2 & P2 & Md2).
  unfold bind at 1 in Erun. rewrite E2 in Erun. clear E2.
  rewrite (unchanged_maxPageId _ _ U1) in *. fold newId in Erun, M2.
  fold mid in Erun.
  assert (Hmid : (mid < length cells)%nat).
  { unfold mid, cells. rewrite length_sort_by_key, length_app. cbn [length].
    apply Nat2Z.inj_lt. rewrite Z2Nat.id by (apply Z.div_pos; lia).
    apply Z.div_lt_upper_bound; lia. }
  destruct (nth_error cells mid) as [midCell|] eqn:Emid;
    [|apply nth_error_None in Emid; lia].
  rewrite (List.nth_error_nth _ _ (0, []) Emid).
  pose proof (writeCellsToLeaf_spec id (firstn mid cells) bt2) as Hleft.
  destruct (fits_leaf (firstn mid cells)); cbn [andb].
  2:{ exists bt2. rewrite Erun. unfold bind at 1. now rewrite Hleft. }
  destruct Hleft as (bt3 & E3 & R3 & P3 & O3 & M3 & M3' & Md3).
  unfold bind at 1 in Erun. rewrite E3 in Erun. clear E3.
  pose proof (writeCellsToLeaf_spec newId (skipn mid cells) bt3) as Hright.
  destruct (fits_leaf (skipn mid cells)).
  2:{ exists bt3. rewrite Erun. unfold bind at 1. now rewrite Hright. }
  destruct Hright as (bt4 & E4 & R4 & P4 & O4 & M4 & M4' & Md4).
  unfold bind at 1 in Erun. rewrite E4 in Erun. clear E4.
  rewrite bind_lift, (is_leaf_parent _ _ _ H), bind_root in Erun.
  exists bt4. split.
  - rewrite Erun. replace (rootPageId bt4) with (rootPageId bt);
      [reflexivity|]. destruct U1 as [R1 _]. congruence.
  - destruct U1 as [R1 O1]. repeat split.
    + congruence.
    + lia.
    + rewrite O4 by (unfold newId; lia). exact P3.
    + exact P4.
    + intros id' Hne1 Hne2. rewrite O4, O3, P2 by assumption.
      now apply only_read_page_of.
    + intros k. rewrite Md4, Md3, Md2.
      apply unchanged_metadata_of. now split.
Qed.

(** ** The trees that insertions and deletions build *)

(** Keys in strictly ascending order. *)
Definition strictly_ascending (cs : list cell) : Prop :=
  StronglySorted Z.lt (map fst cs).

Lemma In_insert_by_key {A} (x y : Z * A) (l : list (Z * A)) :
  In y (insert_by_key x l) <-> y = x \/ In y l.
Proof.
  induction l as [|z l IH]; cbn; [intuition congruence|].
  destruct (fst z <=? fst x); cbn; rewrite ?IH; intuition congruence.
Qed.

Lemma has_key_false (key : Z) (cs : list cell) :
  has_key key cs = false <-> forall c, In c cs -> fst c <> key.
Proof.
  unfold has_key. induction cs as [|c cs IH]; cbn; [intuition|].
  rewrite orb_false_iff, IH, Z.eqb_neq. split.
  - intros [Hc Hcs] c' [<-|Hin]; auto.
  - intros H. split; [apply H; now left|]. intros c' Hin. apply H. now right.
Qed.

Lemma has_key_true (key : Z) (cs : list cell) :
  has_key key cs = true <-> exists c, In c cs /\ fst c = key.
Proof.
  unfold has_key. rewrite existsb_exists. split; intros (c & Hin & Hk);
    exists c; (split; [assumption|]); now apply Z.eqb_eq.
Qed.

Lemma strictly_ascending_insert (key : Z) (v : bytes) (cs : list cell) :
  strictly_ascending cs -> has_key key cs = false ->
  strictly_ascending (insert_by_key (key, v) cs).
Proof.
  unfold strictly_ascending. intros Hs Hk. rewrite has_key_false in Hk.
  induction cs as [|c cs IH]; cbn.
  - repeat constructor.
  - inversion Hs as [|? ? Hs' Hall]; subst.
    assert (Hc : fst c <> key) by (apply Hk; now left).
    destruct (Z.leb_spec (fst c) key); cbn.
    + constructor.
      * apply IH; [assumption|]. intros c' Hin. apply Hk. now right.
      * rewrite List.Forall_forall in *. intros k Hin.
        apply in_map_iff in Hin as (y & <- & Hy).
        apply In_insert_by_key in Hy as [->|Hy]; [cbn; lia|].
        apply Hall. now apply in_map.
    + constructor; [exact Hs|]. constructor; [cbn; lia|].
      eapply Forall_impl; [exact Hall|]. cbn. intros; lia.
Qed.

Lemma strictly_ascending_ascending (cs : list cell) :
  strictly_ascending cs -> ascending cs.
Proof.
  unfold strictly_ascending, ascending.
  induction 1 as [|k l Hs IH Hall]; constructor; [assumption|].
  eapply Forall_impl; [exact Hall|]. cbn. intros; lia.
Qed.

Lemma sort_after_append (key : Z) (v : bytes) (cs : list cell) :
  strictly_ascending cs ->
  sort_by_key (cs ++ [(key, v)]) = insert_by_key (key, v) cs.
Proof.
  intros Hs. rewrite sort_by_key_snoc.
  now rewrite (sort_by_key_ascending cs (strictly_ascending_ascending _ Hs)).
Qed.

Lemma strictly_ascending_app (l1 l2 : list cell) :
  strictly_ascending (l1 ++ l2) ->
  strictly_ascending l1 /\ strictly_ascending l2
  /\ (forall x y, In x l1 -> In y l2 -> fst x < fst y).
Proof.
  unfold strictly_ascending. induction l1 as [|c l1 IH]; cbn; intros Hs.
  - repeat split; [constructor|assumption|intros ? ? []].
  - inversion Hs as [|? ? Hs' Hall]; subst.
    destruct (IH Hs') as (H1 & H2 & H3).
    rewrite map_app, Forall_app in Hall. destruct Hall as [Ha1 Ha2].
    repeat split; [now constructor|assumption|].
    intros x y [<-|Hx] Hy; [|now apply H3].
    rewrite List.Forall_forall in Ha2. apply Ha2. now apply in_map.
Qed.

Lemma app_strictly_ascending (l1 l2 : list cell) :
  strictly_ascending l1 -> strictly_ascending l2 ->
  (forall x y, In x l1 -> In y l2 -> fst x < fst y) ->
  strictly_ascending (l1 ++ l2).
Proof.
  unfold strictly_ascending. induction l1 as [|c l1 IH]; cbn; intros H1 H2 H3;
    [assumption|].
  inversion H1 as [|? ? Hs' Hall]; subst. constructor.
  - apply IH; [assumption|assumption|]. intros x y Hx Hy. apply H3; auto.
  - rewrite map_app, Forall_app. split; [assumption|].
    rewrite List.Forall_forall. intros k Hk.
    apply in_map_iff in Hk as (y & <- & Hy). apply H3; auto.
Qed.

Lemma strictly_ascending_without (key : Z) (cs : list cell) :
  strictly_ascending cs -> strictly_ascending (without_key key cs).
Proof.
  unfold strictly_ascending, without_key.
  induction cs as [|c cs IH]; cbn; intros Hs; [constructor|].
  inversion Hs as [|? ? Hs' Hall]; subst.
  destruct (negb (fst c =? key)); cbn; [|now apply IH].
  constructor; [now apply IH|].
  rewrite List.Forall_forall in *. intros k Hk.
  apply in_map_iff in Hk as (y & <- & Hy). apply List.filter_In in Hy as [Hy _].
  apply Hall. now apply in_map.
Qed.

Lemma has_key_without (key : Z) (cs : list cell) :
  has_key key (without_key key cs) = false.
Proof.
  apply has_key_false. intros c Hin. unfold without_key in Hin.
  apply List.filter_In in Hin as [_ Hc]. apply negb_true_iff in Hc.
  now apply Z.eqb_neq.
Qed.

Lemma lookup_cell_none (key : Z) (cs : list cell) :
  has_key key cs = false -> lookup_cell key cs = None.
Proof.
  unfold has_key. induction cs as [|c cs IH]; cbn; [reflexivity|].
  intros H. apply orb_false_iff in H as [Hc Hcs]. rewrite Hc. auto.
Qed.


(** The shapes of the trees: one leaf, or a root with one separator
    over two leaves. *)
Inductive tree_shape : Type :=
  | OneLeaf (cs : list cell)
  | TwoLeaves (a s b : Z) (ca cb : list cell).

Definition contents (t : tree_shape) : list cell :=
  match t with
  | OneLeaf cs => cs
  | TwoLeaves _ _ _ ca cb => ca ++ cb
  end.

(** The leaf that a key is looked for in, and its cells. *)
Definition leaf_for (t : tree_shape) (r key : Z) : Z :=
  match t with
  | OneLeaf _ => r
  | TwoLeaves a s b _ _ => if key <? s then a else b
  end.

Definition cells_for (t : tree_shape) (key : Z) : list cell :=
  match t with
  | OneLeaf cs => cs
  | TwoLeaves _ s _ ca cb => if key <? s then ca else cb
  end.

Definition represents (bt : BTree) (t : tree_shape) : Prop :=
  let d := disk bt in
  let r := rootPageId bt in
  match t with
  | OneLeaf cs =>
      is_leaf (page_of d r) 0 cs /\ strictly_ascending cs
      /\ 1 <= r <= maxPageId d /\ maxPageId d + 2 < 4294967296
  | TwoLeaves a s b ca cb =>
      is_internal (page_of d r) 0 a [(s, b)]
      /\ is_leaf (page_of d a) 0 ca /\ is_leaf (page_of d b) 0 cb
      /\ strictly_ascending ca /\ strictly_ascending cb
      /\ (forall c, In c ca -> fst c < s) /\ (forall c, In c cb -> s <= fst c)
      /\ 1 <= a <= maxPageId d /\ 1 <= b <= maxPageId d
      /\ 1 <= r <= maxPageId d
      /\ a <> b /\ a <> r /\ b <> r
  end.

Lemma represents_unchanged (bt bt' : BTree) (t : tree_shape) :
  represents bt t -> unchanged bt bt' -> represents bt' t.
Proof.
  intros H U. pose proof (unchanged_maxPageId _ _ U) as Hm.
  assert (Hp : forall id, page_of (disk bt') id = page_of (disk bt) id)
    by (intros id; now apply unchanged_page_of).
  destruct U as [R _].
  destruct t; cbn in *; rewrite R, Hm, !Hp; exact H.
Qed.

Lemma contents_strictly_ascending (bt : BTree) (t : tree_shape) :
  represents bt t -> strictly_ascending (contents t).
Proof.
  destruct t as [cs|a s b ca cb]; cbn.
  - intros H. apply H.
  - intros (_ & _ & _ & Ha & Hb & Hlt & Hge & _).
    apply app_strictly_ascending; [assumption|assumption|].
    intros x y Hx Hy. specialize (Hlt x Hx). specialize (Hge y Hy). lia.
Qed.

Lemma represents_leaf (bt : BTree) (t : tree_shape) (key : Z) :
  represents bt t ->
  is_leaf (page_of (disk bt) (leaf_for t (rootPageId bt) key)) 0
    (cells_for t key)
  /\ strictly_ascending (cells_for t key).
Proof.
  destruct t as [cs|a s b ca cb]; cbn.
  - intros H. split; apply H.
  - intros (_ & Ha & Hb & Hsa & Hsb & _). now destruct (key <? s).
Qed.

Lemma getAll_represents (fuel : nat) (bt : BTree) (t : tree_shape) :
  represents bt t -> (2 <= fuel)%nat ->
  exists bt', BTree.getAll fuel bt = (bt', Ok (contents t)) /\ unchanged bt bt'.
Proof.
  intros H Hfuel. destruct fuel as [|[|fuel]]; try lia.
  unfold BTree.getAll. rewrite bind_root.
  destruct t as [cs|a s b ca cb]; cbn [represents contents] in *.
  - destruct H as (Hl & _). now apply (traverse_leaf _ _ _ 0).
  - destruct H as (Hr & Ha & Hb & _).
    now apply (traverse_two_leaves _ _ _ 0 a s b 0 0).
Qed.

Lemma findLeafPage_represents (fuel : nat) (bt : BTree) (t : tree_shape)
    (key : Z) :
  represents bt t -> (2 <= fuel)%nat ->
  exists bt', BTree.findLeafPage fuel (rootPageId bt) key bt
              = (bt', Ok (leaf_for t (rootPageId bt) key))
              /\ unchanged bt bt'.
Proof.
  intros H Hfuel. destruct fuel as [|[|fuel]]; try lia.
  destruct t as [cs|a s b ca cb]; cbn [represents leaf_for] in *.
  - destruct H as (Hl & _). now apply (findLeafPage_leaf _ _ _ _ 0 cs).
  - destruct H as (Hr & Ha & Hb & _).
    destruct (findLeafPage_internal (S fuel) (rootPageId bt) key bt 0 a [(s, b)] Hr)
      as (bt1 & E1 & U1).
    rewrite E1. cbn [route fst snd].
    assert (Hc : exists cc,
               is_leaf (page_of (disk bt1) (if key <? s then a else b)) 0 cc).
    { destruct (key <? s); eexists; rewrite (unchanged_page_of _ _ _ U1);
        eassumption. }
    destruct Hc as (cc & Hc).
    destruct (findLeafPage_leaf fuel _ key bt1 0 cc Hc) as (bt2 & E2 & U2).
    exists bt2. split; [exact E2|]. eauto using unchanged_trans.
Qed.

Lemma search_represents (fuel : nat) (bt : BTree) (t : tree_shape) (key : Z) :
  represents bt t -> (2 <= fuel)%nat ->
  exists bt', BTree.search fuel key bt
              = (bt', Ok (lookup_cell key (cells_for t key)))
              /\ unchanged bt bt'.
Proof.
  intros H Hfuel. unfold BTree.search. rewrite bind_root.
  destruct (findLeafPage_represents fuel bt t key H Hfuel) as (bt1 & E1 & U1).
  unfold bind at 1. rewrite E1.
  destruct (represents_leaf bt t key H) as [Hl _].
  rewrite <- (unchanged_page_of _ _ _ U1) in Hl.
  destruct (findInLeaf_spec _ key bt1 0 _ Hl) as (bt2 & E2 & U2).
  exists bt2. split; [exact E2|]. eauto using unchanged_trans.
Qed.

(** *** Insertion *)

Ltac splits := repeat match goal with |- _ /\ _ => split end.

Lemma fits_leaf_true (cells : list cell) :
  fits_leaf cells = true ->
  HEADER_SIZE + byteLength (cells_bytes cells) <= PAGE_SIZE.
Proof. unfold fits_leaf. apply Z.leb_le. Qed.

Lemma built_leaf_is_leaf (cells : list cell) :
  Forall cell_ok cells -> fits_leaf cells = true ->
  is_leaf (built_leaf cells) 0 cells.
Proof.
  intros Hok Hfit. apply leaf_page_is_leaf; [|now apply fits_leaf_true].
  eapply Forall_impl; [exact Hok|]. now intros c [Hk _].
Qed.

(** The two halves of a split and the separator. *)
Lemma split_halves (cells : list cell) (mid : nat) :
  strictly_ascending cells -> (mid < length cells)%nat ->
  let sep := fst (nth mid cells (0, [])) in
  strictly_ascending (firstn mid cells)
  /\ strictly_ascending (skipn mid cells)
  /\ (forall c, In c (firstn mid cells) -> fst c < sep)
  /\ (forall c, In c (skipn mid cells) -> sep <= fst c)
  /\ In (nth mid cells (0, [])) cells.
Proof.
  intros Hs Hmid sep.
  destruct (nth_error cells mid) as [x|] eqn:Ex;
    [|apply nth_error_None in Ex; lia].
  assert (Hx : nth mid cells (0, []) = x) by now apply List.nth_error_nth.
  destruct (List.nth_error_split _ _ Ex) as (l1 & l2 & Hcells & Hlen).
  assert (Hfirst : firstn mid cells = l1)
    by (subst cells mid; apply take_app_length).
  assert (Hskip : skipn mid cells = x :: l2)
    by (subst cells mid; apply drop_app_length).
  unfold sep. rewrite Hx, Hfirst, Hskip. rewrite Hcells in Hs.
  destruct (strictly_ascending_app _ _ Hs) as (H1 & H2 & H3).
  repeat split; try assumption.
  - intros c Hc. apply (H3 c x Hc). now left.
  - intros c [Heq|Hc]; [rewrite <- Heq; lia|].
    unfold strictly_ascending in H2. cbn in H2.
    apply StronglySorted_inv in H2 as [_ Hall].
    rewrite List.Forall_forall in Hall.
    assert (fst x < fst c) by (apply Hall; now apply in_map). lia.
  - rewrite Hcells. apply in_or_app. right. now left.
Qed.

Lemma In_firstn {A} (x : A) (n : nat) (l : list A) :
  In x (firstn n l) -> In x l.
Proof.
  intros H. rewrite <- (firstn_skipn n l). apply in_or_app. now left.
Qed.

Lemma In_skipn {A} (x : A) (n : nat) (l : list A) :
  In x (skipn n l) -> In x l.
Proof.
  intros H. rewrite <- (firstn_skipn n l). apply in_or_app. now right.
Qed.

Lemma Forall_firstn {A} (P : A -> Prop) (n : nat) (l : list A) :
  Forall P l -> Forall P (firstn n l).
Proof.
  rewrite !List.Forall_forall. intros H x Hx. apply H.
  now apply In_firstn in Hx.
Qed.

Lemma Forall_skipn {A} (P : A -> Prop) (n : nat) (l : list A) :
  Forall P l -> Forall P (skipn n l).
Proof.
  rewrite !List.Forall_forall. intros H x Hx. apply H.
  now apply In_skipn in Hx.
Qed.

Lemma mid_lt_length (n : nat) :
  (0 < n)%nat -> (Z.to_nat (Z.of_nat n / 2) < n)%nat.
Proof.
  intros Hn. apply Nat2Z.inj_lt. rewrite Z2Nat.id by (apply Z.div_pos; lia).
  apply Z.div_lt_upper_bound; lia.
Qed.

(** A leaf that is not the root takes a cell: it holds the cell and
    its own, or, after a split, the lower half of them. *)
Lemma insertIntoLeaf_below_root (c key : Z) (value : bytes) (bt bt' : BTree)
    (cc : list cell) :
  is_leaf (page_of (disk bt) c) 0 cc -> strictly_ascending cc ->
  key_ok key -> 1 <= c <= maxPageId (disk bt) -> c <> rootPageId bt ->
  BTree.insertIntoLeaf c key value bt = (bt', Ok tt) ->
  exists cc',
    is_leaf (page_of (disk bt') c) 0 cc' /\ strictly_ascending cc'
    /\ (forall x, In x cc' -> In x cc \/ fst x = key)
    /\ rootPageId bt' = rootPageId bt
    /\ maxPageId (disk bt) <= maxPageId (disk bt')
    /\ (forall id, id <> c -> 1 <= id <= maxPageId (disk bt) ->
          page_of (disk bt') id = page_of (disk bt) id).
Proof.
  intros Hl Hs Hkey Hc Hroot Hrun.
  destruct (has_key key cc) eqn:Hdup.
  { destruct (insertIntoLeaf_duplicate c key value bt 0 cc Hl Hdup)
      as (bt1 & E & _). rewrite E in Hrun. discriminate. }
  destruct (Z.le_gt_cases
              (HEADER_SIZE + byteLength (cells_bytes cc) + (8 + byteLength value))
              PAGE_SIZE) as [Hfit|Hfull].
  - destruct (insertIntoLeaf_fits c key value bt 0 cc Hl Hdup Hkey Hfit)
      as (bt1 & page' & E & (R & P & O & M1 & M2 & _) & Hl').
    rewrite E in Hrun. injection Hrun as <-.
    exists (insert_by_key (key, value) cc). splits.
    + now rewrite P.
    + now apply strictly_ascending_insert.
    + intros x Hx. apply In_insert_by_key in Hx as [->|Hx]; auto.
    + exact R.
    + exact M1.
    + intros id Hne _. now apply O.
  - destruct (insertIntoLeaf_full c key value bt 0 cc Hl Hdup Hfull)
      as (bt1 & E & U1).
    rewrite E in Hrun. clear E.
    pose proof (unchanged_maxPageId _ _ U1) as Hm1.
    assert (Hl1 : is_leaf (page_of (disk bt1) c) 0 cc)
      by now rewrite (unchanged_page_of _ _ _ U1).
    pose proof (splitLeaf_spec c key value bt1 0 cc Hl1 ltac:(lia)) as Hsplit.
    cbv zeta in Hsplit. rewrite (sort_after_append key value cc Hs) in Hsplit.
    set (cells := insert_by_key (key, value) cc) in *.
    set (mid := Z.to_nat (Z.of_nat (length cells) / 2)) in *.
    destruct (fits_leaf (firstn mid cells)) eqn:Hf1;
      [|destruct Hsplit as (bt2 & E2); rewrite E2 in Hrun; discriminate].
    destruct (fits_leaf (skipn mid cells)) eqn:Hf2;
      [|destruct Hsplit as (bt2 & E2); rewrite E2 in Hrun; discriminate].
    cbn [andb] in Hsplit.
    destruct Hsplit as (bt2 & E2 & R2 & M2 & P2 & _ & O2 & _).
    rewrite E2 in Hrun. clear E2.
    destruct U1 as [R1 O1].
    destruct (Z.eqb_spec c (rootPageId bt1)) as [Heq|_]; [congruence|].
    apply insertIntoInternal_touches in Hrun as (R3 & O3 & M3 & _).
    assert (Hcells : strictly_ascending cells)
      by now apply strictly_ascending_insert.
    assert (Hoks : Forall cell_ok cells).
    { apply Forall_cell_ok_insert; [|apply Hl].
      split; [assumption|]. cbn [snd].
      pose proof (byteLength_nonneg (cells_bytes (firstn mid cells))).
      pose proof (byteLength_nonneg (cells_bytes (skipn mid cells))).
      apply fits_leaf_true in Hf1, Hf2.
      assert (Hsum : byteLength (cells_bytes cells)
                     = byteLength (cells_bytes (firstn mid cells))
                       + byteLength (cells_bytes (skipn mid cells)))
        by (rewrite <- byteLength_app, <- cells_bytes_app;
            now rewrite firstn_skipn).
      unfold cells in Hsum at 1. rewrite byteLength_cells_bytes_insert in Hsum.
      pose proof (byteLength_nonneg (cells_bytes cc)). consts. lia. }
    assert (Hmid : (mid < length cells)%nat).
    { unfold mid. apply mid_lt_length. unfold cells.
      rewrite length_insert_by_key. lia. }
    destruct (split_halves cells mid Hcells Hmid) as (Hs1 & _).
    exists (firstn mid cells). splits.
    + rewrite O3, P2 by lia.
      apply (built_leaf_is_leaf _ (Forall_firstn _ _ _ Hoks) Hf1).
    + exact Hs1.
    + intros x Hx. apply In_firstn in Hx.
      apply In_insert_by_key in Hx as [->|Hx]; auto.
    + congruence.
    + lia.
    + intros id Hne Hid. rewrite O3 by lia. rewrite O2 by lia.
      now apply only_read_page_of.
Qed.

Lemma insertIntoLeaf_root (key : Z) (value : bytes) (bt bt' : BTree)
    (cs : list cell) :
  represents bt (OneLeaf cs) -> key_ok key ->
  BTree.insertIntoLeaf (rootPageId bt) key value bt = (bt', Ok tt) ->
  exists t', represents bt' t'.
Proof.
  intros (Hl & Hs & Hr & Hmax) Hkey Hrun. cbv zeta in *.
  set (r := rootPageId bt) in *.
  destruct (has_key key cs) eqn:Hdup.
  { destruct (insertIntoLeaf_duplicate r key value bt 0 cs Hl Hdup)
      as (bt1 & E & _). rewrite E in Hrun. discriminate. }
  destruct (Z.le_gt_cases
              (HEADER_SIZE + byteLength (cells_bytes cs) + (8 + byteLength value))
              PAGE_SIZE) as [Hfit|Hfull].
  - destruct (insertIntoLeaf_fits r key value bt 0 cs Hl Hdup Hkey Hfit)
      as (bt1 & page' & E & (R & P & O & M1 & M2 & _) & Hl').
    rewrite E in Hrun. injection Hrun as <-.
    exists (OneLeaf (insert_by_key (key, value) cs)). cbn. fold r in R.
    rewrite R, P. splits; try lia; [exact Hl'|].
    now apply strictly_ascending_insert.
  - destruct (insertIntoLeaf_full r key value bt 0 cs Hl Hdup Hfull)
      as (bt1 & E & U1).
    rewrite E in Hrun. clear E.
    pose proof (unchanged_maxPageId _ _ U1) as Hm1.
    assert (Hl1 : is_leaf (page_of (disk bt1) r) 0 cs)
      by now rewrite (unchanged_page_of _ _ _ U1).
    pose proof (splitLeaf_spec r key value bt1 0 cs Hl1 ltac:(lia)) as Hsplit.
    cbv zeta in Hsplit. rewrite (sort_after_append key value cs Hs) in Hsplit.
    set (cells := insert_by_key (key, value) cs) in *.
    set (mid := Z.to_nat (Z.of_nat (length cells) / 2)) in *.
    destruct (fits_leaf (firstn mid cells)) eqn:Hf1;
      [|destruct Hsplit as (bt2 & E2); rewrite E2 in Hrun; discriminate].
    destruct (fits_leaf (skipn mid cells)) eqn:Hf2;
      [|destruct Hsplit as (bt2 & E2); rewrite E2 in Hrun; discriminate].
    cbn [andb] in Hsplit.
    destruct Hsplit as (bt2 & E2 & R2 & M2 & P2 & P2' & O2 & _).
    rewrite E2 in Hrun. clear E2.
    destruct U1 as [R1 O1]. fold r in R1.
    destruct (Z.eqb_spec r (rootPageId bt1)) as [_|Hne]; [|congruence].
    set (sep := fst (nth mid cells (0, []))) in *.
    set (newId := maxPageId (disk bt1) + 1) in *.
    destruct (createGenericRoot_spec sep r newId bt2)
      as (bt3 & E3 & R3 & M3 & P3 & O3 & _).
    rewrite E3 in Hrun. injection Hrun as <-.
    assert (Hcells : strictly_ascending cells)
      by now apply strictly_ascending_insert.
    assert (Hoks : Forall cell_ok cells).
    { apply Forall_cell_ok_insert; [|apply Hl].
      split; [assumption|]. cbn [snd].
      pose proof (byteLength_nonneg (cells_bytes (firstn mid cells))).
      pose proof (byteLength_nonneg (cells_bytes (skipn mid cells))).
      apply fits_leaf_true in Hf1, Hf2.
      assert (Hsum : byteLength (cells_bytes cells)
                     = byteLength (cells_bytes (firstn mid cells))
                       + byteLength (cells_bytes (skipn mid cells)))
        by (rewrite <- byteLength_app, <- cells_bytes_app;
            now rewrite firstn_skipn).
      unfold cells in Hsum at 1. rewrite byteLength_cells_bytes_insert in Hsum.
      pose proof (byteLength_nonneg (cells_bytes cs)). consts. lia. }
    assert (Hmid : (mid < length cells)%nat).
    { unfold mid. apply mid_lt_length. unfold cells.
      rewrite length_insert_by_key. lia. }
    destruct (split_halves cells mid Hcells Hmid)
      as (Hs1 & Hs2 & Hlt & Hge & Hin).
    fold sep in Hlt, Hge.
    assert (Hsep : key_ok sep).
    { rewrite List.Forall_forall in Hoks. apply (Hoks _ Hin). }
    exists (TwoLeaves r sep newId (firstn mid cells) (skipn mid cells)).
    cbn. rewrite R3, P3, M3.
    rewrite !O3 by (unfold newId in *; lia). rewrite P2, P2', M2.
    unfold newId in *. splits; try lia.
    + apply built_root_is_internal; [assumption|lia|lia].
    + apply (built_leaf_is_leaf _ (Forall_firstn _ _ _ Hoks) Hf1).
    + apply (built_leaf_is_leaf _ (Forall_skipn _ _ _ Hoks) Hf2).
    + exact Hs1.
    + exact Hs2.
    + exact Hlt.
    + exact Hge.
Qed.

Lemma insert_represents (fuel : nat) (key : Z) (value : bytes)
    (bt bt' : BTree) (t : tree_shape) :
  represents bt t -> key_ok key -> (2 <= fuel)%nat ->
  BTree.insert fuel key value bt = (bt', Ok tt) ->
  exists t', represents bt' t'.
Proof.
  intros H Hkey Hfuel Hrun. unfold BTree.insert in Hrun.
  rewrite bind_root in Hrun.
  destruct (findLeafPage_represents fuel bt t key H Hfuel) as (bt1 & E1 & U1).
  unfold bind at 1 in Hrun. rewrite E1 in Hrun. clear E1.
  pose proof (represents_unchanged _ _ _ H U1) as H1.
  assert (R1 : rootPageId bt1 = rootPageId bt) by apply U1.
  rewrite <- R1 in Hrun.
  destruct t as [cs|a s b ca cb]; cbn [leaf_for] in Hrun.
  - eapply insertIntoLeaf_root; eassumption.
  - destruct H1 as (Hr & Ha & Hb & Hsa & Hsb & Hlt & Hge & Ra & Rb & Rr
                    & Hab & Har & Hbr). cbv zeta in *.
    destruct (Z.ltb_spec key s) as [Hks|Hks].
    + destruct (insertIntoLeaf_below_root a key value bt1 bt' ca Ha Hsa Hkey
                  Ra Har Hrun) as (ca' & Ha' & Hsa' & Hsub & R' & M' & O').
      exists (TwoLeaves a s b ca' cb). cbn. rewrite R'.
      rewrite (O' (rootPageId bt1)), (O' b) by (auto; lia).
      splits; try assumption; try lia.
      intros c Hc. destruct (Hsub c Hc) as [Hin| ->]; [now apply Hlt|lia].
    + destruct (insertIntoLeaf_below_root b key value bt1 bt' cb Hb Hsb Hkey
                  Rb Hbr Hrun) as (cb' & Hb' & Hsb' & Hsub & R' & M' & O').
      exists (TwoLeaves a s b ca cb'). cbn. rewrite R'.
      rewrite (O' (rootPageId bt1)), (O' a) by (auto; lia).
      splits; try assumption; try lia.
      intros c Hc. destruct (Hsub c Hc) as [Hin| ->]; [now apply Hge|lia].
Qed.

Lemma cells_for_has_key (bt : BTree) (t : tree_shape) (key : Z) :
  represents bt t ->
  has_key key (contents t) = has_key key (cells_for t key).
Proof.
  destruct t as [cs|a s b ca cb]; cbn; [reflexivity|].
  intros (_ & _ & _ & _ & _ & Hlt & Hge & _).
  unfold has_key. rewrite existsb_app. fold (has_key key ca) (has_key key cb).
  destruct (Z.ltb_spec key s).
  - replace (has_key key cb) with false; [apply orb_false_r|].
    symmetry. apply has_key_false. intros c Hc. specialize (Hge c Hc). lia.
  - replace (has_key key ca) with false; [reflexivity|].
    symmetry. apply has_key_false. intros c Hc. specialize (Hlt c Hc). lia.
Qed.

Lemma insert_duplicate_represents (fuel : nat) (key : Z) (value : bytes)
    (bt : BTree) (t : tree_shape) :
  represents bt t -> (2 <= fuel)%nat ->
  has_key key (contents t) = true ->
  exists bt', BTree.insert fuel key value bt = (bt', Err (DuplicateKey key))
              /\ unchanged bt bt'.
Proof.
  intros H Hfuel Hdup. rewrite (cells_for_has_key bt t key H) in Hdup.
  unfold BTree.insert. rewrite bind_root.
  destruct (findLeafPage_represents fuel bt t key H Hfuel) as (bt1 & E1 & U1).
  unfold bind at 1. rewrite E1.
  destruct (represents_leaf bt t key H) as [Hl _].
  rewrite <- (unchanged_page_of _ _ _ U1) in Hl.
  destruct (insertIntoLeaf_duplicate _ key value bt1 0 _ Hl Hdup)
    as (bt2 & E2 & U2).
  exists bt2. split; [exact E2|]. eauto using unchanged_trans.
Qed.

(** *** Deletion *)

Lemma delete_represents (fuel : nat) (key : Z) (bt : BTree) (t : tree_shape) :
  represents bt t -> (2 <= fuel)%nat ->
  if has_key key (cells_for t key)
  then exists bt' t',
         BTree.delete fuel key bt = (bt', Ok tt)
         /\ represents bt' t'
         /\ cells_for t' key = without_key key (cells_for t key)
         /\ has_key key (contents t') = false
  else exists bt',
         BTree.delete fuel key bt = (bt', Err (KeyNotFound key))
         /\ unchanged bt bt'.
Proof.
  intros H Hfuel.
  destruct (findLeafPage_represents fuel bt t key H Hfuel) as (bt1 & E1 & U1).
  destruct (represents_leaf bt t key H) as [Hl Hs].
  pose proof (delete_in_leaf fuel key bt bt1 _ 0 _ E1 U1 Hl) as Hdel.
  destruct (has_key key (cells_for t key)) eqn:Hhas; [|exact Hdel].
  destruct Hdel as (bt' & page' & E & (R & P & O & M1 & M2 & _) & Hl').
  assert (Hgone : forall t',
             represents bt' t' ->
             cells_for t' key = without_key key (cells_for t key) ->
             has_key key (contents t') = false).
  { intros t' Ht' Hc. rewrite (cells_for_has_key bt' t' key Ht'), Hc.
    apply has_key_without. }
  destruct t as [cs|a s b ca cb]; cbn [leaf_for cells_for] in *.
  - destruct H as (_ & _ & Hr & Hmax). cbv zeta in *.
    assert (Ht' : represents bt' (OneLeaf (without_key key cs))).
    { cbn. rewrite R, P. splits; try lia; [exact Hl'|].
      now apply strictly_ascending_without. }
    exists bt', (OneLeaf (without_key key cs)).
    splits; [exact E|exact Ht'|reflexivity|now apply Hgone].
  - destruct H as (Hr & Ha & Hb & Hsa & Hsb & Hlt & Hge & Ra & Rb & Rr
                   & Hab & Har & Hbr). cbv zeta in *.
    destruct (Z.ltb_spec key s) as [Hks|Hks].
    + assert (Ht' : represents bt' (TwoLeaves a s b (without_key key ca) cb)).
      { cbn. rewrite R, P, !O by auto.
        splits; try assumption; try lia.
        - now apply strictly_ascending_without.
        - intros c Hc. apply Hlt. unfold without_key in Hc.
          now apply List.filter_In in Hc as [Hc _]. }
      exists bt', (TwoLeaves a s b (without_key key ca) cb).
      splits; [exact E|exact Ht'| |apply Hgone; [exact Ht'|]]; cbn;
        destruct (Z.ltb_spec key s); try lia; reflexivity.
    + assert (Ht' : represents bt' (TwoLeaves a s b ca (without_key key cb))).
      { cbn. rewrite R, P, !O by auto.
        splits; try assumption; try lia.
        - now apply strictly_ascending_without.
        - intros c Hc. apply Hge. unfold without_key in Hc.
          now apply List.filter_In in Hc as [Hc _]. }
      exists bt', (TwoLeaves a s b ca (without_key key cb)).
      splits; [exact E|exact Ht'| |apply Hgone; [exact Ht'|]]; cbn;
        destruct (Z.ltb_spec key s); try lia; reflexivity.
Qed.

(** ** The claims on the B-tree *)

(** The keys of the B-tree are 32-bit unsigned integers. *)
Definition well_typed (op : operation) : Prop :=
  match op with
  | Insert key _ => key_ok key
  | Delete _ => True
  end.

(** An empty tree: the root page is a leaf without cells, as the
    constructor leaves it; the root was allocated; page numbers fit
    their 32 bits. *)
Definition empty_tree (bt : BTree) : Prop :=
  is_leaf (page_of (disk bt) (rootPageId bt)) 0 []
  /\ 1 <= rootPageId bt <= maxPageId (disk bt)
  /\ maxPageId (disk bt) + 2 < 4294967296.

(** What a sequence of successful insertions and deletions makes of an
    empty tree.  Between two operations the owner of the tree may use
    the disk for what leaves the pages and the allocation counter as
    they are: reads, writes of metadata. *)
Inductive reachable (fuel : nat) : BTree -> Prop :=
  | reachable_empty (bt : BTree) :
      empty_tree bt -> reachable fuel bt
  | reachable_step (bt bt' : BTree) (op : operation) :
      reachable fuel bt -> well_typed op ->
      run fuel op bt = (bt', Ok tt) ->
      reachable fuel bt'
  | reachable_between (bt bt' : BTree) :
      reachable fuel bt ->
      rootPageId bt' = rootPageId bt ->
      maxPageId (disk bt') = maxPageId (disk bt) ->
      (forall id, page_of (disk bt') id = page_of (disk bt) id) ->
      reachable fuel bt'.

Lemma empty_tree_represents (bt : BTree) :
  empty_tree bt -> represents bt (OneLeaf []).
Proof.
  intros (Hl & Hr & Hm). cbn. splits; try assumption; try lia.
  unfold strictly_ascending. cbn. constructor.
Qed.

Lemma represents_same_pages (bt bt' : BTree) (t : tree_shape) :
  represents bt t ->
  rootPageId bt' = rootPageId bt ->
  maxPageId (disk bt') = maxPageId (disk bt) ->
  (forall id, page_of (disk bt') id = page_of (disk bt) id) ->
  represents bt' t.
Proof.
  intros H R Hm Hp. destruct t; cbn in *; rewrite R, Hm, !Hp; exact H.
Qed.

Lemma reachable_represents (fuel : nat) (bt : BTree) :
  (2 <= fuel)%nat -> reachable fuel bt -> exists t, represents bt t.
Proof.
  intros Hfuel.
  induction 1 as [bt He|bt bt' op _ [t Ht] Hop Hrun|bt bt' _ [t Ht] R Hm Hp].
  - eexists. now apply empty_tree_represents.
  - destruct op as [key value|key]; cbn [run well_typed] in *.
    + eapply insert_represents; eassumption.
    + pose proof (delete_represents fuel key bt t Ht Hfuel) as Hdel.
      destruct (has_key key (cells_for t key)).
      * destruct Hdel as (bt1 & t' & E & Ht' & _). rewrite E in Hrun.
        injection Hrun as <-. now exists t'.
      * destruct Hdel as (bt1 & E & _). rewrite E in Hrun. discriminate.
  - exists t. now apply (represents_same_pages bt).
Qed.



Lemma fresh_tree_empty : empty_tree fresh_tree.
Proof.
  split; [|split].
  - split; [constructor|]. split; [lia|]. exists (zeros 4089).
    split; vm_compute; reflexivity.
  - change (rootPageId fresh_tree) with 1.
    change (maxPageId (disk fresh_tree)) with 1. lia.
  - change (maxPageId (disk fresh_tree)) with 1. lia.
Defined.

Lemma reachable_run_all (fuel : nat) (ops : list operation) :
  forall bt,
  reachable fuel bt ->
  Forall well_typed ops ->
  forallb (fun n =>
             match snd (run fuel (nth n ops (Delete 0))
                          (run_all fuel (firstn n ops) bt)) with
             | Ok _ => true
             | Err _ => false
             end) (List.seq 0 (length ops)) = true ->
  reachable fuel (run_all fuel ops bt).
Proof.
  induction ops as [|op ops IH] using rev_ind; intros bt Hbt Hty Hok;
    [exact Hbt|].
  apply Forall_app in Hty as [Hty Hop]. inversion Hop as [|? ? Hop' _]; subst.
  rewrite length_app, seq_app, forallb_app in Hok. cbn [length List.seq forallb] in Hok.
  apply andb_true_iff in Hok as [Hok1 Hok2].
  rewrite Nat.add_0_l, andb_true_r in Hok2.
  rewrite app_nth2, Nat.sub_diag in Hok2 by lia. cbn [nth] in Hok2.
  rewrite firstn_app, Nat.sub_diag, firstn_all, firstn_O, app_nil_r in Hok2.
  unfold run_all at 1. rewrite fold_left_app. cbn [fold_left].
  fold (run_all fuel ops bt).
  assert (Hprev : reachable fuel (run_all fuel ops bt)).
  { apply IH; [assumption|assumption|].
    rewrite forallb_forall in *. intros n Hn. specialize (Hok1 n Hn).
    apply in_seq in Hn.
    rewrite app_nth1 in Hok1 by lia.
    rewrite firstn_app in Hok1.
    replace (n - length ops)%nat with 0%nat in Hok1 by lia.
    now rewrite firstn_O, app_nil_r in Hok1. }
  apply (reachable_step fuel (run_all fuel ops bt) _ op Hprev Hop').
  destruct (run fuel op (run_all fuel ops bt)) as [bt' [[]|e]];
    [reflexivity|discriminate].
Qed.

Lemma example_reachable : reachable 3 (run_all 3 example_ops fresh_tree).
Proof.
  apply reachable_run_all.
  - apply reachable_empty, fresh_tree_empty.
  - repeat constructor; cbn; lia.
  - vm_compute. reflexivity.
Defined.



(** *** Splitting a leaf *)






(** *** Inserting into an internal node *)

Lemma node_size_internal_page (parent p0 : Z) (its : list item) :
  byteLength (internal_page parent p0 its []) = node_size (Z.of_nat (length its)).
Proof.
  unfold internal_page, node_size.
  rewrite !byteLength_app, byteLength_header, byteLength_be32,
    byteLength_items_bytes.
  change (byteLength []) with 0. consts. lia.
Qed.







(** ** [Table] *)

Definition with_btree (t : Table) (bt : BTree) : Table :=
  {| table_name := table_name t; schema := schema t; btree := bt |}.

(** The row that [insert] builds of the values of the columns. *)
Fixpoint fill (cols : list ColumnDefinition) (vals : list value) (row : Row)
    : Row :=
  match cols, vals with
  | col :: cols', v :: vals' => fill cols' vals' (<[col_name col := v]> row)
  | _, _ => row
  end.

Definition plain (col : ColumnDefinition) : Prop := isPrimaryKey col = false.

Lemma with_btree_same (t : Table) : with_btree t (btree t) = t.
Proof. now destruct t. Qed.

Lemma fill_keeps (cols : list ColumnDefinition) :
  forall vals row k, is_Some (row !! k) -> is_Some (fill cols vals row !! k).
Proof.
  induction cols as [|col cols IH]; intros [|v vals] row k Hk; cbn;
    try assumption.
  apply IH. destruct (decide (col_name col = k)) as [->|Hne].
  - rewrite lookup_insert_eq. now eexists.
  - now rewrite lookup_insert_ne.
Qed.

Lemma fill_defines (cols : list ColumnDefinition) :
  forall vals row col,
  length vals = length cols -> In col cols ->
  is_Some (fill cols vals row !! col_name col).
Proof.
  induction cols as [|c cols IH]; intros [|v vals] row col Hlen Hin;
    cbn in *; try contradiction; try discriminate.
  destruct Hin as [->|Hin].
  - apply fill_keeps. rewrite lookup_insert_eq. now eexists.
  - apply IH; [lia|assumption].
Qed.

Section TableFacts.

Variable Number_toInt32 : string -> Z.
Variable String_of_number : Z -> string.
Variable String_isInteger : string -> bool.

Local Abbreviation validate := (Table.validateType String_isInteger).
Local Abbreviation check := (Table.check_columns String_isInteger).
Local Abbreviation prepare_row := (Table.prepare String_isInteger).
Local Abbreviation store_row := (Table.store Number_toInt32 String_of_number).
Local Abbreviation serialize_row := (serializeRow Number_toInt32 String_of_number).
Local Abbreviation parts_of_row := (serialize_parts Number_toInt32 String_of_number).
Local Abbreviation bytes_of_column := (column_bytes Number_toInt32 String_of_number).

Definition accepted (col : ColumnDefinition) (v : value) : Prop :=
  validate v (col_type col) = true.

(** *** [serializeRow] returns for a row that has every column *)

Lemma column_bytes_total (col : ColumnDefinition) (v : value) :
  exists b, bytes_of_column col v = Ok b.
Proof.
  unfold column_bytes. destruct (col_type col).
  - rewrite setInt32_fresh. now eexists.
  - now eexists.
Qed.

Lemma serialize_parts_total (row : Row) (cols : list ColumnDefinition) :
  forall parts totalLen,
  (forall col, In col cols -> is_Some (row !! col_name col)) ->
  exists ps, parts_of_row cols row parts totalLen
             = Ok (parts ++ ps, totalLen + byteLength (concat ps)).
Proof.
  induction cols as [|col cols IH]; intros parts totalLen Hcols; cbn.
  - exists []. now rewrite app_nil_r, Z.add_0_r.
  - destruct (Hcols col (or_introl eq_refl)) as (v & Hv).
    rewrite Hv. destruct (column_bytes_total col v) as (b & Hb).
    rewrite Hb. cbn [rbind]. rewrite setUint16_fresh. cbn [rbind].
    destruct (IH (parts ++ [be16 (byteLength b); b])
                (totalLen + (2 + byteLength b))) as (ps & Hps).
    { intros c Hc. apply Hcols. now right. }
    exists ([be16 (byteLength b); b] ++ ps).
    rewrite Hps, <- app_assoc. do 2 f_equal.
    cbn [app concat]. rewrite !byteLength_app.
    unfold byteLength at 3. cbn [length be16]. lia.
Qed.

Lemma serializeRow_total (cols : list ColumnDefinition) (row : Row) :
  (forall col, In col cols -> is_Some (row !! col_name col)) ->
  exists data, serialize_row cols row = Ok data.
Proof.
  intros Hcols. unfold serializeRow.
  destruct (serialize_parts_total row cols [] 0 Hcols) as (ps & Hps).
  rewrite Hps. cbn [rbind].
  pose proof (set_parts_zeros ps [] (byteLength (concat ps)) (Z.le_refl _)) as H.
  change (byteLength []) with 0 in H. cbn [app] in H.
  cbn [app]. rewrite Z.add_0_l, H. now eexists.
Qed.

(** *** The columns of [insert] *)

Lemma check_columns_plain (fuel : nat) (cols : list ColumnDefinition) :
  forall vals rest rowValues row pk t,
  Forall plain cols -> Forall2 accepted cols vals ->
  check fuel (cols ++ rest) (map Some vals ++ rowValues) row pk t
  = check fuel rest rowValues (fill cols vals row) pk t.
Proof.
  induction cols as [|col cols IH]; intros vals rest rowValues row pk t Hp Hacc;
    inversion Hacc as [|? v ? vals' Hv Hvals]; subst; [reflexivity|].
  inversion Hp as [|? ? Hcol Hcols]; subst.
  cbn [app map Table.check_columns fill]. unfold Table.primary_key.
  rewrite Hcol. unfold bind at 1, ret at 1. unfold accepted in Hv.
  rewrite Hv. now apply IH.
Qed.

Lemma check_columns_end (fuel : nat) (row : Row) (pk : option Z) (t : Table) :
  check fuel [] [] row pk t = (t, Ok (row, pk)).
Proof. reflexivity. Qed.



Lemma check_columns_rest (fuel : nat) (post : list ColumnDefinition)
    (vpost : list value) (row : Row) (pk : option Z) (t : Table) :
  Forall plain post -> Forall2 accepted post vpost ->
  check fuel post (map Some vpost) row pk t = (t, Ok (fill post vpost row, pk)).
Proof.
  intros Hp Hacc.
  pose proof (check_columns_plain fuel post vpost [] [] row pk t Hp Hacc) as H.
  now rewrite !app_nil_r in H.
Qed.

Lemma prepare_spec (fuel : nat) (t : Table) (values : list value)
    (colNames : option (list string)) (pre post : list ColumnDefinition)
    (pkcol : ColumnDefinition) (vpre vpost : list value) (vpk : option value) :
  columns (schema t) = pre ++ pkcol :: post ->
  Forall plain pre -> Forall plain post ->
  isPrimaryKey pkcol = true -> col_type pkcol = INTEGER ->
  Table.normalize (columns (schema t)) values colNames
  = Ok (map Some vpre ++ vpk :: map Some vpost) ->
  Forall2 accepted pre vpre -> Forall2 accepted post vpost ->
  let row key :=
    fill post vpost (<[col_name pkcol := VNum key]> (fill pre vpre ∅)) in
  prepare_row fuel values colNames t
  = if Table.is_NULL vpk then
      let '(t1, r) := Table.lastSeq fuel t in
      (t1, match r with
           | Ok last => Ok (row (last + 1), last + 1)
           | Err e => Err e
           end)
    else
      match vpk with
      | Some (VNum z) => (t, Ok (row z, z))
      | _ => (t, Err InvalidPrimaryKey)
      end.
Proof.
  intros Hcols Hpre Hpost Hpk Hty Hnorm Hvpre Hvpost row.
  unfold Table.prepare. unfold bind at 1, get at 1. cbv beta iota.
  rewrite Hnorm. unfold bind at 1, lift at 1. cbv beta iota.
  rewrite Hcols. unfold bind at 1.
  rewrite (check_columns_plain fuel pre vpre (pkcol :: post)
             (vpk :: map Some vpost) ∅ None t Hpre Hvpre).
  cbn [Table.check_columns]. unfold Table.primary_key. rewrite Hpk.
  destruct (Table.is_NULL vpk) eqn:Hnull.
  - unfold bind at 2. unfold bind at 1.
    destruct (Table.lastSeq fuel t) as [t1 [last|e]]; [|reflexivity].
    unfold ret at 1. rewrite Hty. cbn [Table.validateType].
    now rewrite (check_columns_rest fuel post vpost _ _ t1 Hpost Hvpost).
  - destruct vpk as [[z|s]|]; try discriminate.
    + unfold bind at 1. unfold ret at 1. rewrite Hty. cbn [Table.validateType].
      now rewrite (check_columns_rest fuel post vpost _ _ t Hpost Hvpost).
    + reflexivity.
Qed.

End TableFacts.

(** ** The claims on the tables *)




(** A key of the range of the pages, 0 to 4294967295, is refused when
    it is there: in a table on a reachable tree, with one primary key
    column, an [INTEGER], an [INSERT] of values that the columns accept
    under a key that [getAll] lists throws [DuplicateKey]; the schema,
    with its counter, is as it was, and nothing was written: the tree
    and its disk are as they were, but for pages that the reads brought
    into the cache. *)
Lemma insert_duplicate_in_range
    (Number_toInt32 : string -> Z) (String_of_number : Z -> string)
    (String_isInteger : string -> bool)
    (fuel : nat) (t : Table) (values : list value)
    (colNames : option (list string)) (pre post : list ColumnDefinition)
    (pkcol : ColumnDefinition) (vpre vpost : list value) (k : Z)
    (bt1 : BTree) (cells : list cell) :
  (2 <= fuel)%nat ->
  reachable fuel (btree t) ->
  BTree.getAll fuel (btree t) = (bt1, Ok cells) ->
  In k (map fst cells) ->
  columns (schema t) = pre ++ pkcol :: post ->
  Forall plain pre -> Forall plain post ->
  isPrimaryKey pkcol = true -> col_type pkcol = INTEGER ->
  Table.normalize (columns (schema t)) values colNames
  = Ok (map Some vpre ++ Some (VNum k) :: map Some vpost) ->
  Forall2 (accepted String_isInteger) pre vpre ->
  Forall2 (accepted String_isInteger) post vpost ->
  exists t',
    Table.insert Number_toInt32 String_of_number String_isInteger
      fuel values colNames t
    = (t', Err (DuplicateKey k))
    /\ table_name t' = table_name t
    /\ schema t' = schema t
    /\ unchanged (btree t) (btree t').
Proof.
  intros Hfuel Hreach Hall Hin Hcols Hpre Hpost Hpk Hty Hnorm Hvpre Hvpost.
  destruct (reachable_represents fuel _ Hfuel Hreach) as [tree Htree].
  destruct (getAll_represents fuel _ tree Htree Hfuel) as (bt1' & E & _).
  rewrite E in Hall. injection Hall as _ <-.
  assert (Hhas : has_key k (contents tree) = true).
  { apply has_key_true. apply in_map_iff in Hin as (c & Hk & Hc). now exists c. }
  pose proof (prepare_spec String_isInteger fuel t values colNames pre post
                pkcol vpre vpost (Some (VNum k))
                Hcols Hpre Hpost Hpk Hty Hnorm Hvpre Hvpost) as Hprep.
  cbv zeta in Hprep. cbn [Table.is_NULL] in Hprep.
  unfold Table.insert. unfold bind at 1. rewrite Hprep.
  unfold Table.store. unfold bind at 1, get at 1. cbv beta iota.
  set (row := fill post vpost (<[col_name pkcol := VNum k]> (fill pre vpre ∅))).
  destruct (serializeRow_total Number_toInt32 String_of_number
              (columns (schema t)) row) as (data & Hdata).
  { intros col Hcol. rewrite Hcols in Hcol. unfold row.
    apply in_app_or in Hcol as [Hcol|[<-|Hcol]].
    - apply fill_keeps. destruct (decide (col_name pkcol = col_name col)) as [Heq|Hne].
      + rewrite <- Heq, lookup_insert_eq. now eexists.
      + rewrite lookup_insert_ne by exact Hne.
        apply fill_defines; [|exact Hcol].
        symmetry. exact (List.Forall2_length Hvpre).
    - apply fill_keeps. rewrite lookup_insert_eq. now eexists.
    - apply fill_defines; [|exact Hcol].
      symmetry. exact (List.Forall2_length Hvpost). }
  rewrite Hdata. unfold bind at 1, lift at 1. cbv beta iota.
  destruct (insert_duplicate_represents fuel k data (btree t) tree
              Htree Hfuel Hhas) as (bt' & Eins & U).
  unfold bind at 1, Table.on_btree at 1. rewrite Eins.
  exists (with_btree t bt'). splits; try reflexivity. exact U.
Qed.

Lemma insert_duplicate_example :
  exists t',
    Table.insert decimal_toInt32 decimal_String decimal_isInteger
      3 [VNum 4; VStr "w"] None example_ops_table
    = (t', Err (DuplicateKey 4))
    /\ table_name t' = table_name example_ops_table
    /\ schema t' = schema example_ops_table
    /\ unchanged (btree example_ops_table) (btree t').
Proof.
  assert (Hfuel : (2 <= 3)%nat) by lia.
  assert (Hall : BTree.getAll 3 (btree example_ops_table)
                 = (fst (BTree.getAll 3 (btree example_ops_table)),
                    Ok [(4, payload 2000 4); (5, payload 2000 1);
                        (9, payload 10 3)]))
    by (vm_compute; reflexivity).
  assert (Hin : In 4 (map fst [(4, payload 2000 4); (5, payload 2000 1);
                               (9, payload 10 3)]))
    by (left; reflexivity).
  assert (Hpost : Forall plain [ {| col_name := "v"; col_type := TEXT;
                                    isPrimaryKey := false |} ])
    by (repeat constructor).
  assert (Hvpost : Forall2 (accepted decimal_isInteger)
                     [ {| col_name := "v"; col_type := TEXT;
                          isPrimaryKey := false |} ] [VStr "w"])
    by (repeat constructor).
  exact (insert_duplicate_in_range decimal_toInt32 decimal_String decimal_isInteger
           3 example_ops_table [VNum 4; VStr "w"] None []
           [ {| col_name := "v"; col_type := TEXT; isPrimaryKey := false |} ]
           {| col_name := "id"; col_type := INTEGER; isPrimaryKey := true |}
           [] [VStr "w"] 4 _ _ Hfuel example_reachable Hall Hin eq_refl
           (List.Forall_nil _) Hpost eq_refl eq_refl eq_refl
           (List.Forall2_nil _) Hvpost).
Qed.

(** C5 does not hold of the code for a negative key: the key -1 is
    stored as 4294967295, which the duplicate test of [insertIntoLeaf]
    compares with -1.  After [INSERT INTO t VALUES (-1, 'y')] the
    statement [INSERT INTO t VALUES (-1, 'z')] inserts a second row of
    the same key. *)
Theorem C5_negative_key_inserted_twice :
  let db := example_run negative_setup new_database in
  example_replies negative_setup new_database = [Ok Created; Ok Inserted]
  /\ snd (example_execute (SELECT "t" all_rows) db)
     = Ok (Rows [example_row (-1) "y"])
  /\ example_replies [INSERT "t" [VNum (-1); VStr "z"] None;
                      SELECT "t" all_rows] db
     = [Ok Inserted; Ok (Rows [example_row (-1) "z"; example_row (-1) "y"])].
Proof.
  split; [vm_compute; reflexivity|]. split; vm_compute; reflexivity.
Qed.

(** ** The claim on the transactions *)

(** C3 does not hold of the code.  An [UPDATE] that makes a row longer
    may split the root of the table; [UPDATE] does not save the
    catalog, which keeps the old root.  [BEGIN] and [ROLLBACK], with
    nothing between them, then load the table on the old root: the rows
    of the right half are not found any more. *)
Theorem C3_rollback_loses_a_row :
  let db := example_run split_setup new_database in
  let db' := example_run [BEGIN; ROLLBACK] db in
  example_replies split_setup new_database
  = [Ok Created; Ok Inserted; Ok Inserted; Ok (Updated 1)]
  /\ snd (example_execute (SELECT "t" all_rows) db)
     = Ok (Rows [example_row 1 (text 2100 "c"); example_row 2 (text 2000 "b")])
  /\ example_replies [BEGIN; ROLLBACK] db = [Ok Started; Ok RolledBack]
  /\ snd (example_execute (SELECT "t" all_rows) db')
     = Ok (Rows [example_row 1 (text 2100 "c")])
  /\ snd (example_execute (SELECT "t" (with_id 2)) db') = Ok (Rows []).
Proof.
  split; [vm_compute; reflexivity|]. split; [vm_compute; reflexivity|].
  split; [vm_compute; reflexivity|]. split; vm_compute; reflexivity.
Qed.

(** Where the root moved and where the catalog has it. *)
Lemma split_setup_roots :
  let db := example_run split_setup new_database in
  option_map (fun t => rootPageId (btree t)) (Database.table_of "t" db) = Some 3
  /\ metadata_of (db_disk db) "tables"
     = Some (MetaTables [ {| tm_name := "t"; tm_columns := Some example_columns;
                             tm_pkColumn := "id"; tm_rootPageId := 1;
                             tm_seq := Some 2 |} ]).
Proof. split; vm_compute; reflexivity. Qed.

(** [load] leaves the counter of allocations as it is when there is no
    [meta] item: on a storage without one, a page allocated in a
    transaction stays allocated after [ROLLBACK]. *)
Lemma rollback_keeps_counter_without_meta :
  let cmds := [BEGIN; CREATE_TABLE "t" example_columns; ROLLBACK] in
  maxPageId (db_disk new_database) = 0
  /\ example_replies cmds new_database = [Ok Started; Ok Created; Ok RolledBack]
  /\ maxPageId (db_disk (example_run cmds new_database)) = 1.
Proof. split; [reflexivity|]. split; vm_compute; reflexivity. Qed.

(** The embedding returns what the tests of the repository expect. *)
Lemma tests_scenario :
  example_replies tests_commands new_database
  = [ Ok Created; Ok Inserted; Ok Inserted;
      Ok (Rows [user 1 "Alice" 30; user 2 "Bob" 25]);
      Ok (Rows [user 1 "Alice" 30]);
      Ok (Updated 1);
      Ok (Rows [user 1 "Alice" 31]);
      Ok (Deleted 1);
      Ok (Rows [user 1 "Alice" 31]);
      Ok Inserted;
      Ok (Rows [user 3 "Charlie" 20]);
      Ok Started; Ok Inserted; Ok RolledBack;
      Ok (Rows []);
      Ok Started; Ok Inserted; Ok Committed;
      Ok (Rows [user 5 "Eve" 50]) ].
Proof. vm_compute. reflexivity. Qed.

(** ** More on the virtual disk *)

(** A page written is the page read, inside a transaction and outside
    of one, and the other pages read as they did. *)
Theorem readPage_after_writePage (id : Z) (data : bytes) (d : VirtualDisk) :
  exists d1 d2,
    VirtualDisk.writePage id data d = (d1, Ok tt)
    /\ VirtualDisk.readPage id d1 = (d2, Ok data)
    /\ forall id', id' <> id ->
         snd (VirtualDisk.readPage id' d1) = snd (VirtualDisk.readPage id' d).
Proof.
  destruct (writePage_spec id data d) as (d1 & E1 & P & O & _).
  destruct (readPage_spec id d1) as (d2 & E2 & _).
  exists d1, d2. rewrite P in E2. splits; [exact E1|exact E2|].
  intros id' Hne.
  destruct (readPage_spec id' d1) as (d3 & E3 & _).
  destruct (readPage_spec id' d) as (d4 & E4 & _).
  rewrite E3, E4. cbn. f_equal. now apply O.
Qed.

(** *** [commit] *)

Definition write_all (l : list (Z * bytes)) (d : VirtualDisk) : VirtualDisk :=
  fold_left (fun d '(id, data) => VirtualDisk.writeToDisk id data d) l d.

Definition store_all (l : list (string * MetaValue)) (d : VirtualDisk)
    : VirtualDisk :=
  fold_left (fun d '(key, val) => VirtualDisk.storeMetadata key val d) l d.

Lemma writeToDisk_fields (id : Z) (data : bytes) (d : VirtualDisk) :
  let d' := VirtualDisk.writeToDisk id data d in
  pages d' = <[id := data]> (pages d)
  /\ ls_pages (localStorage d') = <[id := data]> (ls_pages (localStorage d))
  /\ transactionBuffer d' = transactionBuffer d
  /\ metaBuffer d' = metaBuffer d
  /\ ls_metadata (localStorage d') = ls_metadata (localStorage d)
  /\ maxPageId d <= maxPageId d'
  /\ (maxPageId d' = maxPageId d \/ ls_meta (localStorage d') = Some (maxPageId d')).
Proof.
  unfold VirtualDisk.writeToDisk. cbn.
  destruct (Z.ltb_spec (maxPageId d) id); cbn; splits; try reflexivity; try lia;
    auto.
Qed.

Lemma write_all_fields (l : list (Z * bytes)) :
  NoDup (map fst l) ->
  forall d,
  let d' := write_all l d in
  (forall id, pages d' !! id
              = match (list_to_map l : gmap Z bytes) !! id with
                | Some p => Some p
                | None => pages d !! id
                end)
  /\ (forall id, ls_pages (localStorage d') !! id
                 = match (list_to_map l : gmap Z bytes) !! id with
                   | Some p => Some p
                   | None => ls_pages (localStorage d) !! id
                   end)
  /\ transactionBuffer d' = transactionBuffer d
  /\ metaBuffer d' = metaBuffer d
  /\ ls_metadata (localStorage d') = ls_metadata (localStorage d)
  /\ maxPageId d <= maxPageId d'.
Proof.
  induction l as [|[i p] l IH]; intros Hnd d; cbn.
  - splits; try reflexivity; try lia; intros id; now rewrite lookup_empty.
  - inversion Hnd as [|? ? Hi Hl]; subst.
    destruct (writeToDisk_fields i p d) as (P & L & T & Mb & Md & Mx & _).
    destruct (IH Hl (VirtualDisk.writeToDisk i p d)) as (P' & L' & T' & Mb' & Md' & Mx').
    assert (Hnone : (list_to_map l : gmap Z bytes) !! i = None).
    { apply not_elem_of_list_to_map_1. intros Hin. apply Hi.
      now apply list_elem_of_In. }
    unfold write_all in *. cbn in *.
    splits; try congruence; try lia.
    + intros id. rewrite P', P. destruct (decide (id = i)) as [->|Hne].
      * now rewrite Hnone, !lookup_insert_eq.
      * now rewrite !lookup_insert_ne by congruence.
    + intros id. rewrite L', L. destruct (decide (id = i)) as [->|Hne].
      * now rewrite Hnone, !lookup_insert_eq.
      * now rewrite !lookup_insert_ne by congruence.
Qed.

Lemma store_all_fields (l : list (string * MetaValue)) :
  NoDup (map fst l) ->
  forall d,
  let d' := store_all l d in
  (forall k, ls_metadata (localStorage d') !! k
             = match (list_to_map l : gmap string MetaValue) !! k with
               | Some v => Some v
               | None => ls_metadata (localStorage d) !! k
               end)
  /\ pages d' = pages d
  /\ ls_pages (localStorage d') = ls_pages (localStorage d)
  /\ ls_meta (localStorage d') = ls_meta (localStorage d)
  /\ transactionBuffer d' = transactionBuffer d
  /\ metaBuffer d' = metaBuffer d
  /\ maxPageId d' = maxPageId d.
Proof.
  induction l as [|[i v] l IH]; intros Hnd d; cbn.
  - splits; try reflexivity; intros k; now rewrite lookup_empty.
  - inversion Hnd as [|? ? Hi Hl]; subst.
    destruct (IH Hl (VirtualDisk.storeMetadata i v d))
      as (Md & P & L & Lm & T & Mb & Mx).
    assert (Hnone : (list_to_map l : gmap string MetaValue) !! i = None).
    { apply not_elem_of_list_to_map_1. intros Hin. apply Hi.
      now apply list_elem_of_In. }
    unfold store_all in *. cbn in *.
    splits; try assumption.
    intros k. rewrite Md. destruct (decide (k = i)) as [->|Hne].
    + now rewrite Hnone, !lookup_insert_eq.
    + now rewrite !lookup_insert_ne by congruence.
Qed.

(** [COMMIT] at the disk: every page and every metadata key reads after
    it as it read in the transaction; the transaction is closed; what
    the buffers held is in [localStorage], with the counter of
    allocations. *)
Theorem commit_keeps_the_view (d : VirtualDisk) (buf : gmap Z bytes)
    (mbuf : gmap string MetaValue) :
  transactionBuffer d = Some buf ->
  metaBuffer d = Some mbuf ->
  exists d',
    VirtualDisk.commit d = (d', Ok tt)
    /\ transactionBuffer d' = None /\ metaBuffer d' = None
    /\ (forall id, page_of d' id = page_of d id)
    /\ (forall k, metadata_of d' k = metadata_of d k)
    /\ (forall id p, buf !! id = Some p ->
          ls_pages (localStorage d') !! id = Some p)
    /\ (forall k v, mbuf !! k = Some v ->
          ls_metadata (localStorage d') !! k = Some v)
    /\ ls_meta (localStorage d') = Some (maxPageId d')
    /\ maxPageId d <= maxPageId d'.
Proof.
  intros Ht Hm. unfold VirtualDisk.commit. rewrite Ht.
  fold (write_all (map_to_list buf) d).
  destruct (write_all_fields (map_to_list buf) (NoDup_fst_map_to_list buf) d)
    as (P & L & T & Mb & Md & Mx).
  rewrite list_to_map_to_list in P, L.
  set (d1 := write_all (map_to_list buf) d) in *.
  rewrite Mb, Hm. fold (store_all (map_to_list mbuf) d1).
  destruct (store_all_fields (map_to_list mbuf) (NoDup_fst_map_to_list mbuf) d1)
    as (Md2 & P2 & L2 & Lm2 & T2 & Mb2 & Mx2).
  rewrite list_to_map_to_list in Md2.
  set (d2 := store_all (map_to_list mbuf) d1) in *.
  eexists. split; [reflexivity|]. cbn. splits; try reflexivity.
  - intros id. unfold page_of. rewrite Ht, P2, L2, P, L. cbn.
    destruct (buf !! id) as [p|]; reflexivity.
  - intros k. unfold metadata_of. rewrite Hm, Md2, Md. cbn.
    destruct (mbuf !! k) as [v|]; reflexivity.
  - intros id p Hp. now rewrite L2, L, Hp.
  - intros k v Hv. now rewrite Md2, Hv.
  - lia.
Qed.

(** ** What a transaction keeps from [localStorage]

    While a transaction is active, both buffers are there.  A
    computation is quiet when, run in a transaction, it leaves the
    transaction active and [localStorage] as it was. *)

Definition in_transaction (d : VirtualDisk) : Prop :=
  is_Some (transactionBuffer d) /\ is_Some (metaBuffer d).

Definition quiet (d d' : VirtualDisk) : Prop :=
  in_transaction d ->
  in_transaction d' /\ localStorage d' = localStorage d.

Definition quietly {S A} (proj : S -> VirtualDisk) (m : M S A) : Prop :=
  forall s, quiet (proj s) (proj (fst (m s))).

Lemma quiet_refl (d : VirtualDisk) : quiet d d.
Proof. intros H. now split. Qed.

Lemma quiet_trans (a b c : VirtualDisk) : quiet a b -> quiet b c -> quiet a c.
Proof.
  intros Hab Hbc Ha. destruct (Hab Ha) as [Hb Eb].
  destruct (Hbc Hb) as [Hc Ec]. split; [exact Hc|congruence].
Qed.

Section Quietly.

Context {S : Type} (proj : S -> VirtualDisk).

Lemma quietly_ret {A} (a : A) : quietly proj (ret a).
Proof. intros s. apply quiet_refl. Qed.

Lemma quietly_throw {A} (e : error) : quietly proj (@throw S A e).
Proof. intros s. apply quiet_refl. Qed.

Lemma quietly_lift {A} (r : result A) : quietly proj (lift r).
Proof. intros s. apply quiet_refl. Qed.

Lemma quietly_get : quietly proj get.
Proof. intros s. apply quiet_refl. Qed.

Lemma quietly_bind {A B} (m : M S A) (k : A -> M S B) :
  quietly proj m -> (forall a, quietly proj (k a)) -> quietly proj (bind m k).
Proof.
  intros Hm Hk s. unfold bind. specialize (Hm s).
  destruct (m s) as [s' [a|e]]; cbn in *; [|exact Hm].
  eapply quiet_trans; [exact Hm|apply Hk].
Qed.

End Quietly.

Create HintDb quiet.

Ltac quiet_step :=
  lazymatch goal with
  | |- quietly _ (bind _ _) => apply quietly_bind; [|intros ?]
  | |- quietly _ (ret _) => apply quietly_ret
  | |- quietly _ (throw _) => apply quietly_throw
  | |- quietly _ (lift _) => apply quietly_lift
  | |- quietly _ get => apply quietly_get
  | |- quietly _ (let _ := _ in _) => cbv zeta
  | |- quietly _ (match ?x with _ => _ end) => destruct x
  | |- quietly _ _ =>
      first [ assumption
            | match goal with
              | IH : forall _, quietly _ _ |- _ => apply IH
              | IH : forall _ _, quietly _ _ |- _ => apply IH
              end
            | solve [auto 2 with quiet nocore] ]
  end.

(** *** The disk *)

Lemma quietly_readPage (id : Z) : quietly (fun d => d) (VirtualDisk.readPage id).
Proof.
  intros d [Ht Hm]. unfold VirtualDisk.readPage.
  destruct (transactionBuffer d ≫= (.!! id)); [cbn; repeat split; assumption|].
  destruct (pages d !! id); [cbn; repeat split; assumption|].
  destruct (ls_pages (localStorage d) !! id) as [[|b bs]|]; cbn;
    repeat split; assumption.
Qed.

Lemma quietly_writePage (id : Z) (data : bytes) :
  quietly (fun d => d) (VirtualDisk.writePage id data).
Proof.
  intros d [[buf Ht] Hm]. unfold VirtualDisk.writePage. rewrite Ht. cbn.
  repeat split; [now eexists|exact Hm].
Qed.

Lemma quietly_allocatePage : quietly (fun d => d) VirtualDisk.allocatePage.
Proof.
  intros d [[buf Ht] Hm]. unfold VirtualDisk.allocatePage. cbn. rewrite Ht. cbn.
  unfold in_transaction. cbn. rewrite Ht. repeat split; [now eexists|exact Hm].
Qed.

Lemma quietly_getMetadata (key : string) :
  quietly (fun d => d) (VirtualDisk.getMetadata key).
Proof.
  intros d H. unfold VirtualDisk.getMetadata.
  destruct (metaBuffer d ≫= (.!! key)); now split.
Qed.

Lemma quietly_setMetadata (key : string) (v : MetaValue) :
  quietly (fun d => d) (VirtualDisk.setMetadata key v).
Proof.
  intros d [Ht [mbuf Hm]]. unfold VirtualDisk.setMetadata. rewrite Hm. cbn.
  repeat split; [exact Ht|now eexists].
Qed.

Lemma quietly_beginTransaction :
  quietly (fun d => d) VirtualDisk.beginTransaction.
Proof.
  intros d [[buf Ht] Hm]. unfold VirtualDisk.beginTransaction. rewrite Ht.
  cbn. unfold in_transaction. rewrite Ht. repeat split; [now eexists|exact Hm].
Qed.

Lemma quietly_write_through_alias (id : Z) (page : bytes) :
  quietly (fun d => d) (BTree.write_through_alias id page).
Proof.
  intros d [[buf Ht] Hm]. unfold BTree.write_through_alias. rewrite Ht.
  destruct (buf !! id); [cbn; repeat split; [now eexists|exact Hm]|].
  destruct (pages d !! id); cbn; unfold in_transaction; cbn; rewrite ?Ht;
    repeat split; try exact Hm; now eexists.
Qed.

#[local] Hint Resolve quietly_readPage quietly_writePage quietly_allocatePage
  quietly_getMetadata quietly_setMetadata quietly_beginTransaction
  quietly_write_through_alias : quiet.

Lemma quietly_poke (id : Z) (r : result bytes) :
  quietly (fun d => d) (BTree.poke id r).
Proof. unfold BTree.poke. repeat quiet_step. Qed.

#[local] Hint Resolve quietly_poke : quiet.

Lemma quietly_create (rootPageId : Z) :
  quietly (fun d => d) (BTree.create rootPageId).
Proof. unfold BTree.create. repeat quiet_step. Qed.

#[local] Hint Resolve quietly_create : quiet.

(** *** The tree *)

Lemma quietly_on_disk {A} (m : M VirtualDisk A) :
  quietly (fun d => d) m -> quietly disk (BTree.on_disk m).
Proof.
  intros H bt. unfold BTree.on_disk. specialize (H (disk bt)).
  now destruct (m (disk bt)).
Qed.

Lemma quietly_root : quietly disk BTree.root.
Proof. intros bt. apply quiet_refl. Qed.

Lemma quietly_set_root (r : Z) : quietly disk (BTree.set_root r).
Proof. intros bt. apply quiet_refl. Qed.

#[local] Hint Resolve quietly_on_disk quietly_root quietly_set_root : quiet.

Lemma quietly_findMaxInPage (fuel : nat) :
  forall pageId, quietly disk (BTree.findMaxInPage fuel pageId).
Proof.
  induction fuel as [|fuel IH]; intros pageId; cbn [BTree.findMaxInPage];
    repeat quiet_step.
Qed.

Lemma quietly_getMaxKey (fuel : nat) : quietly disk (BTree.getMaxKey fuel).
Proof.
  unfold BTree.getMaxKey. pose proof (quietly_findMaxInPage fuel).
  repeat quiet_step.
Qed.

Lemma quietly_traverse (fuel : nat) :
  forall pageId, quietly disk (BTree.traverse fuel pageId).
Proof.
  induction fuel as [|fuel IH]; intros pageId; cbn [BTree.traverse];
    [apply quietly_throw|].
  apply quietly_bind; [repeat quiet_step|intros page].
  destruct (byteLength page =? 0); [apply quietly_ret|].
  apply quietly_bind; [repeat quiet_step|intros type].
  apply quietly_bind; [repeat quiet_step|intros numCells].
  destruct (type =? NODE_LEAF); [apply quietly_lift|].
  apply quietly_bind; [repeat quiet_step|intros p0].
  apply quietly_bind; [apply IH|intros first].
  generalize (HEADER_SIZE + 4) first.
  induction (Z.to_nat numCells) as [|n IHn]; intros offset results;
    [apply quietly_ret|].
  apply quietly_bind; [repeat quiet_step|intros p].
  apply quietly_bind; [apply IH|intros sub]. apply IHn.
Qed.

Lemma quietly_getAll (fuel : nat) : quietly disk (BTree.getAll fuel).
Proof.
  unfold BTree.getAll. pose proof (quietly_traverse fuel). repeat quiet_step.
Qed.

Lemma quietly_findLeafPage (fuel : nat) :
  forall pageId key, quietly disk (BTree.findLeafPage fuel pageId key).
Proof.
  induction fuel as [|fuel IH]; intros pageId key; cbn [BTree.findLeafPage];
    repeat quiet_step.
Qed.

Lemma quietly_findInLeaf (pageId key : Z) :
  quietly disk (BTree.findInLeaf pageId key).
Proof. unfold BTree.findInLeaf. repeat quiet_step. Qed.

Lemma quietly_search (fuel : nat) (key : Z) : quietly disk (BTree.search fuel key).
Proof.
  unfold BTree.search. pose proof (quietly_findLeafPage fuel).
  pose proof quietly_findInLeaf. repeat quiet_step.
Qed.

Lemma quietly_writeCellsToLeaf (pageId : Z) (cells : list cell) :
  quietly disk (BTree.writeCellsToLeaf pageId cells).
Proof. unfold BTree.writeCellsToLeaf. repeat quiet_step. Qed.

Lemma quietly_createGenericRoot (key leftChildId rightChildId : Z) :
  quietly disk (BTree.createGenericRoot key leftChildId rightChildId).
Proof. unfold BTree.createGenericRoot. repeat quiet_step. Qed.

Lemma quietly_insertIntoInternal (pageId key rightChildId : Z) :
  quietly disk (BTree.insertIntoInternal pageId key rightChildId).
Proof. unfold BTree.insertIntoInternal. repeat quiet_step. Qed.

#[local] Hint Resolve quietly_writeCellsToLeaf quietly_createGenericRoot
  quietly_insertIntoInternal quietly_findInLeaf : quiet.

Lemma quietly_splitLeaf (pageId key : Z) (value : bytes) :
  quietly disk (BTree.splitLeaf pageId key value).
Proof. unfold BTree.splitLeaf. repeat quiet_step. Qed.

#[local] Hint Resolve quietly_splitLeaf : quiet.

Lemma quietly_insertIntoLeaf (pageId key : Z) (value : bytes) :
  quietly disk (BTree.insertIntoLeaf pageId key value).
Proof. unfold BTree.insertIntoLeaf. repeat quiet_step. Qed.

#[local] Hint Resolve quietly_insertIntoLeaf : quiet.

Lemma quietly_insert (fuel : nat) (key : Z) (value : bytes) :
  quietly disk (BTree.insert fuel key value).
Proof.
  unfold BTree.insert. pose proof (quietly_findLeafPage fuel).
  repeat quiet_step.
Qed.

Lemma quietly_delete (fuel : nat) (key : Z) :
  quietly disk (BTree.delete fuel key).
Proof.
  unfold BTree.delete. pose proof (quietly_findLeafPage fuel).
  repeat quiet_step.
Qed.

#[local] Hint Resolve quietly_getMaxKey quietly_getAll quietly_search
  quietly_insert quietly_delete : quiet.

(** *** The tables and the database *)

Definition table_disk (t : Table) : VirtualDisk := disk (btree t).

Lemma quietly_on_btree {A} (m : M BTree A) :
  quietly disk m -> quietly table_disk (Table.on_btree m).
Proof.
  intros H t. unfold Table.on_btree, table_disk. specialize (H (btree t)).
  now destruct (m (btree t)).
Qed.

Lemma quietly_set_seq (v : Z) : quietly table_disk (Table.set_seq v).
Proof. intros t. apply quiet_refl. Qed.

#[local] Hint Resolve quietly_on_btree quietly_set_seq : quiet.

Lemma quietly_delete_row (fuel : nat) (pk : Z) :
  quietly table_disk (Table.delete fuel pk).
Proof. unfold Table.delete. repeat quiet_step. Qed.

Lemma quietly_select (fuel : nat) (whereFn : option (Row -> bool)) :
  quietly table_disk (Table.select fuel whereFn).
Proof. unfold Table.select. repeat quiet_step. Qed.

Lemma quietly_lastSeq (fuel : nat) : quietly table_disk (Table.lastSeq fuel).
Proof. unfold Table.lastSeq. repeat quiet_step. Qed.

#[local] Hint Resolve quietly_lastSeq : quiet.

Section QuietMethods.

Variable Number_toInt32 : string -> Z.
Variable String_of_number : Z -> string.
Variable String_isInteger : string -> bool.

Lemma quietly_primary_key (fuel : nat) (col : ColumnDefinition)
    (val : option value) (pkValue : option Z) :
  quietly table_disk (Table.primary_key fuel col val pkValue).
Proof. unfold Table.primary_key. repeat quiet_step. Qed.

Lemma quietly_check_columns (fuel : nat) (cols : list ColumnDefinition) :
  forall rowValues row pkValue,
  quietly table_disk
    (Table.check_columns String_isInteger fuel cols rowValues row pkValue).
Proof.
  induction cols as [|col cols IH]; intros [|val rowValues] row pkValue;
    cbn [Table.check_columns]; try apply quietly_ret.
  apply quietly_bind; [apply quietly_primary_key|intros [v pk]].
  destruct v as [v|]; [|apply quietly_throw].
  destruct (Table.validateType String_isInteger v (col_type col));
    [apply IH|apply quietly_throw].
Qed.

Lemma quietly_prepare (fuel : nat) (values : list value)
    (colNames : option (list string)) :
  quietly table_disk (Table.prepare String_isInteger fuel values colNames).
Proof.
  unfold Table.prepare.
  apply quietly_bind; [apply quietly_get|intros t]. cbv zeta.
  apply quietly_bind; [apply quietly_lift|intros rowValues].
  apply quietly_bind; [apply quietly_check_columns|intros [row pk]].
  destruct pk; [apply quietly_ret|apply quietly_throw].
Qed.

Lemma quietly_store (fuel : nat) (row : Row) (pkValue : Z) :
  quietly table_disk
    (Table.store Number_toInt32 String_of_number fuel row pkValue).
Proof. unfold Table.store. repeat quiet_step. Qed.

Lemma quietly_insert_row (fuel : nat) (values : list value)
    (colNames : option (list string)) :
  quietly table_disk
    (Table.insert Number_toInt32 String_of_number String_isInteger
       fuel values colNames).
Proof.
  unfold Table.insert.
  apply quietly_bind; [apply quietly_prepare|intros [row pk]].
  apply quietly_store.
Qed.

Lemma quietly_update (fuel : nat) (pk : Z) (updates : list (string * value)) :
  quietly table_disk
    (Table.update Number_toInt32 String_of_number String_isInteger
       fuel pk updates).
Proof. unfold Table.update. repeat quiet_step. Qed.

End QuietMethods.

Lemma quietly_db_on_disk {A} (m : M VirtualDisk A) :
  quietly (fun d => d) m -> quietly db_disk (Database.on_disk m).
Proof.
  intros H db. unfold Database.on_disk. specialize (H (db_disk db)).
  now destruct (m (db_disk db)).
Qed.

Lemma quietly_set_table (tableName : string) (s : TableSchema) (r : Z) :
  quietly db_disk (Database.set_table tableName s r).
Proof. intros db. apply quiet_refl. Qed.

Lemma quietly_clear_tables : quietly db_disk Database.clear_tables.
Proof. intros db. apply quiet_refl. Qed.

Lemma quietly_on_table {A} (tableName : string) (m : M Table A) :
  quietly table_disk m -> quietly db_disk (Database.on_table tableName m).
Proof.
  intros H db. unfold Database.on_table, Database.table_of.
  destruct (map_get tableName (tables db)) as [[s r]|]; [|apply quiet_refl].
  match goal with |- context [m ?t] => specialize (H t); destruct (m t) end.
  exact H.
Qed.

#[local] Hint Resolve quietly_db_on_disk quietly_set_table quietly_clear_tables
  quietly_on_table quietly_delete_row quietly_select : quiet.

Lemma quietly_load_each (l : list TableMeta) :
  quietly db_disk (Database.load_each l).
Proof.
  induction l as [|s l IH]; cbn [Database.load_each]; repeat quiet_step.
Qed.

#[local] Hint Resolve quietly_load_each : quiet.

Lemma quietly_loadTables : quietly db_disk Database.loadTables.
Proof. unfold Database.loadTables. repeat quiet_step. Qed.

Lemma quietly_saveTableMeta : quietly db_disk Database.saveTableMeta.
Proof. unfold Database.saveTableMeta. repeat quiet_step. Qed.

#[local] Hint Resolve quietly_saveTableMeta : quiet.

Lemma quietly_for_each_row (tableName : string) (f : Z -> M Table unit)
    (rows : list Row) :
  (forall pk, quietly table_disk (f pk)) ->
  forall count, quietly db_disk (Database.for_each_row tableName f rows count).
Proof.
  intros Hf. induction rows as [|r rows IH]; intros count;
    cbn [Database.for_each_row]; [apply quietly_ret|].
  apply quietly_bind; [|intros _; apply IH].
  apply quietly_on_table. apply quietly_bind; [apply quietly_get|intros t].
  apply Hf.
Qed.

Definition ends_transaction (cmd : command) : bool :=
  match cmd with
  | COMMIT | ROLLBACK => true
  | _ => false
  end.

Section QuietCommands.

Variable Number_toInt32 : string -> Z.
Variable String_of_number : Z -> string.
Variable String_isInteger : string -> bool.

Local Abbreviation run_command :=
  (Database.execute Number_toInt32 String_of_number String_isInteger).
Local Abbreviation run_commands :=
  (Database.execute_all Number_toInt32 String_of_number String_isInteger).

Lemma quietly_execute (fuel : nat) (cmd : command) :
  ends_transaction cmd = false -> quietly db_disk (run_command fuel cmd).
Proof.
  intros Hcmd. destruct cmd; try discriminate; unfold Database.execute.
  - repeat quiet_step.
  - repeat quiet_step.
  - apply quietly_bind; [|intros _; repeat quiet_step].
    apply quietly_on_table, quietly_insert_row.
  - repeat quiet_step.
  - apply quietly_bind; [repeat quiet_step|intros rows].
    apply quietly_bind; [|intros count; apply quietly_ret].
    apply quietly_for_each_row. intros pk. apply quietly_delete_row.
  - apply quietly_bind; [repeat quiet_step|intros rows].
    apply quietly_bind; [|intros count; apply quietly_ret].
    apply quietly_for_each_row. intros pk. apply quietly_update.
Qed.

Lemma quiet_execute_all (fuel : nat) (cmds : list command) :
  forallb (fun cmd => negb (ends_transaction cmd)) cmds = true ->
  forall db, quiet (db_disk db) (db_disk (run_commands fuel cmds db)).
Proof.
  induction cmds as [|cmd cmds IH]; intros Hcmds db; [apply quiet_refl|].
  cbn [forallb] in Hcmds. apply andb_true_iff in Hcmds as [Hcmd Hcmds].
  apply negb_true_iff in Hcmd.
  unfold Database.execute_all. cbn [fold_left].
  eapply quiet_trans; [apply (quietly_execute fuel cmd Hcmd db)|].
  apply (IH Hcmds).
Qed.

End QuietCommands.

(** ** More on the B-tree *)

(** *** What an insertion makes of the cells *)

Definition has_room (cc : list cell) (value : bytes) : bool :=
  HEADER_SIZE + byteLength (cells_bytes cc) + (8 + byteLength value)
  <=? PAGE_SIZE.

(** The cells that stay in their page when a leaf under the root
    receives a cell: all of them when there is room, the left half of
    the split when there is none. *)
Definition kept_cells (cc : list cell) (key : Z) (value : bytes) : list cell :=
  let cells := insert_by_key (key, value) cc in
  if has_room cc value then cells
  else firstn (Z.to_nat (Z.of_nat (length cells) / 2)) cells.

Definition new_contents (t : tree_shape) (key : Z) (value : bytes)
    : list cell :=
  match t with
  | OneLeaf cs => insert_by_key (key, value) cs
  | TwoLeaves a s b ca cb =>
      if key <? s then kept_cells ca key value ++ cb
      else ca ++ kept_cells cb key value
  end.

Lemma split_cells_ok (key : Z) (value : bytes) (cs : list cell) (mid : nat) :
  Forall cell_ok cs -> key_ok key ->
  fits_leaf (firstn mid (insert_by_key (key, value) cs)) = true ->
  fits_leaf (skipn mid (insert_by_key (key, value) cs)) = true ->
  Forall cell_ok (insert_by_key (key, value) cs).
Proof.
  intros Hcs Hkey Hf1 Hf2. set (cells := insert_by_key (key, value) cs) in *.
  apply Forall_cell_ok_insert; [|exact Hcs].
  split; [assumption|]. cbn [snd].
  pose proof (byteLength_nonneg (cells_bytes (firstn mid cells))).
  pose proof (byteLength_nonneg (cells_bytes (skipn mid cells))).
  apply fits_leaf_true in Hf1, Hf2.
  assert (Hsum : byteLength (cells_bytes cells)
                 = byteLength (cells_bytes (firstn mid cells))
                   + byteLength (cells_bytes (skipn mid cells)))
    by (rewrite <- byteLength_app, <- cells_bytes_app; now rewrite firstn_skipn).
  unfold cells in Hsum at 1. rewrite byteLength_cells_bytes_insert in Hsum.
  pose proof (byteLength_nonneg (cells_bytes cs)). consts. lia.
Qed.

Lemma insert_one_leaf (key : Z) (value : bytes) (bt bt' : BTree)
    (cs : list cell) :
  represents bt (OneLeaf cs) -> key_ok key ->
  BTree.insertIntoLeaf (rootPageId bt) key value bt = (bt', Ok tt) ->
  exists t', represents bt' t'
             /\ contents t' = insert_by_key (key, value) cs.
Proof.
  intros (Hl & Hs & Hr & Hmax) Hkey Hrun. cbv zeta in *.
  set (r := rootPageId bt) in *.
  destruct (has_key key cs) eqn:Hdup.
  { destruct (insertIntoLeaf_duplicate r key value bt 0 cs Hl Hdup)
      as (bt1 & E & _). rewrite E in Hrun. discriminate. }
  destruct (Z.le_gt_cases
              (HEADER_SIZE + byteLength (cells_bytes cs) + (8 + byteLength value))
              PAGE_SIZE) as [Hfit|Hfull].
  - destruct (insertIntoLeaf_fits r key value bt 0 cs Hl Hdup Hkey Hfit)
      as (bt1 & page' & E & (R & P & O & M1 & M2 & _) & Hl').
    rewrite E in Hrun. injection Hrun as <-.
    exists (OneLeaf (insert_by_key (key, value) cs)). split; [|reflexivity].
    cbn. fold r in R. rewrite R, P. splits; try lia; [exact Hl'|].
    now apply strictly_ascending_insert.
  - destruct (insertIntoLeaf_full r key value bt 0 cs Hl Hdup Hfull)
      as (bt1 & E & U1).
    rewrite E in Hrun. clear E.
    pose proof (unchanged_maxPageId _ _ U1) as Hm1.
    assert (Hl1 : is_leaf (page_of (disk bt1) r) 0 cs)
      by now rewrite (unchanged_page_of _ _ _ U1).
    pose proof (splitLeaf_spec r key value bt1 0 cs Hl1 ltac:(lia)) as Hsplit.
    cbv zeta in Hsplit. rewrite (sort_after_append key value cs Hs) in Hsplit.
    set (cells := insert_by_key (key, value) cs) in *.
    set (mid := Z.to_nat (Z.of_nat (length cells) / 2)) in *.
    destruct (fits_leaf (firstn mid cells)) eqn:Hf1;
      [|destruct Hsplit as (bt2 & E2); rewrite E2 in Hrun; discriminate].
    destruct (fits_leaf (skipn mid cells)) eqn:Hf2;
      [|destruct Hsplit as (bt2 & E2); rewrite E2 in Hrun; discriminate].
    cbn [andb] in Hsplit.
    destruct Hsplit as (bt2 & E2 & R2 & M2 & P2 & P2' & O2 & _).
    rewrite E2 in Hrun. clear E2.
    destruct U1 as [R1 O1]. fold r in R1.
    destruct (Z.eqb_spec r (rootPageId bt1)) as [_|Hne]; [|congruence].
    set (sep := fst (nth mid cells (0, []))) in *.
    set (newId := maxPageId (disk bt1) + 1) in *.
    destruct (createGenericRoot_spec sep r newId bt2)
      as (bt3 & E3 & R3 & M3 & P3 & O3 & _).
    rewrite E3 in Hrun. injection Hrun as <-.
    assert (Hcells : strictly_ascending cells)
      by now apply strictly_ascending_insert.
    assert (Hoks : Forall cell_ok cells)
      by (apply (split_cells_ok key value cs mid); try assumption; apply Hl).
    assert (Hmid : (mid < length cells)%nat).
    { unfold mid. apply mid_lt_length. unfold cells.
      rewrite length_insert_by_key. lia. }
    destruct (split_halves cells mid Hcells Hmid)
      as (Hs1 & Hs2 & Hlt & Hge & Hin).
    fold sep in Hlt, Hge.
    assert (Hsep : key_ok sep).
    { rewrite List.Forall_forall in Hoks. apply (Hoks _ Hin). }
    exists (TwoLeaves r sep newId (firstn mid cells) (skipn mid cells)).
    split; [|cbn; apply firstn_skipn].
    cbn. rewrite R3, P3, M3.
    rewrite !O3 by (unfold newId in *; lia). rewrite P2, P2', M2.
    unfold newId in *. splits; try lia.
    + apply built_root_is_internal; [assumption|lia|lia].
    + apply (built_leaf_is_leaf _ (Forall_firstn _ _ _ Hoks) Hf1).
    + apply (built_leaf_is_leaf _ (Forall_skipn _ _ _ Hoks) Hf2).
    + exact Hs1.
    + exact Hs2.
    + exact Hlt.
    + exact Hge.
Qed.

Lemma insert_below_root (c key : Z) (value : bytes) (bt bt' : BTree)
    (cc : list cell) :
  is_leaf (page_of (disk bt) c) 0 cc -> strictly_ascending cc ->
  key_ok key -> 1 <= c <= maxPageId (disk bt) -> c <> rootPageId bt ->
  BTree.insertIntoLeaf c key value bt = (bt', Ok tt) ->
  is_leaf (page_of (disk bt') c) 0 (kept_cells cc key value)
  /\ strictly_ascending (kept_cells cc key value)
  /\ (has_room cc value = false -> cc <> [])
  /\ rootPageId bt' = rootPageId bt
  /\ maxPageId (disk bt) <= maxPageId (disk bt')
  /\ (forall id, id <> c -> 1 <= id <= maxPageId (disk bt) ->
        page_of (disk bt') id = page_of (disk bt) id).
Proof.
  intros Hl Hs Hkey Hc Hroot Hrun. unfold kept_cells, has_room.
  destruct (has_key key cc) eqn:Hdup.
  { destruct (insertIntoLeaf_duplicate c key value bt 0 cc Hl Hdup)
      as (bt1 & E & _). rewrite E in Hrun. discriminate. }
  destruct (Z.leb_spec
              (HEADER_SIZE + byteLength (cells_bytes cc) + (8 + byteLength value))
              PAGE_SIZE) as [Hfit|Hfull].
  - destruct (insertIntoLeaf_fits c key value bt 0 cc Hl Hdup Hkey Hfit)
      as (bt1 & page' & E & (R & P & O & M1 & M2 & _) & Hl').
    rewrite E in Hrun. injection Hrun as <-. splits.
    + now rewrite P.
    + now apply strictly_ascending_insert.
    + discriminate.
    + exact R.
    + exact M1.
    + intros id Hne _. now apply O.
  - destruct (insertIntoLeaf_full c key value bt 0 cc Hl Hdup ltac:(lia))
      as (bt1 & E & U1).
    rewrite E in Hrun. clear E.
    pose proof (unchanged_maxPageId _ _ U1) as Hm1.
    assert (Hl1 : is_leaf (page_of (disk bt1) c) 0 cc)
      by now rewrite (unchanged_page_of _ _ _ U1).
    pose proof (splitLeaf_spec c key value bt1 0 cc Hl1 ltac:(lia)) as Hsplit.
    cbv zeta in Hsplit. rewrite (sort_after_append key value cc Hs) in Hsplit.
    set (cells := insert_by_key (key, value) cc) in *.
    set (mid := Z.to_nat (Z.of_nat (length cells) / 2)) in *.
    destruct (fits_leaf (firstn mid cells)) eqn:Hf1;
      [|destruct Hsplit as (bt2 & E2); rewrite E2 in Hrun; discriminate].
    destruct (fits_leaf (skipn mid cells)) eqn:Hf2;
      [|destruct Hsplit as (bt2 & E2); rewrite E2 in Hrun; discriminate].
    cbn [andb] in Hsplit.
    destruct Hsplit as (bt2 & E2 & R2 & M2 & P2 & _ & O2 & _).
    rewrite E2 in Hrun. clear E2.
    destruct U1 as [R1 O1].
    destruct (Z.eqb_spec c (rootPageId bt1)) as [Heq|_]; [congruence|].
    apply insertIntoInternal_touches in Hrun as (R3 & O3 & M3 & _).
    assert (Hcells : strictly_ascending cells)
      by now apply strictly_ascending_insert.
    assert (Hoks : Forall cell_ok cells)
      by (apply (split_cells_ok key value cc mid); try assumption; apply Hl).
    assert (Hmid : (mid < length cells)%nat).
    { unfold mid. apply mid_lt_length. unfold cells.
      rewrite length_insert_by_key. lia. }
    destruct (split_halves cells mid Hcells Hmid) as (Hs1 & _).
    splits.
    + rewrite O3, P2 by lia.
      apply (built_leaf_is_leaf _ (Forall_firstn _ _ _ Hoks) Hf1).
    + exact Hs1.
    + intros _ ->. cbn in cells. subst cells mid.
      change (Z.to_nat (Z.of_nat (length [(key, value)]) / 2)) with 0%nat in Hf2.
      cbn [skipn] in Hf2. apply fits_leaf_true in Hf2.
      rewrite cells_bytes_cons, byteLength_app, byteLength_cell_bytes in Hf2.
      cbn [snd] in Hf2.
      change (byteLength (cells_bytes [])) with 0 in *. lia.
    + congruence.
    + lia.
    + intros id Hne Hid. rewrite O3 by lia. rewrite O2 by lia.
      now apply only_read_page_of.
Qed.

Lemma insert_exact (fuel : nat) (key : Z) (value : bytes)
    (bt bt' : BTree) (t : tree_shape) :
  represents bt t -> key_ok key -> (2 <= fuel)%nat ->
  BTree.insert fuel key value bt = (bt', Ok tt) ->
  exists t', represents bt' t' /\ contents t' = new_contents t key value.
Proof.
  intros H Hkey Hfuel Hrun. unfold BTree.insert in Hrun.
  rewrite bind_root in Hrun.
  destruct (findLeafPage_represents fuel bt t key H Hfuel) as (bt1 & E1 & U1).
  unfold bind at 1 in Hrun. rewrite E1 in Hrun. clear E1.
  pose proof (represents_unchanged _ _ _ H U1) as H1.
  assert (R1 : rootPageId bt1 = rootPageId bt) by apply U1.
  rewrite <- R1 in Hrun.
  destruct t as [cs|a s b ca cb]; cbn [leaf_for new_contents] in *.
  - eapply insert_one_leaf; eassumption.
  - destruct H1 as (Hr & Ha & Hb & Hsa & Hsb & Hlt & Hge & Ra & Rb & Rr
                    & Hab & Har & Hbr). cbv zeta in *.
    destruct (Z.ltb_spec key s) as [Hks|Hks].
    + destruct (insert_below_root a key value bt1 bt' ca Ha Hsa Hkey
                  Ra Har Hrun) as (Ha' & Hsa' & _ & R' & M' & O').
      exists (TwoLeaves a s b (kept_cells ca key value) cb).
      split; [|reflexivity]. cbn. rewrite R'.
      rewrite (O' (rootPageId bt1)), (O' b) by (auto; lia).
      splits; try assumption; try lia.
      intros c Hc. unfold kept_cells in Hc.
      destruct (has_room ca value); [|apply In_firstn in Hc];
        apply In_insert_by_key in Hc as [->|Hc]; auto.
    + destruct (insert_below_root b key value bt1 bt' cb Hb Hsb Hkey
                  Rb Hbr Hrun) as (Hb' & Hsb' & _ & R' & M' & O').
      exists (TwoLeaves a s b ca (kept_cells cb key value)).
      split; [|reflexivity]. cbn. rewrite R'.
      rewrite (O' (rootPageId bt1)), (O' a) by (auto; lia).
      splits; try assumption; try lia.
      intros c Hc. unfold kept_cells in Hc.
      destruct (has_room cb value); [|apply In_firstn in Hc];
        apply In_insert_by_key in Hc as [->|Hc]; auto; cbn; lia.
Qed.

Lemma insert_by_key_before (x : cell) (l1 l2 : list cell) :
  (forall c, In c l2 -> fst x < fst c) ->
  insert_by_key x (l1 ++ l2) = insert_by_key x l1 ++ l2.
Proof.
  intros Hl2. induction l1 as [|y l1 IH]; cbn.
  - destruct l2 as [|z l2]; [reflexivity|]. cbn.
    destruct (Z.leb_spec (fst z) (fst x)); [|reflexivity].
    specialize (Hl2 z (or_introl eq_refl)). lia.
  - destruct (fst y <=? fst x); cbn; [now rewrite IH|reflexivity].
Qed.

Lemma insert_by_key_after (x : cell) (l1 l2 : list cell) :
  (forall c, In c l1 -> fst c <= fst x) ->
  insert_by_key x (l1 ++ l2) = l1 ++ insert_by_key x l2.
Proof.
  induction l1 as [|y l1 IH]; intros Hl1; cbn; [reflexivity|].
  destruct (Z.leb_spec (fst y) (fst x)) as [_|Hlt].
  - rewrite IH; [reflexivity|]. intros c Hc. apply Hl1. now right.
  - specialize (Hl1 y (or_introl eq_refl)). lia.
Qed.

Lemma lookup_cell_ascending (key : Z) (v : bytes) (cs : list cell) :
  strictly_ascending cs -> In (key, v) cs -> lookup_cell key cs = Some v.
Proof.
  unfold strictly_ascending. induction cs as [|c cs IH]; intros Hs Hin;
    [contradiction|].
  cbn in Hs. apply StronglySorted_inv in Hs as [Hs Hall].
  cbn. destruct Hin as [->|Hin]; cbn; [now rewrite Z.eqb_refl|].
  destruct (Z.eqb_spec (fst c) key) as [Heq|_]; [|now apply IH].
  rewrite List.Forall_forall in Hall.
  assert (fst c < key); [|lia].
  apply Hall. apply in_map_iff. now exists (key, v).
Qed.

Lemma lookup_cell_some (key : Z) (v : bytes) (cs : list cell) :
  lookup_cell key cs = Some v -> In (key, v) cs.
Proof.
  induction cs as [|[k w] cs IH]; cbn; [discriminate|].
  destruct (Z.eqb_spec k key) as [->|_]; [|now right; apply IH].
  intros [= ->]. now left.
Qed.

Lemma lookup_cell_contents (bt : BTree) (t : tree_shape) (key : Z) :
  represents bt t ->
  lookup_cell key (cells_for t key) = lookup_cell key (contents t).
Proof.
  intros H. pose proof (cells_for_has_key bt t key H) as Hk.
  pose proof (contents_strictly_ascending bt t H) as Hs.
  destruct (represents_leaf bt t key H) as [_ Hsl].
  destruct (lookup_cell key (contents t)) as [v|] eqn:Ec.
  - apply lookup_cell_some in Ec.
    apply lookup_cell_ascending; [exact Hsl|].
    destruct t as [cs|a s b ca cb]; cbn in *; [exact Ec|].
    destruct H as (_ & _ & _ & _ & _ & Hlt & Hge & _).
    apply in_app_or in Ec as [Ec|Ec]; destruct (Z.ltb_spec key s); auto.
    + specialize (Hlt _ Ec). cbn in Hlt. lia.
    + specialize (Hge _ Ec). cbn in Hge. lia.
  - apply lookup_cell_none. rewrite <- Hk.
    destruct (has_key key (contents t)) eqn:Hh; [|reflexivity].
    apply has_key_true in Hh as ([k v] & Hin & Heq). cbn in Heq. subst k.
    rewrite (lookup_cell_ascending key v _ Hs Hin) in Ec. discriminate.
Qed.

(** *** [search] and [getAll] *)

(** On a reachable tree [search] finds the payload of a key exactly
    when [getAll] lists the key with that payload, and finds nothing
    exactly when [getAll] does not list the key. *)
Theorem search_agrees_with_getAll (fuel : nat) (bt bt1 : BTree)
    (cells : list cell) (key : Z) :
  (2 <= fuel)%nat ->
  reachable fuel bt ->
  BTree.getAll fuel bt = (bt1, Ok cells) ->
  exists bt2 found,
    BTree.search fuel key bt = (bt2, Ok found)
    /\ unchanged bt bt2
    /\ match found with
       | Some v => In (key, v) cells
       | None => ~ In key (map fst cells)
       end.
Proof.
  intros Hfuel Hreach Hall.
  destruct (reachable_represents fuel bt Hfuel Hreach) as [t Ht].
  destruct (getAll_represents fuel bt t Ht Hfuel) as (bt1' & E & _).
  rewrite E in Hall. injection Hall as _ <-.
  destruct (search_represents fuel bt t key Ht Hfuel) as (bt2 & Es & U).
  rewrite (lookup_cell_contents bt t key Ht) in Es.
  exists bt2, (lookup_cell key (contents t)). splits; [exact Es|exact U|].
  destruct (lookup_cell key (contents t)) as [v|] eqn:El.
  - now apply lookup_cell_some.
  - intros Hin. apply in_map_iff in Hin as ([k v] & Hk & Hin). cbn in Hk.
    subst k.
    rewrite (lookup_cell_ascending key v _
               (contents_strictly_ascending bt t Ht) Hin) in El.
    discriminate.
Qed.

(** *** [insert] *)

Lemma root_leaf_is_one_leaf (bt : BTree) (t : tree_shape) :
  represents bt t ->
  getUint8 (page_of (disk bt) (rootPageId bt)) OFF_TYPE = Ok NODE_LEAF ->
  exists cs, t = OneLeaf cs.
Proof.
  intros H Hty. destruct t as [cs|a s b ca cb]; [now exists cs|].
  destruct H as (Hr & _). cbv zeta in Hr.
  rewrite (is_internal_type _ _ _ _ Hr) in Hty. discriminate.
Qed.

Lemma found_leaf_cells (fuel : nat) (bt bt0 : BTree) (t : tree_shape)
    (key leafId numCells : Z) (cc : list cell) :
  represents bt t -> (2 <= fuel)%nat ->
  BTree.findLeafPage fuel (rootPageId bt) key bt = (bt0, Ok leafId) ->
  getUint16 (page_of (disk bt) leafId) OFF_NUM_CELLS = Ok numCells ->
  BTree.read_cells (page_of (disk bt) leafId) (Z.to_nat numCells) HEADER_SIZE
  = Ok cc ->
  cc = cells_for t key.
Proof.
  intros Ht Hfuel Hfind Hn Hread.
  destruct (findLeafPage_represents fuel bt t key Ht Hfuel) as (bt1' & E1 & _).
  rewrite E1 in Hfind. injection Hfind as _ <-.
  destruct (represents_leaf bt t key Ht) as [Hl _].
  rewrite (is_leaf_numCells _ _ _ Hl) in Hn. injection Hn as <-.
  rewrite Nat2Z.id, (is_leaf_read_cells _ _ _ Hl) in Hread. congruence.
Qed.

Lemma new_contents_room (bt : BTree) (t : tree_shape) (key : Z) (value : bytes) :
  represents bt t ->
  has_room (cells_for t key) value = true ->
  new_contents t key value = insert_by_key (key, value) (contents t).
Proof.
  intros H Hroom. destruct t as [cs|a s b ca cb]; [reflexivity|].
  cbn [new_contents cells_for contents] in *. unfold kept_cells.
  destruct H as (_ & _ & _ & _ & _ & Hlt & Hge & _).
  destruct (Z.ltb_spec key s); rewrite Hroom; symmetry.
  - apply insert_by_key_before. intros c Hc. specialize (Hge c Hc). cbn. lia.
  - apply insert_by_key_after. intros c Hc. specialize (Hlt c Hc). cbn. lia.
Qed.

Lemma search_after_insert (fuel : nat) (bt : BTree) (t : tree_shape)
    (key : Z) (value : bytes) :
  represents bt t -> (2 <= fuel)%nat ->
  In (key, value) (contents t) ->
  exists bt2, BTree.search fuel key bt = (bt2, Ok (Some value)).
Proof.
  intros Ht Hfuel Hin.
  destruct (search_represents fuel bt t key Ht Hfuel) as (bt2 & Es & _).
  exists bt2. rewrite Es, (lookup_cell_contents bt t key Ht).
  now rewrite (lookup_cell_ascending key value _
                 (contents_strictly_ascending bt t Ht) Hin).
Qed.

(** While the tree is one leaf, an insertion that returns loses
    nothing, also when it splits the root: [getAll] lists afterwards
    the cells it listed, in their order, with the new cell at its
    place, and [search] finds the new payload. *)
Theorem insert_into_single_leaf (fuel : nat) (bt bt1 bt' : BTree)
    (cells : list cell) (key : Z) (value : bytes) :
  (2 <= fuel)%nat ->
  reachable fuel bt ->
  key_ok key ->
  getUint8 (page_of (disk bt) (rootPageId bt)) OFF_TYPE = Ok NODE_LEAF ->
  BTree.getAll fuel bt = (bt1, Ok cells) ->
  BTree.insert fuel key value bt = (bt', Ok tt) ->
  exists before after bt2 bt3,
    cells = before ++ after
    /\ BTree.getAll fuel bt' = (bt2, Ok (before ++ (key, value) :: after))
    /\ BTree.search fuel key bt' = (bt3, Ok (Some value)).
Proof.
  intros Hfuel Hreach Hkey Hty Hall Hins.
  destruct (reachable_represents fuel bt Hfuel Hreach) as [t Ht].
  destruct (root_leaf_is_one_leaf bt t Ht Hty) as [cs ->].
  destruct (getAll_represents fuel bt _ Ht Hfuel) as (bt1' & E & _).
  rewrite E in Hall. injection Hall as _ <-. cbn [contents].
  destruct (insert_exact fuel key value bt bt' _ Ht Hkey Hfuel Hins)
    as (t' & Ht' & Hc). cbn [new_contents] in Hc.
  rewrite insert_by_key_split in Hc.
  destruct (getAll_represents fuel bt' t' Ht' Hfuel) as (bt2 & E2 & _).
  destruct (search_after_insert fuel bt' t' key value Ht' Hfuel) as (bt3 & E3).
  { rewrite Hc. apply in_or_app. right. now left. }
  exists (cells_upto key cs), (cells_after key cs), bt2, bt3.
  splits; [now rewrite cells_upto_after|now rewrite E2, Hc|exact E3].
Qed.

(** When the leaf that the key belongs to has room for the cell and
    does not hold the key, the insertion returns, in a tree of one
    leaf or of two: [getAll] lists afterwards the cells it listed with
    the new cell at its place, and [search] finds the new payload. *)
Theorem insert_with_room (fuel : nat) (bt bt0 bt1 : BTree)
    (cells cc : list cell) (key leafId numCells : Z) (value : bytes) :
  (2 <= fuel)%nat ->
  reachable fuel bt ->
  key_ok key ->
  BTree.findLeafPage fuel (rootPageId bt) key bt = (bt0, Ok leafId) ->
  getUint16 (page_of (disk bt) leafId) OFF_NUM_CELLS = Ok numCells ->
  BTree.read_cells (page_of (disk bt) leafId) (Z.to_nat numCells) HEADER_SIZE
  = Ok cc ->
  has_room cc value = true ->
  ~ In key (map fst cc) ->
  BTree.getAll fuel bt = (bt1, Ok cells) ->
  exists bt' before after bt2 bt3,
    BTree.insert fuel key value bt = (bt', Ok tt)
    /\ cells = before ++ after
    /\ BTree.getAll fuel bt' = (bt2, Ok (before ++ (key, value) :: after))
    /\ BTree.search fuel key bt' = (bt3, Ok (Some value)).
Proof.
  intros Hfuel Hreach Hkey Hfind Hn Hread Hroom Hnew Hall.
  destruct (reachable_represents fuel bt Hfuel Hreach) as [t Ht].
  pose proof (found_leaf_cells fuel bt bt0 t key leafId numCells cc
                Ht Hfuel Hfind Hn Hread) as ->.
  destruct (getAll_represents fuel bt _ Ht Hfuel) as (bt1' & E & _).
  rewrite E in Hall. injection Hall as _ <-.
  assert (Hdup : has_key key (cells_for t key) = false).
  { apply has_key_false. intros c Hc Hk. apply Hnew.
    apply in_map_iff. now exists c. }
  assert (Hins : exists bt', BTree.insert fuel key value bt = (bt', Ok tt)).
  { unfold BTree.insert. rewrite bind_root.
    destruct (findLeafPage_represents fuel bt t key Ht Hfuel) as (bt1'' & E1 & U1).
    unfold bind at 1. rewrite E1.
    destruct (represents_leaf bt t key Ht) as [Hl _].
    rewrite <- (unchanged_page_of _ _ _ U1) in Hl.
    apply Z.leb_le in Hroom.
    destruct (insertIntoLeaf_fits _ key value bt1'' 0 _ Hl Hdup Hkey Hroom)
      as (bt' & page' & E' & _).
    now exists bt'. }
  destruct Hins as (bt' & Hins).
  destruct (insert_exact fuel key value bt bt' _ Ht Hkey Hfuel Hins)
    as (t' & Ht' & Hc).
  rewrite (new_contents_room bt t key value Ht Hroom) in Hc.
  rewrite insert_by_key_split in Hc.
  destruct (getAll_represents fuel bt' t' Ht' Hfuel) as (bt2 & E2 & _).
  destruct (search_after_insert fuel bt' t' key value Ht' Hfuel) as (bt3 & E3).
  { rewrite Hc. apply in_or_app. right. now left. }
  exists bt', (cells_upto key (contents t)), (cells_after key (contents t)),
    bt2, bt3.
  splits; [exact Hins|now rewrite cells_upto_after|now rewrite E2, Hc|exact E3].
Qed.

(** What the split of a leaf under the root costs: when the root is an
    internal node and the leaf that the key belongs to has no room, an
    insertion that returns leaves [getAll] with no more cells than it
    had, each of them a cell that was there or the new one.  The right
    half of the split is in a page that no node leads to. *)
Theorem insert_below_root_loses_cells (fuel : nat) (bt bt0 bt1 bt' : BTree)
    (cells cc : list cell) (key leafId numCells : Z) (value : bytes) :
  (2 <= fuel)%nat ->
  reachable fuel bt ->
  key_ok key ->
  getUint8 (page_of (disk bt) (rootPageId bt)) OFF_TYPE = Ok NODE_INTERNAL ->
  BTree.findLeafPage fuel (rootPageId bt) key bt = (bt0, Ok leafId) ->
  getUint16 (page_of (disk bt) leafId) OFF_NUM_CELLS = Ok numCells ->
  BTree.read_cells (page_of (disk bt) leafId) (Z.to_nat numCells) HEADER_SIZE
  = Ok cc ->
  has_room cc value = false ->
  BTree.getAll fuel bt = (bt1, Ok cells) ->
  BTree.insert fuel key value bt = (bt', Ok tt) ->
  exists bt2 cells',
    BTree.getAll fuel bt' = (bt2, Ok cells')
    /\ (length cells' <= length cells)%nat
    /\ forall c, In c cells' -> c = (key, value) \/ In c cells.
Proof.
  intros Hfuel Hreach Hkey Hty Hfind Hn Hread Hroom Hall Hins.
  destruct (reachable_represents fuel bt Hfuel Hreach) as [t Ht].
  pose proof (found_leaf_cells fuel bt bt0 t key leafId numCells cc
                Ht Hfuel Hfind Hn Hread) as ->.
  destruct (getAll_represents fuel bt _ Ht Hfuel) as (bt1' & E & _).
  rewrite E in Hall. injection Hall as _ <-.
  destruct t as [cs|a s b ca cb].
  { destruct Ht as (Hl & _). cbv zeta in Hl.
    rewrite (is_leaf_type _ _ _ Hl) in Hty. discriminate. }
  assert (Hne : cells_for (TwoLeaves a s b ca cb) key <> []).
  { unfold BTree.insert in Hins. rewrite bind_root in Hins.
    destruct (findLeafPage_represents fuel bt _ key Ht Hfuel) as (bt1'' & E1 & U1).
    unfold bind at 1 in Hins. rewrite E1 in Hins.
    pose proof (represents_unchanged _ _ _ Ht U1) as H1.
    assert (R1 : rootPageId bt1'' = rootPageId bt) by apply U1.
    rewrite <- R1 in Hins. cbn [leaf_for cells_for] in *.
    destruct H1 as (Hr & Ha & Hb & Hsa & Hsb & _ & _ & Ra & Rb & Rr
                    & Hab & Har & Hbr). cbv zeta in *.
    destruct (Z.ltb_spec key s).
    - now apply (insert_below_root a key value bt1'' bt' ca Ha Hsa Hkey
                   Ra Har Hins).
    - now apply (insert_below_root b key value bt1'' bt' cb Hb Hsb Hkey
                   Rb Hbr Hins). }
  destruct (insert_exact fuel key value bt bt' _ Ht Hkey Hfuel Hins)
    as (t' & Ht' & Hc).
  destruct (getAll_represents fuel bt' t' Ht' Hfuel) as (bt2 & E2 & _).
  exists bt2, (contents t'). split; [exact E2|]. rewrite Hc.
  cbn [new_contents cells_for contents] in *. unfold kept_cells.
  assert (Hhalf : forall l : list cell, l <> [] ->
            (length (firstn (Z.to_nat (Z.of_nat (length (insert_by_key (key, value) l)) / 2))
                       (insert_by_key (key, value) l)) <= length l)%nat).
  { intros l Hl. rewrite length_firstn, length_insert_by_key.
    destruct l as [|c l]; [contradiction|]. cbn [length].
    apply Nat.min_le_iff. left. apply Nat2Z.inj_le.
    rewrite Z2Nat.id by (apply Z.div_pos; lia).
    apply Z.div_le_upper_bound; lia. }
  destruct (Z.ltb_spec key s); rewrite Hroom; split.
  - rewrite !length_app. specialize (Hhalf ca Hne). lia.
  - intros c Hc'. apply in_app_or in Hc' as [Hc'|Hc'].
    + apply In_firstn, In_insert_by_key in Hc' as [->|Hc']; auto.
      right. apply in_or_app. now left.
    + right. apply in_or_app. now right.
  - rewrite !length_app. specialize (Hhalf cb Hne). lia.
  - intros c Hc'. apply in_app_or in Hc' as [Hc'|Hc'].
    + right. apply in_or_app. now left.
    + apply In_firstn, In_insert_by_key in Hc' as [->|Hc']; auto.
      right. apply in_or_app. now right.
Qed.

(** *** [delete] *)

Lemma without_key_absent (key : Z) (cs : list cell) :
  (forall c, In c cs -> fst c <> key) -> without_key key cs = cs.
Proof.
  intros H. unfold without_key. induction cs as [|c cs IH]; cbn; [reflexivity|].
  destruct (Z.eqb_spec (fst c) key) as [Heq|_]; cbn.
  - now destruct (H c (or_introl eq_refl)).
  - rewrite IH; [reflexivity|]. intros c' Hc'. apply H. now right.
Qed.

Lemma without_key_app (key : Z) (l1 l2 : list cell) :
  without_key key (l1 ++ l2) = without_key key l1 ++ without_key key l2.
Proof. unfold without_key. apply List.filter_app. Qed.

Lemma delete_exact (fuel : nat) (key : Z) (bt bt' : BTree) (t : tree_shape) :
  represents bt t -> (2 <= fuel)%nat ->
  BTree.delete fuel key bt = (bt', Ok tt) ->
  exists t', represents bt' t'
             /\ contents t' = without_key key (contents t).
Proof.
  intros H Hfuel Hrun.
  destruct (findLeafPage_represents fuel bt t key H Hfuel) as (bt1 & E1 & U1).
  destruct (represents_leaf bt t key H) as [Hl Hs].
  pose proof (delete_in_leaf fuel key bt bt1 _ 0 _ E1 U1 Hl) as Hdel.
  destruct (has_key key (cells_for t key)) eqn:Hhas;
    [|destruct Hdel as (bt2 & E & _); rewrite E in Hrun; discriminate].
  destruct Hdel as (bt2 & page' & E & (R & P & O & M1 & M2 & _) & Hl').
  rewrite E in Hrun. injection Hrun as <-.
  destruct t as [cs|a s b ca cb]; cbn [leaf_for cells_for contents] in *.
  - destruct H as (_ & _ & Hr & Hmax). cbv zeta in *.
    exists (OneLeaf (without_key key cs)). split; [|reflexivity].
    cbn. rewrite R, P. splits; try lia; [exact Hl'|].
    now apply strictly_ascending_without.
  - destruct H as (Hr & Ha & Hb & Hsa & Hsb & Hlt & Hge & Ra & Rb & Rr
                   & Hab & Har & Hbr). cbv zeta in *.
    rewrite without_key_app.
    destruct (Z.ltb_spec key s) as [Hks|Hks].
    + exists (TwoLeaves a s b (without_key key ca) cb). split.
      * cbn. rewrite R, P, !O by auto.
        splits; try assumption; try lia.
        -- now apply strictly_ascending_without.
        -- intros c Hc. apply Hlt. unfold without_key in Hc.
           now apply List.filter_In in Hc as [Hc _].
      * cbn. f_equal. symmetry. apply without_key_absent.
        intros c Hc. specialize (Hge c Hc). lia.
    + exists (TwoLeaves a s b ca (without_key key cb)). split.
      * cbn. rewrite R, P, !O by auto.
        splits; try assumption; try lia.
        -- now apply strictly_ascending_without.
        -- intros c Hc. apply Hge. unfold without_key in Hc.
           now apply List.filter_In in Hc as [Hc _].
      * cbn. f_equal. symmetry. apply without_key_absent.
        intros c Hc. specialize (Hlt c Hc). lia.
Qed.

(** A deletion that returns takes the cell of the key out of what
    [getAll] lists and leaves every other cell, in its order. *)
Theorem delete_keeps_the_others (fuel : nat) (bt bt1 bt' : BTree)
    (cells : list cell) (key : Z) :
  (2 <= fuel)%nat ->
  reachable fuel bt ->
  BTree.getAll fuel bt = (bt1, Ok cells) ->
  BTree.delete fuel key bt = (bt', Ok tt) ->
  exists bt2,
    BTree.getAll fuel bt' =
    (bt2, Ok (List.filter (fun c => negb (fst c =? key)) cells))
    /\ In key (map fst cells).
Proof.
  intros Hfuel Hreach Hall Hdel.
  destruct (reachable_represents fuel bt Hfuel Hreach) as [t Ht].
  destruct (getAll_represents fuel bt t Ht Hfuel) as (bt1' & E & _).
  rewrite E in Hall. injection Hall as _ <-.
  destruct (delete_exact fuel key bt bt' t Ht Hfuel Hdel) as (t' & Ht' & Hc).
  destruct (getAll_represents fuel bt' t' Ht' Hfuel) as (bt2 & E2 & _).
  exists bt2. split; [now rewrite E2, Hc|].
  pose proof (delete_represents fuel key bt t Ht Hfuel) as Hd.
  rewrite <- (cells_for_has_key bt t key Ht) in Hd.
  destruct (has_key key (contents t)) eqn:Hh.
  - apply has_key_true in Hh as (c & Hin & Hk). apply in_map_iff. now exists c.
  - destruct Hd as (bt3 & E3 & _). rewrite E3 in Hdel. discriminate.
Qed.

(** *** [getMaxKey] *)

Lemma findMaxInPage_leaf (fuel : nat) (id : Z) (bt : BTree) (parent : Z)
    (cs : list cell) :
  is_leaf (page_of (disk bt) id) parent cs ->
  exists bt', BTree.findMaxInPage (S fuel) id bt = (bt', Ok (last_key cs 0))
              /\ unchanged bt bt'.
Proof.
  intros H. cbn [BTree.findMaxInPage].
  match goal with
  | |- context [bind (BTree.on_disk (VirtualDisk.readPage id)) ?k bt] =>
      destruct (bind_readPage id k bt) as (bt' & E & U)
  end.
  rewrite E, bind_lift, (is_leaf_type _ _ _ H).
  rewrite bind_lift, (is_leaf_numCells _ _ _ H).
  exists bt'. split; [|exact U].
  destruct cs as [|c cs]; [reflexivity|].
  change (Z.of_nat (length (c :: cs)) =? 0) with false. cbv beta iota.
  change (NODE_LEAF =? NODE_LEAF) with true. cbv beta iota.
  rewrite Nat2Z.id. unfold lift. now rewrite (is_leaf_last_key _ _ _ H).
Qed.

Lemma is_internal_last_child (page : bytes) (parent p0 : Z) (its : list item) :
  is_internal page parent p0 its ->
  BTree.last_child_loop page (length its) (HEADER_SIZE + 4) p0
  = Ok (List.last (map snd its) p0).
Proof.
  intros (Hok & _ & _ & tail & -> & _). unfold internal_page.
  rewrite app_assoc.
  change (HEADER_SIZE + 4)
    with (byteLength (header NODE_INTERNAL (Z.of_nat (length its)) parent
                      ++ be32 p0)).
  now apply (last_child_loop_spec its _ _ tail).
Qed.

Definition rightmost_cells (t : tree_shape) : list cell :=
  match t with
  | OneLeaf cs => cs
  | TwoLeaves _ _ _ _ cb => cb
  end.

Lemma getMaxKey_represents (fuel : nat) (bt : BTree) (t : tree_shape) :
  represents bt t -> (2 <= fuel)%nat ->
  exists bt', BTree.getMaxKey fuel bt
              = (bt', Ok (last_key (rightmost_cells t) 0))
              /\ unchanged bt bt'.
Proof.
  intros H Hfuel. destruct fuel as [|[|fuel]]; try lia.
  unfold BTree.getMaxKey. rewrite bind_root.
  destruct t as [cs|a s b ca cb]; cbn [represents rightmost_cells] in *.
  - destruct H as (Hl & _). now apply (findMaxInPage_leaf _ _ _ 0).
  - destruct H as (Hr & _ & Hb & _). remember (S fuel) as fuel1.
    cbn [BTree.findMaxInPage]. subst fuel1.
    match goal with
    | |- context [bind (BTree.on_disk (VirtualDisk.readPage ?id)) ?k bt] =>
        destruct (bind_readPage id k bt) as (bt1 & E & U1)
    end.
    rewrite E, bind_lift, (is_internal_type _ _ _ _ Hr).
    rewrite bind_lift, (is_internal_numCells _ _ _ _ Hr).
    change (Z.of_nat (length [(s, b)]) =? 0) with false. cbv beta iota.
    change (NODE_INTERNAL =? NODE_LEAF) with false. cbv beta iota.
    rewrite bind_lift, (is_internal_p0 _ _ _ _ Hr).
    rewrite bind_lift, Nat2Z.id, (is_internal_last_child _ _ _ _ Hr).
    cbn [map snd List.last].
    rewrite <- (unchanged_page_of _ _ _ U1) in Hb.
    destruct (findMaxInPage_leaf fuel b bt1 0 cb Hb) as (bt2 & E2 & U2).
    exists bt2. split; [exact E2|]. eauto using unchanged_trans.
Qed.

Lemma last_of_ascending (l : list Z) (d : Z) :
  StronglySorted Z.lt l -> l <> [] ->
  In (List.last l d) l /\ forall k, In k l -> k <= List.last l d.
Proof.
  induction l as [|x l IH]; intros Hs Hne; [contradiction|].
  apply StronglySorted_inv in Hs as [Hs Hall].
  destruct l as [|y l]; [cbn; split; [auto|intros k [->|[]]; lia]|].
  destruct (IH Hs ltac:(discriminate)) as [Hin Hmax].
  change (List.last (x :: y :: l) d) with (List.last (y :: l) d).
  split; [now right|]. intros k [->|Hk]; [|now apply Hmax].
  rewrite List.Forall_forall in Hall. specialize (Hall _ Hin). lia.
Qed.

(** [getMaxKey] on a reachable tree returns the last key of the
    rightmost leaf, and 0 when that leaf is empty: the greatest key
    that [getAll] lists, or 0; on a tree of one leaf that holds cells,
    the greatest key. *)
Theorem getMaxKey_is_greatest_or_zero (fuel : nat) (bt bt1 : BTree)
    (cells : list cell) :
  (2 <= fuel)%nat ->
  reachable fuel bt ->
  BTree.getAll fuel bt = (bt1, Ok cells) ->
  exists bt2 m,
    BTree.getMaxKey fuel bt = (bt2, Ok m)
    /\ unchanged bt bt2
    /\ (m = 0 \/ (In m (map fst cells)
                  /\ forall k, In k (map fst cells) -> k <= m))
    /\ (getUint8 (page_of (disk bt) (rootPageId bt)) OFF_TYPE = Ok NODE_LEAF ->
        cells <> [] ->
        In m (map fst cells) /\ forall k, In k (map fst cells) -> k <= m).
Proof.
  intros Hfuel Hreach Hall.
  destruct (reachable_represents fuel bt Hfuel Hreach) as [t Ht].
  destruct (getAll_represents fuel bt t Ht Hfuel) as (bt1' & E & _).
  rewrite E in Hall. injection Hall as _ <-.
  destruct (getMaxKey_represents fuel bt t Ht Hfuel) as (bt2 & Em & U).
  exists bt2, (last_key (rightmost_cells t) 0). splits; [exact Em|exact U| |].
  - pose proof (contents_strictly_ascending bt t Ht) as Hs.
    destruct t as [cs|a s b ca cb]; cbn [rightmost_cells contents] in *.
    + destruct cs as [|c cs]; [now left|]. right.
      apply (last_of_ascending _ 0 Hs). discriminate.
    + destruct cb as [|c cb]; [now left|]. right.
      destruct Ht as (_ & _ & _ & _ & Hsb & Hlt & Hge & _).
      destruct (last_of_ascending (map fst (c :: cb)) 0 Hsb ltac:(discriminate))
        as [Hin Hmax].
      unfold last_key. rewrite map_app. split; [apply in_or_app; now right|].
      intros k Hk. apply in_app_or in Hk as [Hk|Hk]; [|now apply Hmax].
      apply in_map_iff in Hk as (x & <- & Hx). specialize (Hlt x Hx).
      specialize (Hge c (or_introl eq_refl)).
      specialize (Hmax (fst c) (or_introl eq_refl)). lia.
  - intros Hty Hne. destruct (root_leaf_is_one_leaf bt t Ht Hty) as [cs ->].
    cbn [rightmost_cells contents] in *.
    apply (last_of_ascending _ 0 (contents_strictly_ascending bt _ Ht)).
    now destruct cs.
Qed.

(** ** More on the database *)

Lemma rollback_is_create (d : VirtualDisk) (l : LocalStorage) :
  in_transaction d -> localStorage d = l -> is_Some (ls_meta l) ->
  VirtualDisk.rollback d = (VirtualDisk.create l, Ok tt).
Proof.
  intros [[buf Ht] _] <- [m Hm]. unfold VirtualDisk.rollback. rewrite Ht.
  unfold VirtualDisk.create, VirtualDisk.load. cbn. now rewrite Hm.
Qed.

Lemma begin_starts (d : VirtualDisk) :
  transactionBuffer d = None ->
  exists d', VirtualDisk.beginTransaction d = (d', Ok tt)
             /\ in_transaction d' /\ localStorage d' = localStorage d.
Proof.
  intros Ht. unfold VirtualDisk.beginTransaction. rewrite Ht.
  eexists. split; [reflexivity|]. unfold in_transaction. cbn.
  repeat split; now eexists.
Qed.

(** While a transaction is active, the statements other than [COMMIT]
    and [ROLLBACK] leave the transaction active and [localStorage] as
    it is, whatever they return or throw. *)
Theorem transaction_keeps_localStorage
    (Number_toInt32 : string -> Z) (String_of_number : Z -> string)
    (String_isInteger : string -> bool)
    (fuel : nat) (cmds : list command) (db : Database) :
  in_transaction (db_disk db) ->
  forallb (fun cmd => negb (ends_transaction cmd)) cmds = true ->
  let db' := Database.execute_all Number_toInt32 String_of_number
               String_isInteger fuel cmds db in
  in_transaction (db_disk db')
  /\ localStorage (db_disk db') = localStorage (db_disk db).
Proof.
  intros Hin Hcmds db'.
  exact (quiet_execute_all Number_toInt32 String_of_number String_isInteger
           fuel cmds Hcmds db Hin).
Qed.

(** [BEGIN], statements other than [COMMIT] and [ROLLBACK], then
    [ROLLBACK], on a storage that has the [meta] item: the database is
    left as [new Database()] makes it of the [localStorage] that was
    there at [BEGIN], and [ROLLBACK] throws what loading the tables
    throws, if it does. *)
Theorem rollback_reopens_the_database
    (Number_toInt32 : string -> Z) (String_of_number : Z -> string)
    (String_isInteger : string -> bool)
    (fuel : nat) (cmds : list command) (db : Database) :
  transactionBuffer (db_disk db) = None ->
  is_Some (ls_meta (localStorage (db_disk db))) ->
  forallb (fun cmd => negb (ends_transaction cmd)) cmds = true ->
  let execute := Database.execute Number_toInt32 String_of_number
                   String_isInteger fuel in
  let db1 := fst (execute BEGIN db) in
  let db2 := Database.execute_all Number_toInt32 String_of_number
               String_isInteger fuel cmds db1 in
  let reopened := Database.create (localStorage (db_disk db)) in
  snd (execute BEGIN db) = Ok Started
  /\ fst (execute ROLLBACK db2) = fst reopened
  /\ snd (execute ROLLBACK db2)
     = match snd reopened with
       | Ok _ => Ok RolledBack
       | Err e => Err e
       end.
Proof.
  intros Ht Hmeta Hcmds execute db1 db2 reopened.
  destruct (begin_starts (db_disk db) Ht) as (d1 & E1 & Hin1 & L1).
  assert (Hb : execute BEGIN db = ({| db_disk := d1; tables := tables db |},
                                   Ok Started)).
  { unfold execute, Database.execute, bind, Database.on_disk. now rewrite E1. }
  assert (Hdb1 : db1 = {| db_disk := d1; tables := tables db |})
    by (unfold db1; now rewrite Hb).
  destruct (quiet_execute_all Number_toInt32 String_of_number String_isInteger
              fuel cmds Hcmds db1) as [Hin2 L2];
    [now rewrite Hdb1|].
  fold db2 in Hin2, L2.
  assert (L : localStorage (db_disk db2) = localStorage (db_disk db))
    by (rewrite L2, Hdb1; exact L1).
  pose proof (rollback_is_create (db_disk db2) _ Hin2 L Hmeta) as Er.
  split; [now rewrite Hb|].
  assert (E : execute ROLLBACK db2
              = (fst reopened,
                 match snd reopened with
                 | Ok _ => Ok RolledBack
                 | Err e => Err e
                 end)).
  { unfold execute, Database.execute.
    unfold bind at 1, Database.on_disk at 1. rewrite Er.
    unfold bind at 1, Database.clear_tables at 1. cbv beta iota.
    unfold reopened, Database.create. unfold bind, ret. cbn [db_disk].
    now destruct (Database.loadTables _) as [db' [[]|e]]. }
  now rewrite E.
Qed.

(** ** Worked examples of the properties above *)

Lemma is_Some_computed {A} (o : option A) :
  match o with Some _ => true | None => false end = true -> is_Some o.
Proof. destruct o; [now eexists|discriminate]. Qed.

Lemma example_split_reachable : reachable 3 example_split.
Proof.
  apply reachable_run_all.
  - apply reachable_empty, fresh_tree_empty.
  - repeat constructor; cbn; lia.
  - vm_compute. reflexivity.
Defined.

Lemma example_leaf_reachable : reachable 3 example_leaf.
Proof.
  apply reachable_run_all.
  - apply reachable_empty, fresh_tree_empty.
  - repeat constructor; cbn; lia.
  - vm_compute. reflexivity.
Defined.

(** A disk in a transaction that wrote page 1 and the key [root]. *)
Definition example_disk : VirtualDisk :=
  let d0 := VirtualDisk.create emptyStorage in
  let d1 := fst (VirtualDisk.beginTransaction d0) in
  let d2 := fst (VirtualDisk.writePage 1 (payload 3 7) d1) in
  fst (VirtualDisk.setMetadata "root" (MetaNumber 1) d2).

Lemma commit_keeps_the_view_example :
  exists buf mbuf d',
    transactionBuffer example_disk = Some buf
    /\ metaBuffer example_disk = Some mbuf
    /\ VirtualDisk.commit example_disk = (d', Ok tt)
    /\ page_of d' 1 = payload 3 7
    /\ ls_pages (localStorage d') !! 1 = Some (payload 3 7).
Proof.
  assert (Ht : transactionBuffer example_disk = Some {[ 1 := payload 3 7 ]})
    by (vm_compute; reflexivity).
  assert (Hm : metaBuffer example_disk = Some {[ "root" := MetaNumber 1 ]})
    by (vm_compute; reflexivity).
  destruct (commit_keeps_the_view example_disk _ _ Ht Hm)
    as (d' & E & _ & _ & Hp & _ & Hl & _).
  exists {[ 1 := payload 3 7 ]}, {[ "root" := MetaNumber 1 ]}, d'.
  splits; [exact Ht|exact Hm|exact E| |].
  - rewrite Hp. vm_compute. reflexivity.
  - apply Hl. vm_compute. reflexivity.
Defined.

(** A database with the table [t] and one row, and the same in a
    transaction. *)
Definition example_database : Database :=
  example_run [ CREATE_TABLE "t" example_columns;
                INSERT "t" [VNum 1; VStr "a"] None ] new_database.

Definition example_statements : list command :=
  [ INSERT "t" [VNum 2; VStr "b"] None;
    UPDATE "t" [("v", VStr "c")] (with_id 1);
    DELETE "t" (with_id 2);
    SELECT "t" all_rows ].

Lemma transaction_keeps_localStorage_example :
  let db := fst (example_execute BEGIN example_database) in
  let db' := example_run example_statements db in
  in_transaction (db_disk db)
  /\ in_transaction (db_disk db')
  /\ localStorage (db_disk db') = localStorage (db_disk example_database).
Proof.
  intros db db'.
  assert (Hin : in_transaction (db_disk db))
    by (split; apply is_Some_computed; vm_compute; reflexivity).
  assert (Hcmds : forallb (fun cmd => negb (ends_transaction cmd))
                    example_statements = true) by reflexivity.
  destruct (transaction_keeps_localStorage decimal_toInt32 decimal_String
              decimal_isInteger 3 example_statements db Hin Hcmds)
    as [Hin' Hl].
  splits; [exact Hin|exact Hin'|].
  etransitivity; [exact Hl|]. vm_compute. reflexivity.
Defined.

Lemma rollback_reopens_the_database_example :
  let db1 := fst (example_execute BEGIN example_database) in
  let db2 := example_run example_statements db1 in
  transactionBuffer (db_disk example_database) = None
  /\ is_Some (ls_meta (localStorage (db_disk example_database)))
  /\ fst (example_execute ROLLBACK db2)
     = fst (Database.create (localStorage (db_disk example_database))).
Proof.
  intros db1 db2.
  assert (Ht : transactionBuffer (db_disk example_database) = None)
    by (vm_compute; reflexivity).
  assert (Hm : is_Some (ls_meta (localStorage (db_disk example_database))))
    by (apply is_Some_computed; vm_compute; reflexivity).
  assert (Hcmds : forallb (fun cmd => negb (ends_transaction cmd))
                    example_statements = true) by reflexivity.
  destruct (rollback_reopens_the_database decimal_toInt32 decimal_String
              decimal_isInteger 3 example_statements example_database
              Ht Hm Hcmds) as (_ & E & _).
  splits; [exact Ht|exact Hm|exact E].
Defined.

Lemma search_agrees_with_getAll_example :
  let bt := run_all 3 example_ops fresh_tree in
  (2 <= 3)%nat
  /\ reachable 3 bt
  /\ snd (BTree.getAll 3 bt)
     = Ok [(4, payload 2000 4); (5, payload 2000 1); (9, payload 10 3)]
  /\ exists bt2 found,
       BTree.search 3 5 bt = (bt2, Ok found)
       /\ match found with
          | Some v => In (5, v) [(4, payload 2000 4); (5, payload 2000 1);
                                 (9, payload 10 3)]
          | None => False
          end.
Proof.
  intros bt. assert (Hfuel : (2 <= 3)%nat) by lia.
  assert (Hall : BTree.getAll 3 bt
                 = (fst (BTree.getAll 3 bt),
                    Ok [(4, payload 2000 4); (5, payload 2000 1);
                        (9, payload 10 3)]))
    by (vm_compute; reflexivity).
  destruct (search_agrees_with_getAll 3 bt _ _ 5 Hfuel example_reachable Hall)
    as (bt2 & found & E & _ & Hf).
  splits; [exact Hfuel|exact example_reachable|now rewrite Hall|].
  exists bt2, found. split; [exact E|].
  destruct found as [v|]; [exact Hf|]. apply Hf. cbn. tauto.
Defined.

Lemma insert_into_single_leaf_example :
  let cells := [(3, payload 2000 2); (5, payload 2000 1); (9, payload 10 3)] in
  (2 <= 3)%nat
  /\ reachable 3 example_leaf
  /\ key_ok 4
  /\ getUint8 (page_of (disk example_leaf) (rootPageId example_leaf)) OFF_TYPE
     = Ok NODE_LEAF
  /\ snd (BTree.getAll 3 example_leaf) = Ok cells
  /\ snd (BTree.insert 3 4 (payload 2000 4) example_leaf) = Ok tt
  /\ exists before after bt3,
       cells = before ++ after
       /\ snd (BTree.getAll 3 (fst (BTree.insert 3 4 (payload 2000 4)
                                      example_leaf)))
          = Ok (before ++ (4, payload 2000 4) :: after)
       /\ BTree.search 3 4 (fst (BTree.insert 3 4 (payload 2000 4)
                                   example_leaf))
          = (bt3, Ok (Some (payload 2000 4))).
Proof.
  intros cells. assert (Hfuel : (2 <= 3)%nat) by lia.
  assert (Hkey : key_ok 4) by (unfold key_ok; lia).
  assert (Hty : getUint8 (page_of (disk example_leaf) (rootPageId example_leaf))
                  OFF_TYPE = Ok NODE_LEAF) by (vm_compute; reflexivity).
  assert (Hall : BTree.getAll 3 example_leaf
                 = (fst (BTree.getAll 3 example_leaf), Ok cells))
    by (vm_compute; reflexivity).
  assert (Hins : BTree.insert 3 4 (payload 2000 4) example_leaf
                 = (fst (BTree.insert 3 4 (payload 2000 4) example_leaf),
                    Ok tt))
    by (vm_compute; reflexivity).
  destruct (insert_into_single_leaf 3 example_leaf _ _ cells 4
              (payload 2000 4) Hfuel example_leaf_reachable Hkey Hty Hall Hins)
    as (before & after & bt2 & bt3 & Hc & E2 & E3).
  splits; [exact Hfuel|exact example_leaf_reachable|exact Hkey|exact Hty
          |now rewrite Hall|now rewrite Hins|].
  exists before, after, bt3. splits; [exact Hc|now rewrite E2|exact E3].
Defined.

Lemma insert_with_room_example :
  let cells := [(3, payload 2000 2); (4, payload 2000 4);
                (5, payload 2000 1); (9, payload 10 3)] in
  let cc := [(5, payload 2000 1); (9, payload 10 3)] in
  (2 <= 3)%nat
  /\ reachable 3 example_split
  /\ key_ok 7
  /\ snd (BTree.findLeafPage 3 (rootPageId example_split) 7 example_split)
     = Ok 2
  /\ getUint16 (page_of (disk example_split) 2) OFF_NUM_CELLS = Ok 2
  /\ BTree.read_cells (page_of (disk example_split) 2) (Z.to_nat 2) HEADER_SIZE
     = Ok cc
  /\ has_room cc (payload 10 8) = true
  /\ ~ In 7 (map fst cc)
  /\ snd (BTree.getAll 3 example_split) = Ok cells
  /\ exists bt' before after bt2,
       BTree.insert 3 7 (payload 10 8) example_split = (bt', Ok tt)
       /\ cells = before ++ after
       /\ BTree.getAll 3 bt' = (bt2, Ok (before ++ (7, payload 10 8) :: after)).
Proof.
  intros cells cc. assert (Hfuel : (2 <= 3)%nat) by lia.
  assert (Hkey : key_ok 7) by (unfold key_ok; lia).
  assert (Hleaf : BTree.findLeafPage 3 (rootPageId example_split) 7
                    example_split
                  = (fst (BTree.findLeafPage 3 (rootPageId example_split) 7
                            example_split), Ok 2))
    by (vm_compute; reflexivity).
  assert (Hn : getUint16 (page_of (disk example_split) 2) OFF_NUM_CELLS = Ok 2)
    by (vm_compute; reflexivity).
  assert (Hcc : BTree.read_cells (page_of (disk example_split) 2) (Z.to_nat 2)
                  HEADER_SIZE = Ok cc) by (vm_compute; reflexivity).
  assert (Hroom : has_room cc (payload 10 8) = true)
    by (vm_compute; reflexivity).
  assert (Hnew : ~ In 7 (map fst cc))
    by (cbn; intros [H|[H|[]]]; discriminate).
  assert (Hall : BTree.getAll 3 example_split
                 = (fst (BTree.getAll 3 example_split), Ok cells))
    by (vm_compute; reflexivity).
  destruct (insert_with_room 3 example_split _ _ cells cc 7 2 2
              (payload 10 8) Hfuel example_split_reachable Hkey Hleaf Hn Hcc
              Hroom Hnew Hall)
    as (bt' & before & after & bt2 & bt3 & Hins & Hc & E2 & _).
  splits; [exact Hfuel|exact example_split_reachable|exact Hkey
          |now rewrite Hleaf|exact Hn|exact Hcc|exact Hroom|exact Hnew
          |now rewrite Hall|].
  exists bt', before, after, bt2. splits; assumption.
Defined.

Lemma insert_below_root_loses_cells_example :
  let cells := [(3, payload 2000 2); (4, payload 2000 4);
                (5, payload 2000 1); (9, payload 10 3)] in
  let cc := [(5, payload 2000 1); (9, payload 10 3)] in
  let bt' := fst (BTree.insert 3 6 (payload 2100 8) example_split) in
  (2 <= 3)%nat
  /\ reachable 3 example_split
  /\ key_ok 6
  /\ getUint8 (page_of (disk example_split) (rootPageId example_split))
       OFF_TYPE = Ok NODE_INTERNAL
  /\ snd (BTree.findLeafPage 3 (rootPageId example_split) 6 example_split)
     = Ok 2
  /\ getUint16 (page_of (disk example_split) 2) OFF_NUM_CELLS = Ok 2
  /\ BTree.read_cells (page_of (disk example_split) 2) (Z.to_nat 2) HEADER_SIZE
     = Ok cc
  /\ has_room cc (payload 2100 8) = false
  /\ snd (BTree.getAll 3 example_split) = Ok cells
  /\ snd (BTree.insert 3 6 (payload 2100 8) example_split) = Ok tt
  /\ snd (BTree.getAll 3 bt')
     = Ok [(3, payload 2000 2); (4, payload 2000 4); (5, payload 2000 1)]
  /\ exists bt2 cells',
       BTree.getAll 3 bt' = (bt2, Ok cells')
       /\ (length cells' <= length cells)%nat.
Proof.
  intros cells cc bt'. assert (Hfuel : (2 <= 3)%nat) by lia.
  assert (Hkey : key_ok 6) by (unfold key_ok; lia).
  assert (Hty : getUint8 (page_of (disk example_split)
                            (rootPageId example_split)) OFF_TYPE
                = Ok NODE_INTERNAL) by (vm_compute; reflexivity).
  assert (Hleaf : BTree.findLeafPage 3 (rootPageId example_split) 6
                    example_split
                  = (fst (BTree.findLeafPage 3 (rootPageId example_split) 6
                            example_split), Ok 2))
    by (vm_compute; reflexivity).
  assert (Hn : getUint16 (page_of (disk example_split) 2) OFF_NUM_CELLS = Ok 2)
    by (vm_compute; reflexivity).
  assert (Hcc : BTree.read_cells (page_of (disk example_split) 2) (Z.to_nat 2)
                  HEADER_SIZE = Ok cc) by (vm_compute; reflexivity).
  assert (Hroom : has_room cc (payload 2100 8) = false)
    by (vm_compute; reflexivity).
  assert (Hall : BTree.getAll 3 example_split
                 = (fst (BTree.getAll 3 example_split), Ok cells))
    by (vm_compute; reflexivity).
  assert (Hins : BTree.insert 3 6 (payload 2100 8) example_split = (bt', Ok tt))
    by (vm_compute; reflexivity).
  destruct (insert_below_root_loses_cells 3 example_split _ _ bt' cells cc 6 2 2
              (payload 2100 8) Hfuel example_split_reachable Hkey Hty Hleaf Hn
              Hcc Hroom Hall Hins)
    as (bt2 & cells' & E & Hlen & _).
  splits; [exact Hfuel|exact example_split_reachable|exact Hkey|exact Hty
          |now rewrite Hleaf|exact Hn|exact Hcc|exact Hroom|now rewrite Hall
          |now rewrite Hins|vm_compute; reflexivity|].
  exists bt2, cells'. split; assumption.
Defined.

Lemma delete_keeps_the_others_example :
  let cells := [(3, payload 2000 2); (4, payload 2000 4);
                (5, payload 2000 1); (9, payload 10 3)] in
  (2 <= 3)%nat
  /\ reachable 3 example_split
  /\ snd (BTree.getAll 3 example_split) = Ok cells
  /\ snd (BTree.delete 3 4 example_split) = Ok tt
  /\ snd (BTree.getAll 3 (fst (BTree.delete 3 4 example_split)))
     = Ok [(3, payload 2000 2); (5, payload 2000 1); (9, payload 10 3)].
Proof.
  intros cells. assert (Hfuel : (2 <= 3)%nat) by lia.
  assert (Hall : BTree.getAll 3 example_split
                 = (fst (BTree.getAll 3 example_split), Ok cells))
    by (vm_compute; reflexivity).
  assert (Hdel : BTree.delete 3 4 example_split
                 = (fst (BTree.delete 3 4 example_split), Ok tt))
    by (vm_compute; reflexivity).
  destruct (delete_keeps_the_others 3 example_split _ _ cells 4 Hfuel
              example_split_reachable Hall Hdel) as (bt2 & E & _).
  splits; [exact Hfuel|exact example_split_reachable|now rewrite Hall
          |now rewrite Hdel|].
  rewrite E. reflexivity.
Defined.

Lemma getMaxKey_is_greatest_or_zero_example :
  let bt := run_all 3 example_ops fresh_tree in
  (2 <= 3)%nat
  /\ reachable 3 bt
  /\ snd (BTree.getAll 3 bt)
     = Ok [(4, payload 2000 4); (5, payload 2000 1); (9, payload 10 3)]
  /\ exists bt2 m,
       BTree.getMaxKey 3 bt = (bt2, Ok m)
       /\ (m = 0 \/ forall k, In k [4; 5; 9] -> k <= m).
Proof.
  intros bt. assert (Hfuel : (2 <= 3)%nat) by lia.
  assert (Hall : BTree.getAll 3 bt
                 = (fst (BTree.getAll 3 bt),
                    Ok [(4, payload 2000 4); (5, payload 2000 1);
                        (9, payload 10 3)]))
    by (vm_compute; reflexivity).
  destruct (getMaxKey_is_greatest_or_zero 3 bt _ _ Hfuel example_reachable Hall)
    as (bt2 & m & E & _ & Hm & _).
  splits; [exact Hfuel|exact example_reachable|now rewrite Hall|].
  exists bt2, m. split; [exact E|].
  destruct Hm as [Hm|[_ Hm]]; [now left|right; exact Hm].
Defined.

(** ** The constructor of the tree *)

Lemma write_through_alias_spec (id : Z) (page : bytes) (d : VirtualDisk) :
  exists d', BTree.write_through_alias id page d = (d', Ok tt)
             /\ maxPageId d' = maxPageId d
             /\ localStorage d' = localStorage d
             /\ metaBuffer d' = metaBuffer d
             /\ forall id', id' <> id -> page_of d' id' = page_of d id'.
Proof.
  unfold BTree.write_through_alias.
  destruct (transactionBuffer d) as [buf|] eqn:Ht.
  - destruct (buf !! id) eqn:Hb; [|destruct (pages d !! id) eqn:Hp];
      eexists; (split; [reflexivity|]); splits; try reflexivity;
      intros id' Hne; unfold page_of; cbn; rewrite ?Ht; cbn;
      now rewrite ?lookup_insert_ne by congruence.
  - destruct (pages d !! id) eqn:Hp;
      eexists; (split; [reflexivity|]); splits; try reflexivity;
      intros id' Hne; unfold page_of; cbn; rewrite ?Ht; cbn;
      now rewrite ?lookup_insert_ne by congruence.
Qed.

Lemma poke_spec (id : Z) (page : bytes) (d : VirtualDisk) :
  exists d', BTree.poke id (Ok page) d = (d', Ok page)
             /\ maxPageId d' = maxPageId d
             /\ localStorage d' = localStorage d
             /\ metaBuffer d' = metaBuffer d
             /\ forall id', id' <> id -> page_of d' id' = page_of d id'.
Proof.
  destruct (write_through_alias_spec id page d) as (d' & E & H).
  exists d'. split; [|exact H].
  unfold BTree.poke, bind, lift, ret. now rewrite E.
Qed.

(** The header that the constructor writes over a page that starts
    with four zeros. *)
Lemma header_over_zeros (page : bytes) :
  byteLength page = PAGE_SIZE -> BTree.starts_with_zeros page = true ->
  exists tail,
    setUint8 page OFF_TYPE NODE_LEAF = Ok (1 :: skipn 1 page)
    /\ setUint16 (1 :: skipn 1 page) OFF_NUM_CELLS 0 = Ok (1 :: skipn 1 page)
    /\ setUint32 (1 :: skipn 1 page) OFF_PARENT 0 = Ok (leaf_page 0 [] tail)
    /\ byteLength (leaf_page 0 [] tail) = PAGE_SIZE.
Proof.
  intros Hlen Hz.
  destruct page as [|x0 [|x1 [|x2 [|x3 [|x4 [|x5 [|x6 tail]]]]]]];
    try (unfold byteLength, PAGE_SIZE in Hlen; cbn in Hlen; lia).
  cbn in Hz.
  destruct x0; try discriminate. destruct x1; try discriminate.
  destruct x2; try discriminate. destruct x3; try discriminate.
  exists tail. cbn [skipn]. splits.
  - exact (setUint8_mid_at _ [] (0 :: 0 :: 0 :: x4 :: x5 :: x6 :: tail)
             0 NODE_LEAF OFF_TYPE eq_refl eq_refl).
  - exact (setUint16_mid_at _ [1] [0; 0] (0 :: x4 :: x5 :: x6 :: tail)
             0 OFF_NUM_CELLS eq_refl eq_refl eq_refl).
  - exact (setUint32_mid_at _ [1; 0; 0] [0; x4; x5; x6] tail
             0 OFF_PARENT eq_refl eq_refl eq_refl).
  - unfold byteLength in *. cbn in *. lia.
Qed.

(** [new BTree(disk, rootPageId)] on a page that starts with four
    zeros, as a page never written does: the page becomes a leaf
    without cells, the other pages and the metadata are as they were,
    and [getAll] lists nothing. *)
Theorem constructor_makes_an_empty_leaf (r : Z) (d : VirtualDisk) :
  byteLength (page_of d r) = PAGE_SIZE ->
  BTree.starts_with_zeros (page_of d r) = true ->
  exists d',
    BTree.create r d = (d', Ok tt)
    /\ is_leaf (page_of d' r) 0 []
    /\ (forall id, id <> r -> page_of d' id = page_of d id)
    /\ (forall k, metadata_of d' k = metadata_of d k)
    /\ forall fuel, exists bt',
         BTree.getAll (S fuel) {| disk := d'; rootPageId := r |}
         = (bt', Ok []).
Proof.
  intros Hlen Hz.
  destruct (header_over_zeros _ Hlen Hz) as (tail & E1 & E2 & E3 & Hlen').
  unfold BTree.create.
  destruct (readPage_spec r d) as (d0 & R0 & O0).
  unfold bind at 1. rewrite R0, Hz, E1.
  destruct (poke_spec r (1 :: skipn 1 (page_of d r)) d0)
    as (d1 & P1 & M1 & L1 & B1 & O1).
  unfold bind at 1. rewrite P1, E2.
  destruct (poke_spec r (1 :: skipn 1 (page_of d r)) d1)
    as (d2 & P2 & M2 & L2 & B2 & O2).
  unfold bind at 1. rewrite P2, E3.
  destruct (poke_spec r (leaf_page 0 [] tail) d2)
    as (d3 & P3 & M3 & L3 & B3 & O3).
  unfold bind at 1. rewrite P3.
  destruct (writePage_spec r (leaf_page 0 [] tail) d3)
    as (d4 & W & Hp & Ho & _ & _ & _ & B4 & L4).
  exists d4. split; [exact W|].
  assert (Hleaf : is_leaf (page_of d4 r) 0 []).
  { rewrite Hp. split; [constructor|]. split; [lia|]. now exists tail. }
  splits.
  - exact Hleaf.
  - intros id Hne. rewrite (Ho id Hne), (O3 id Hne), (O2 id Hne), (O1 id Hne).
    now apply only_read_page_of.
  - intros k. unfold metadata_of. rewrite B4, L4, B3, L3, B2, L2, B1, L1.
    destruct O0 as (_ & _ & B0 & L0 & _). now rewrite B0, L0.
  - intros fuel. unfold BTree.getAll. rewrite bind_root. cbn [rootPageId].
    destruct (traverse_leaf fuel r {| disk := d4; rootPageId := r |} 0 []
                Hleaf) as (bt' & E & _).
    now exists bt'.
Qed.

Lemma constructor_makes_an_empty_leaf_example :
  let d := VirtualDisk.create emptyStorage in
  byteLength (page_of d 1) = PAGE_SIZE
  /\ BTree.starts_with_zeros (page_of d 1) = true
  /\ exists d' bt',
       BTree.create 1 d = (d', Ok tt)
       /\ BTree.getAll 1 {| disk := d'; rootPageId := 1 |} = (bt', Ok []).
Proof.
  intros d.
  assert (Hlen : byteLength (page_of d 1) = PAGE_SIZE) by reflexivity.
  assert (Hz : BTree.starts_with_zeros (page_of d 1) = true) by reflexivity.
  destruct (constructor_makes_an_empty_leaf 1 d Hlen Hz)
    as (d' & E & _ & _ & _ & Hall).
  destruct (Hall O) as (bt' & Eall).
  splits; [exact Hlen|exact Hz|]. exists d', bt'. split; assumption.
Defined.

(** [new BTree(disk, rootPageId)] on the root of a tree that
    insertions and deletions made: nothing is written, the pages read
    as before.  A table that is loaded again keeps its rows. *)
Theorem constructor_keeps_a_tree (fuel : nat) (bt : BTree) :
  (2 <= fuel)%nat ->
  reachable fuel bt ->
  exists d',
    BTree.create (rootPageId bt) (disk bt) = (d', Ok tt)
    /\ only_read (disk bt) d'
    /\ reachable fuel {| disk := d'; rootPageId := rootPageId bt |}.
Proof.
  intros Hfuel Hr.
  destruct (reachable_represents fuel bt Hfuel Hr) as (t & Ht).
  unfold BTree.create.
  destruct (readPage_spec (rootPageId bt) (disk bt)) as (d0 & R0 & O0).
  unfold bind at 1. rewrite R0.
  assert (Hz : BTree.starts_with_zeros (page_of (disk bt) (rootPageId bt))
               = false).
  { destruct t as [cs|a s b ca cb]; cbn [represents] in Ht.
    - destruct Ht as ((_ & _ & tail & -> & _) & _). reflexivity.
    - destruct Ht as ((_ & _ & _ & tail & -> & _) & _). reflexivity. }
  rewrite Hz. exists d0. splits; [reflexivity|exact O0|].
  apply (reachable_between fuel bt); [exact Hr|reflexivity| |].
  - destruct O0 as (Hm & _). exact Hm.
  - intros id. cbn [disk]. now apply only_read_page_of.
Qed.

Lemma constructor_keeps_a_tree_example :
  let bt := run_all 3 example_ops fresh_tree in
  (2 <= 3)%nat
  /\ reachable 3 bt
  /\ exists d', BTree.create (rootPageId bt) (disk bt) = (d', Ok tt)
                /\ only_read (disk bt) d'.
Proof.
  intros bt. assert (Hfuel : (2 <= 3)%nat) by lia.
  destruct (constructor_keeps_a_tree 3 bt Hfuel example_reachable)
    as (d' & E & O & _).
  splits; [exact Hfuel|exact example_reachable|].
  exists d'. split; assumption.
Defined.
